(** * Dataset post-processor: pairing, renaming and tag normalisation

    A shallow embedding of [src/post_processor.py] (class [PostProcessor])
    and the properties its specification states about it.

    Conventions of the embedding.
    - A Python [str] is a list of characters; the character type is the
      8-bit range of code points (0..255), on which [str.isspace] and
      [str.lower] are the functions defined below.
    - Path functions are those of [posixpath].
    - The file system is a finite map from paths to nodes; every call to the
      operating system is recorded in a trace next to the file system, so
      that the order of the calls can be stated.
    - A regular file holds a text (its bytes are the UTF-8 encoding of the
      text) or bytes that are not the UTF-8 encoding of any text; a file
      whose text has a character above the 8-bit range is outside the
      embedding.  Reading and writing are those of a POSIX system, where
      [os.linesep] is the line feed.
    - Diagnostic logging ([self.logger]) and the instance lock are left out. *)

From Stdlib Require Import Ascii String.
From stdpp Require Import base option list gmap strings pretty sorting.

#[local] Set Warnings "-clear-no-such-hyp,-level-tolerance".

(** ** Python strings *)

Abbreviation str := (list ascii).

(** A string literal of the source. *)
Definition lit (s : string) : str := list_ascii_of_string s.

Definition newline : ascii := "010"%char.
Definition cr : ascii := "013"%char.
Definition backslash : ascii := "\"%char.
Definition comma : ascii := ","%char.
Definition space : ascii := " "%char.
Definition underscore : ascii := "_"%char.
Definition hyphen : ascii := "-"%char.
Definition lparen : ascii := "("%char.
Definition rparen : ascii := ")"%char.
Definition dot : ascii := "."%char.
Definition slash : ascii := "/"%char.

(** [str.isspace] on one character of the 8-bit range: TAB..CR, FS..US,
    space, NEL (0x85) and NBSP (0xA0). *)
Definition isspace (c : ascii) : bool :=
  let n := nat_of_ascii c in
  ((9 <=? n) && (n <=? 13)) || ((28 <=? n) && (n <=? 32))
  || (n =? 133) || (n =? 160).

(** [str.lower] on one character of the 8-bit range: A..Z and the Latin-1
    capitals 0xC0..0xDE except the multiplication sign 0xD7. *)
Definition lower_char (c : ascii) : ascii :=
  let n := nat_of_ascii c in
  if ((65 <=? n) && (n <=? 90))
     || ((192 <=? n) && (n <=? 222) && negb (n =? 215))
  then ascii_of_nat (n + 32) else c.

Definition lower (s : str) : str := lower_char <$> s.

(** [s.split(sep)] for a one-character separator. *)
Fixpoint split (sep : ascii) (s : str) : list str :=
  match s with
  | [] => [[]]
  | c :: s' =>
      if decide (c = sep) then [] :: split sep s'
      else match split sep s' with
           | [] => [[c]]
           | w :: ws => (c :: w) :: ws
           end
  end.

(** [sep.join(l)]. *)
Fixpoint join (sep : str) (l : list str) : str :=
  match l with
  | [] => []
  | x :: l' =>
      match l' with
      | [] => x
      | _ :: _ => x ++ sep ++ join sep l'
      end
  end.

Fixpoint lstrip (s : str) : str :=
  match s with
  | [] => []
  | c :: s' => if isspace c then lstrip s' else s
  end.

Definition rstrip (s : str) : str := reverse (lstrip (reverse s)).

(** [s.strip()]. *)
Definition strip (s : str) : str := rstrip (lstrip s).

(** [s.replace(old, new)] for one-character [old] and [new]. *)
Definition str_replace (old new : ascii) (s : str) : str :=
  (λ c, if decide (c = old) then new else c) <$> s.

(** [s.endswith(suffix)] and [s.startswith(prefix)]. *)
Definition endswith (s suffix : str) : bool :=
  bool_decide (drop (length s - length suffix) s = suffix).

Definition startswith (s pre : str) : bool :=
  bool_decide (take (length pre) s = pre).

(** [re.sub(r'(?<!\\)P', r'\P', s)] for a literal one-character pattern [P]:
    every occurrence of [p] whose preceding character in [s] is not a
    backslash gets a backslash in front.  [prev] is the character before the
    current position, if any. *)
Fixpoint re_sub_unescaped (p : ascii) (prev : option ascii) (s : str) : str :=
  match s with
  | [] => []
  | c :: s' =>
      (if decide (c = p ∧ prev ≠ Some backslash) then [backslash; c] else [c])
        ++ re_sub_unescaped p (Some c) s'
  end.

Definition escape (p : ascii) (s : str) : str := re_sub_unescaped p None s.

(** ** Paths ([posixpath]) *)

(** [s.rfind(c)]: the index of the last [c] in [s], or [-1]. *)
Fixpoint rfind (c : ascii) (s : str) : Z :=
  match s with
  | [] => -1
  | x :: s' =>
      let i := rfind c s' in
      if decide (0 ≤ i)%Z then (i + 1)%Z
      else if decide (x = c) then 0%Z else (-1)%Z
  end.

(** [os.path.join(a, b)]. *)
Definition os_path_join (a b : str) : str :=
  if startswith b [slash] then b
  else if bool_decide (a = []) || endswith a [slash] then a ++ b
  else a ++ slash :: b.

(** The loop of [genericpath._splitext] that skips the leading dots: is
    there a character other than a dot in [s]? *)
Fixpoint has_non_dot (s : str) : bool :=
  match s with
  | [] => false
  | c :: s' => if decide (c ≠ dot) then true else has_non_dot s'
  end.

(** [os.path.splitext(p)]. *)
Definition splitext (p : str) : str * str :=
  let sepIndex := rfind slash p in
  let dotIndex := rfind dot p in
  if decide (dotIndex > sepIndex)%Z then
    let filenameIndex := (sepIndex + 1)%Z in
    if has_non_dot (take (Z.to_nat (dotIndex - filenameIndex))
                         (drop (Z.to_nat filenameIndex) p))
    then (take (Z.to_nat dotIndex) p, drop (Z.to_nat dotIndex) p)
    else (p, [])
  else (p, []).

(** [os.path.basename(p)]. *)
Definition basename (p : str) : str :=
  drop (Z.to_nat (rfind slash p + 1)) p.

(** [str(n)] and [f"{n}"] for a non-negative integer. *)
Definition str_of_nat (n : nat) : str := lit (pretty n).

(** ** The operating system *)

(** What a regular file holds: a text, stored as its UTF-8 encoding (the
    text is the one that decoding gives, before any translation of line
    ends), or bytes that do not decode, that is bytes that are not
    well-formed UTF-8 ([utf8_wellformed] below). *)
Inductive content :=
  | Text (s : str)
  | Binary (bytes : list ascii).

(** A text stands for the file content that encodes it. *)
#[warning="-uniform-inheritance"] Coercion Text : list >-> content.

#[global] Instance content_eq_dec : EqDecision content.
Proof. solve_decision. Defined.

(** [s.encode('utf-8')] for a text of the 8-bit range: one byte for a code
    point below 0x80, two bytes from 0x80 on. *)
Definition utf8_encode (s : str) : list ascii :=
  s ≫= λ c,
    let n := nat_of_ascii c in
    if n <? 128 then [c]
    else [ascii_of_nat (192 + n / 64); ascii_of_nat (128 + n mod 64)].

(** The bytes of a regular file. *)
Definition bytes_of (c : content) : list ascii :=
  match c with
  | Text s => utf8_encode s
  | Binary bytes => bytes
  end.

(** The byte sequences that the codec [utf-8] decodes: one byte below 0x80;
    a lead byte 0xC2..0xDF, 0xE0..0xEF or 0xF0..0xF4 with one, two or three
    continuation bytes 0x80..0xBF, where the first continuation byte is
    restricted after 0xE0, 0xED, 0xF0 and 0xF4 (no overlong form, no
    surrogate, nothing above U+10FFFF). *)
Fixpoint utf8_wellformed (bytes : list ascii) : bool :=
  let cont b := (128 <=? nat_of_ascii b) && (nat_of_ascii b <=? 191) in
  let within lo hi b := (lo <=? nat_of_ascii b) && (nat_of_ascii b <=? hi) in
  match bytes with
  | [] => true
  | b0 :: rest =>
      let n0 := nat_of_ascii b0 in
      if n0 <? 128 then utf8_wellformed rest
      else
        match rest with
        | [] => false
        | b1 :: rest1 =>
            if (194 <=? n0) && (n0 <=? 223) then
              cont b1 && utf8_wellformed rest1
            else
              match rest1 with
              | [] => false
              | b2 :: rest2 =>
                  if (224 <=? n0) && (n0 <=? 239) then
                    (if n0 =? 224 then within 160 191 b1
                     else if n0 =? 237 then within 128 159 b1
                     else cont b1)
                    && cont b2 && utf8_wellformed rest2
                  else
                    match rest2 with
                    | [] => false
                    | b3 :: rest3 =>
                        if (240 <=? n0) && (n0 <=? 244) then
                          (if n0 =? 240 then within 144 191 b1
                           else if n0 =? 244 then within 128 143 b1
                           else cont b1)
                          && cont b2 && cont b3 && utf8_wellformed rest3
                        else false
                    end
              end
        end
  end.

Inductive node :=
  | File (c : content)
  | Dir.

#[global] Instance node_eq_dec : EqDecision node.
Proof. solve_decision. Defined.

Inductive call :=
  | PathExists (p : str)
  | ListDir (p : str)
  | Rename (src dst : str)
  | ReadText (p : str)
  | WriteText (p content : str)
  | MakeDirs (p : str)
  | Move (src dst : str).

Inductive oserror :=
  | FileNotFoundError
  | NotADirectoryError
  | IsADirectoryError
  | FileExistsError
  | DirectoryNotEmpty
  | InvalidArgument.

Inductive exn :=
  | ValueError (folder_path : str)
  | OSError (e : oserror) (c : call)
  | UnicodeDecodeError (object : list ascii).

(** The file system and the calls made so far (oldest first).  Paths are
    compared as strings: there is no normalisation, no link, no permission,
    and a destination needs no existing parent directory. *)
Record world := World {
  fs : gmap str node;
  trace : list call
}.

(** A computation on the world that cannot raise, and one that can. *)
Definition ST (A : Type) : Type := world → A * world.
Definition M (A : Type) : Type := ST (exn + A).

Definition ret {A} (x : A) : ST A := λ w, (x, w).
Definition bind {A B} (m : ST A) (k : A → ST B) : ST B :=
  λ w, let '(x, w') := m w in k x w'.

Notation "x <- m ;; k" := (bind m (λ x, k))
  (at level 100, m at next level, right associativity,
   format "'[v' x  <-  m  ;;  '/' k ']'").

(** Sequencing inside a [try] block: the first exception ends the block. *)
Definition bindE {A B} (m : M A) (k : A → M B) : M B :=
  r <- m ;; match r with inl e => ret (inl e) | inr x => k x end.

Notation "x <-! m ;; k" := (bindE m (λ x, k))
  (at level 100, m at next level, right associativity,
   format "'[v' x  <-!  m  ;;  '/' k ']'").

Definition ok {A} (x : A) : M A := ret (inr x).
Definition raise {A} (e : exn) : M A := ret (inl e).

Definition get_fs : ST (gmap str node) := λ w, (fs w, w).

(** One call: it is recorded, then [f] gives its result and the new file
    system. *)
Definition syscall {A} (c : call)
    (f : gmap str node → A * gmap str node) : ST A :=
  λ w, let '(r, m) := f (fs w) in (r, World m (trace w ++ [c])).

(** [p] is at [d] or below it. *)
Definition at_or_below (d p : str) : bool :=
  bool_decide (p = d) || startswith p (d ++ [slash]).

(** The names in directory [d]: the paths [os.path.join(d, name)] present,
    for the names without a separator. *)
Definition child_name (d p : str) : option str :=
  let pre := os_path_join d [] in
  let name := drop (length pre) p in
  if startswith p pre && bool_decide (name ≠ [] ∧ slash ∉ name)
  then Some name else None.

Definition listing (m : gmap str node) (d : str) : list str :=
  omap (child_name d) (elements (dom m)).

(** The tree at [src] moved to [dst], replacing what was there. *)
Definition move_tree (src dst : str) (m : gmap str node) : gmap str node :=
  let moved := filter (λ kv, at_or_below src kv.1 = true) (map_to_list m) in
  let kept :=
    filter (λ kv : str * node, at_or_below src kv.1 = false
                 ∧ at_or_below dst kv.1 = false) m in
  list_to_map (prod_map (λ p, dst ++ drop (length src) p) id <$> moved) ∪ kept.

(** POSIX [rename(2)]: an existing destination is replaced, except that a
    file does not replace a directory, a directory does not replace a file,
    nothing replaces a directory that is not empty, and a directory does not
    go below itself. *)
Definition rename_fs (c : call) (src dst : str) (m : gmap str node)
    : (exn + unit) * gmap str node :=
  match m !! src with
  | None => (inl (OSError FileNotFoundError c), m)
  | Some n =>
      if decide (src = dst) then (inr (), m)
      else if bool_decide (n = Dir) && startswith dst (src ++ [slash]) then
        (inl (OSError InvalidArgument c), m)
      else
        match n, m !! dst with
        | File _, Some Dir => (inl (OSError IsADirectoryError c), m)
        | Dir, Some (File _) => (inl (OSError NotADirectoryError c), m)
        | Dir, Some Dir =>
            if decide (listing m dst = []) then (inr (), move_tree src dst m)
            else (inl (OSError DirectoryNotEmpty c), m)
        | _, _ => (inr (), move_tree src dst m)
        end
  end.

(** [os.path.exists(p)]. *)
Definition os_path_exists (p : str) : ST bool :=
  syscall (PathExists p) (λ m, (bool_decide (is_Some (m !! p)), m)).

(** [os.listdir(p)]; the order of the names is that of the finite map. *)
Definition os_listdir (p : str) : M (list str) :=
  syscall (ListDir p) (λ m,
    match m !! p with
    | Some Dir => (inr (listing m p), m)
    | Some (File _) => (inl (OSError NotADirectoryError (ListDir p)), m)
    | None => (inl (OSError FileNotFoundError (ListDir p)), m)
    end).

(** [os.rename(src, dst)]. *)
Definition os_rename (src dst : str) : M unit :=
  syscall (Rename src dst) (rename_fs (Rename src dst) src dst).

(** [shutil.move(src, dst)] where the code calls it: [dst] was just seen
    not to exist, so the move is one rename. *)
Definition shutil_move (src dst : str) : M unit :=
  syscall (Move src dst) (rename_fs (Move src dst) src dst).

(** The translation of line ends that a file opened for reading in text
    mode applies to what it decodes (universal newlines, the default
    [newline=None]): a carriage return followed by a line feed, and a
    carriage return alone, become one line feed.  [after_cr] tells that the
    character before [s] was a carriage return. *)
Fixpoint translate_newlines (after_cr : bool) (s : str) : str :=
  match s with
  | [] => []
  | c :: s' =>
      if decide (c = cr) then newline :: translate_newlines true s'
      else if decide (c = newline) then
        (if after_cr then [] else [newline]) ++ translate_newlines false s'
      else c :: translate_newlines false s'
  end.

Definition universal_newlines (s : str) : str := translate_newlines false s.

(** [open(p, 'r', encoding='utf-8').read()]: the text of the file with its
    line ends translated; bytes that are not UTF-8 raise
    [UnicodeDecodeError]. *)
Definition read_text (p : str) : M str :=
  syscall (ReadText p) (λ m,
    match m !! p with
    | Some (File (Text s)) => (inr (universal_newlines s), m)
    | Some (File (Binary bytes)) => (inl (UnicodeDecodeError bytes), m)
    | Some Dir => (inl (OSError IsADirectoryError (ReadText p)), m)
    | None => (inl (OSError FileNotFoundError (ReadText p)), m)
    end).

(** [open(p, 'w', encoding='utf-8').write(content)]: the file is replaced by
    the encoding of [content]; a line feed is written as it is. *)
Definition write_text (p content : str) : M unit :=
  syscall (WriteText p content) (λ m,
    match m !! p with
    | Some Dir => (inl (OSError IsADirectoryError (WriteText p content)), m)
    | _ => (inr (), <[p := File (Text content)]> m)
    end).

(** [os.makedirs(p, exist_ok=True)]. *)
Definition os_makedirs (p : str) : M unit :=
  syscall (MakeDirs p) (λ m,
    match m !! p with
    | Some Dir => (inr (), m)
    | Some (File _) => (inl (OSError FileExistsError (MakeDirs p)), m)
    | None => (inr (), <[p := Dir]> m)
    end).

(** ** Scanner and matcher *)

Record FileInfo := mkFileInfo {
  image_path : option str;
  text_path : option str;
  base_name : str;
  is_paired : bool
}.

Definition image_extensions : list str :=
  [lit ".jpg"; lit ".jpeg"; lit ".png"; lit ".gif"; lit ".bmp"; lit ".webp"].

(** [os.path.splitext(f)[1].lower() in self.image_extensions]. *)
Definition is_image (f : str) : Prop := lower (splitext f).2 ∈ image_extensions.

(** [f.lower().endswith('.txt')]. *)
Definition is_text (f : str) : Prop := endswith (lower f) (lit ".txt") = true.

(** The order of [sorted] on strings: lexicographic on the code points. *)
Fixpoint str_leb (a b : str) : bool :=
  match a, b with
  | [], _ => true
  | _ :: _, [] => false
  | x :: a', y :: b' =>
      if decide (x = y) then str_leb a' b'
      else nat_of_ascii x <? nat_of_ascii y
  end.

Definition str_le (a b : str) : Prop := str_leb a b = true.

#[global] Instance str_le_dec : RelDecision str_le.
Proof. intros a b. unfold str_le. apply _. Defined.

(** [sorted(l)]. *)
Definition sorted (l : list str) : list str := merge_sort str_le l.

(** The body of the loop over [images]. *)
Definition match_image (folder_path : str) (texts : list str) (img : str)
    : FileInfo :=
  let base_name := (splitext img).1 in
  let txt_name_1 := base_name ++ lit ".txt" in
  let txt_name_2 := img ++ lit ".txt" in
  let image_path := os_path_join folder_path img in
  if decide (txt_name_1 ∈ texts) then
    mkFileInfo (Some image_path) (Some (os_path_join folder_path txt_name_1))
               base_name true
  else if decide (txt_name_2 ∈ texts) then
    mkFileInfo (Some image_path) (Some (os_path_join folder_path txt_name_2))
               base_name true
  else
    mkFileInfo (Some image_path) None base_name false.

(** The lists built from the names in the folder: [paired_files],
    [unpaired_images] and [unpaired_files]. *)
Definition scan_lists (folder_path : str) (files : list str)
    : list FileInfo * list str * list str :=
  let images := sorted (filter is_image files) in
  let texts := sorted (filter is_text files) in
  let paired_files := match_image folder_path texts <$> images in
  let unpaired_images :=
    omap (λ file_info,
            if is_paired file_info then None else image_path file_info)
         paired_files in
  let used_texts : gset str :=
    list_to_set (omap (λ file_info,
                         if is_paired file_info
                         then basename <$> text_path file_info else None)
                      paired_files) in
  let unpaired_files :=
    os_path_join folder_path <$> filter (λ txt, txt ∉ used_texts) texts in
  (paired_files, unpaired_images, unpaired_files).

(** [scan_and_match_files]; the [ValueError] is the failure for a folder
    that does not exist, an error of [os.listdir] is raised again. *)
Definition scan_and_match_files (folder_path : str)
    : M (list FileInfo * list str) :=
  e <- os_path_exists folder_path ;;
  if negb e then raise (ValueError folder_path)
  else
    files <-! os_listdir folder_path ;;
    let '(paired_files, _, unpaired_files) := scan_lists folder_path files in
    ok (paired_files, unpaired_files).

(** *** Specification predicates for the scanner *)

(** No two images have the same stem, and no image's stem is the whole name
    of an image. *)
Definition stems_distinct (images : list str) : Prop :=
  NoDup ((λ img, (splitext img).1) <$> images)
  ∧ Forall (λ img, (splitext img).1 ∉ images) images.

(** ** Tag normaliser *)

(** [[tag.strip() for tag in l if tag.strip()]]. *)
Definition strip_nonempty (l : list str) : list str :=
  strip <$> filter (λ tag, strip tag ≠ []) l.

(** The loop over [tags] with the set [seen]; the result is [unique_tags]
    (the tags appended from here on). *)
Fixpoint unique_from (seen : gset str) (tags : list str) : list str :=
  match tags with
  | [] => []
  | tag :: tags' =>
      if decide (tag ∈ seen) then unique_from seen tags'
      else tag :: unique_from ({[tag]} ∪ seen) tags'
  end.

Definition unique (tags : list str) : list str := unique_from ∅ tags.

(** The body of the loop over [lines]. *)
Definition tags_of_line (line : str) : list str :=
  if decide (comma ∈ line) then strip_nonempty (split comma line)
  else if decide (strip line ≠ []) then [strip line] else [].

Definition auto_standardize_tags (tags_text : str) : str :=
  if decide (tags_text = [] ∨ strip tags_text = []) then []
  else
    let lines := split newline tags_text in
    let tags := lines ≫= tags_of_line in
    let tags :=
      (λ tag, str_replace hyphen space (str_replace underscore space tag))
        <$> tags in
    let processed_tags := (λ tag, escape rparen (escape lparen tag)) <$> tags in
    let tags := strip_nonempty processed_tags in
    join (lit ", ") (unique tags).

(** *** Canonical tags (specification predicates) *)

(** Every occurrence of [p] in [s] has a backslash right before it; [prev]
    is the character before [s], if any. *)
Fixpoint all_escaped (p : ascii) (prev : option ascii) (s : str) : Prop :=
  match s with
  | [] => True
  | c :: s' => (c = p → prev = Some backslash) ∧ all_escaped p (Some c) s'
  end.

(** A tag of the canonical format: not empty, no whitespace at either end,
    none of the characters that split or are replaced, parentheses escaped. *)
Record canonical_tag (t : str) : Prop := CanonicalTag {
  canon_nonempty : t ≠ [];
  canon_stripped : strip t = t;
  canon_comma : comma ∉ t;
  canon_newline : newline ∉ t;
  canon_underscore : underscore ∉ t;
  canon_hyphen : hyphen ∉ t;
  canon_lparen : all_escaped lparen None t;
  canon_rparen : all_escaped rparen None t
}.

(** *** Clean-and-edit *)

(** A Python [set] of strings, given by its elements in iteration order. *)
Abbreviation pyset := (list str).

(** [arg or set()] for an optional set argument. *)
Definition or_empty (arg : option pyset) : pyset := default [] arg.

(** [sub in s] on strings: [sub] occurs in [s] as a substring. *)
Fixpoint is_substring (sub s : str) : bool :=
  startswith s sub
  || match s with
     | [] => false
     | _ :: s' => is_substring sub s'
     end.

(** The inner loop over [remove_containing], left at the first match. *)
Fixpoint should_remove (remove_containing : pyset) (tag : str) : bool :=
  match remove_containing with
  | [] => false
  | contain_text :: rest =>
      if is_substring contain_text tag then true else should_remove rest tag
  end.

(** The tags left after splitting and the two removal steps. *)
Definition remaining_tags
    (tags_text : str) (remove_tags remove_containing : pyset) : list str :=
  let tags := strip_nonempty (split comma tags_text) in
  let tags :=
    match remove_tags with
    | [] => tags
    | _ :: _ => filter (λ tag, tag ∉ remove_tags) tags
    end in
  match remove_containing with
  | [] => tags
  | _ :: _ => filter (λ tag, should_remove remove_containing tag = false) tags
  end.

(** The loop over [add_tags]; [existing_tags_set] is built once, before the
    loop, and the loop appends to [tags]. *)
Definition add_new_tags (tags : list str) (add_tags : pyset) : list str :=
  match add_tags with
  | [] => tags
  | _ :: _ =>
      let existing_tags_set : gset str := list_to_set tags in
      foldl (λ tags new_tag,
               if decide (new_tag ∈ existing_tags_set) then tags
               else tags ++ [new_tag])
            tags add_tags
  end.

Definition clean_and_edit_tags
    (tags_text : str) (remove_tags remove_containing add_tags : option pyset)
    : str :=
  if decide (tags_text = [] ∨ strip tags_text = []) then []
  else
    let remove_tags := or_empty remove_tags in
    let remove_containing := or_empty remove_containing in
    let add_tags := or_empty add_tags in
    let tags := remaining_tags tags_text remove_tags remove_containing in
    let tags := add_new_tags tags add_tags in
    let tags := strip_nonempty tags in
    join (lit ", ") (unique tags).

(** ** Results of the operations *)

(** The error strings, one constructor per message of the source. *)
Inductive error_msg :=
  | TempRenameFailed (old_path temp_path : str) (e : exn)
  | FinalRenameFailed (temp_path final_path : str) (e : exn)
  | StandardizeFileFailed (text_path : str) (e : exn)
  | MoveUnpairedFailed (file_path : str) (e : exn)
  | HandleUnpairedFailed (e : exn)
  | AutoPostProcessFailed (e : exn)
  | TagFileFailed (txt_file : str) (e : exn)
  | ManualTagProcessFailed (e : exn).

(** The summaries, one constructor per message of the source. *)
Inductive msg :=
  | MsgEmpty
  | MsgRenamed (n : nat)
  | MsgRenameErrors (n : nat)
  | MsgStandardized (n : nat)
  | MsgStandardizeErrors (n : nat)
  | MsgNoUnpaired
  | MsgUnpairedDisabled
  | MsgUnpairedHandled (n : nat)
  | MsgUnpairedErrors (n : nat)
  | MsgAutoDone (processed renamed standardized unpaired : nat)
  | MsgAutoErrors (n : nat)
  | MsgTagsProcessed (n : nat)
  | MsgTagsErrors (n : nat)
  | MsgFailure (e : error_msg).

Record ProcessResult := mkProcessResult {
  success : bool;
  message : msg;
  processed_files : nat;
  renamed_files : nat;
  standardized_tags : nat;
  unpaired_files : nat;
  errors : list error_msg
}.

(** [ProcessResult(success=False, message="")]. *)
Definition new_result : ProcessResult :=
  mkProcessResult false MsgEmpty 0 0 0 0 [].

Definition set_success (r : ProcessResult) (b : bool) : ProcessResult :=
  mkProcessResult b (message r) (processed_files r) (renamed_files r)
                  (standardized_tags r) (unpaired_files r) (errors r).
Definition set_message (r : ProcessResult) (m : msg) : ProcessResult :=
  mkProcessResult (success r) m (processed_files r) (renamed_files r)
                  (standardized_tags r) (unpaired_files r) (errors r).
Definition set_processed_files (r : ProcessResult) (n : nat) : ProcessResult :=
  mkProcessResult (success r) (message r) n (renamed_files r)
                  (standardized_tags r) (unpaired_files r) (errors r).
Definition set_renamed_files (r : ProcessResult) (n : nat) : ProcessResult :=
  mkProcessResult (success r) (message r) (processed_files r) n
                  (standardized_tags r) (unpaired_files r) (errors r).
Definition set_standardized_tags (r : ProcessResult) (n : nat) : ProcessResult :=
  mkProcessResult (success r) (message r) (processed_files r) (renamed_files r)
                  n (unpaired_files r) (errors r).
Definition set_unpaired_files (r : ProcessResult) (n : nat) : ProcessResult :=
  mkProcessResult (success r) (message r) (processed_files r) (renamed_files r)
                  (standardized_tags r) n (errors r).
(** [result.errors.extend(es)]; [append] is the case of one element. *)
Definition extend_errors (r : ProcessResult) (es : list error_msg)
    : ProcessResult :=
  mkProcessResult (success r) (message r) (processed_files r) (renamed_files r)
                  (standardized_tags r) (unpaired_files r) (errors r ++ es).

(** The end of every operation: [if not result.errors: ... else: ...]. *)
Definition conclude (r : ProcessResult) (done_msg errors_msg : ProcessResult → msg)
    : ProcessResult :=
  match errors r with
  | [] => set_message (set_success r true) (done_msg r)
  | _ :: _ => set_message r (errors_msg r)
  end.

(** The outer [except Exception as e] of every operation. *)
Definition fail_with (r : ProcessResult) (e : error_msg) : ProcessResult :=
  set_message (extend_errors r [e]) (MsgFailure e).

(** ** Renamer *)

Definition rename_start_index : nat := 1.

(** [if path:] on an optional string. *)
Definition truthy (path : option str) : option str :=
  match path with
  | Some (c :: s) => Some (c :: s)
  | _ => None
  end.

(** The body of the loop that fills [temp_renames] and [final_renames],
    for one record. *)
Definition renames_of (folder_path : str) (new_index : nat)
    (file_info : FileInfo) : list (str * str) * list (str * str) :=
  let image :=
    match truthy (image_path file_info) with
    | Some old_image_path =>
        let image_ext := (splitext old_image_path).2 in
        let temp_image_name := lit "temp_" ++ str_of_nat new_index ++ image_ext in
        let final_image_name := str_of_nat new_index ++ image_ext in
        let temp_image_path := os_path_join folder_path temp_image_name in
        let final_image_path := os_path_join folder_path final_image_name in
        ([(old_image_path, temp_image_path)],
         [(temp_image_path, final_image_path)])
    | None => ([], [])
    end in
  let text :=
    match truthy (text_path file_info) with
    | Some old_text_path =>
        let temp_text_name := lit "temp_" ++ str_of_nat new_index ++ lit ".txt" in
        let final_text_name := str_of_nat new_index ++ lit ".txt" in
        let temp_text_path := os_path_join folder_path temp_text_name in
        let final_text_path := os_path_join folder_path final_text_name in
        ([(old_text_path, temp_text_path)],
         [(temp_text_path, final_text_path)])
    | None => ([], [])
    end in
  (image.1 ++ text.1, image.2 ++ text.2).

(** [temp_renames] and [final_renames] after the loop over
    [enumerate(file_infos)]. *)
Definition rename_plan (folder_path : str) (start_index : nat)
    (file_infos : list FileInfo) : list (str * str) * list (str * str) :=
  let per_record :=
    imap (λ i file_info, renames_of folder_path (start_index + i) file_info)
         file_infos in
  (concat (fst <$> per_record), concat (snd <$> per_record)).

(** The loop over [temp_renames]. *)
Fixpoint run_temp_renames (temp_renames : list (str * str))
    (result : ProcessResult) : ST ProcessResult :=
  match temp_renames with
  | [] => ret result
  | (old_path, temp_path) :: rest =>
      r <- os_rename old_path temp_path ;;
      run_temp_renames rest
        match r with
        | inr _ => set_renamed_files result (renamed_files result + 1)
        | inl e => extend_errors result [TempRenameFailed old_path temp_path e]
        end
  end.

(** The loop over [final_renames]. *)
Fixpoint run_final_renames (final_renames : list (str * str))
    (result : ProcessResult) : ST ProcessResult :=
  match final_renames with
  | [] => ret result
  | (temp_path, final_path) :: rest =>
      r <- os_rename temp_path final_path ;;
      run_final_renames rest
        match r with
        | inr _ => result
        | inl e => extend_errors result [FinalRenameFailed temp_path final_path e]
        end
  end.

(** [rename_files]; nothing raises outside the two inner [try] blocks, so the
    outer [except] has no case here. *)
Definition rename_files (folder_path : str) (file_infos : list FileInfo)
    : ST ProcessResult :=
  let result := new_result in
  let start_index := rename_start_index in
  let '(temp_renames, final_renames) :=
    rename_plan folder_path start_index file_infos in
  result <- run_temp_renames temp_renames result ;;
  result <- run_final_renames final_renames result ;;
  ret (conclude result (λ r, MsgRenamed (renamed_files r))
                       (λ r, MsgRenameErrors (length (errors r)))).

(** ** File-apply wrappers *)

(** The loop of [standardize_tags]; a record without a caption, or whose
    caption does not exist, is skipped. *)
Fixpoint standardize_loop (file_infos : list FileInfo) (result : ProcessResult)
    : ST ProcessResult :=
  match file_infos with
  | [] => ret result
  | file_info :: rest =>
      match truthy (text_path file_info) with
      | None => standardize_loop rest result
      | Some text_path =>
          e <- os_path_exists text_path ;;
          if negb e then standardize_loop rest result
          else
            r <- (original_content <-! read_text text_path ;;
                  let standardized_content :=
                    auto_standardize_tags original_content in
                  write_text text_path standardized_content) ;;
            standardize_loop rest
              match r with
              | inr _ =>
                  set_standardized_tags result (standardized_tags result + 1)
              | inl e => extend_errors result [StandardizeFileFailed text_path e]
              end
      end
  end.

Definition standardize_tags (folder_path : str) (file_infos : list FileInfo)
    : ST ProcessResult :=
  result <- standardize_loop file_infos new_result ;;
  ret (conclude result (λ r, MsgStandardized (standardized_tags r))
                       (λ r, MsgStandardizeErrors (length (errors r)))).

(** The loop over [txt_files] of [manual_tag_process]. *)
Fixpoint manual_loop (txt_files : list str)
    (remove_tags_set remove_containing_set add_tags_set : pyset)
    (result : ProcessResult) : ST ProcessResult :=
  match txt_files with
  | [] => ret result
  | txt_file :: rest =>
      r <- (original_content <-! read_text txt_file ;;
            let processed_content :=
              clean_and_edit_tags original_content (Some remove_tags_set)
                (Some remove_containing_set) (Some add_tags_set) in
            write_text txt_file processed_content) ;;
      manual_loop rest remove_tags_set remove_containing_set add_tags_set
        match r with
        | inr _ => set_processed_files result (processed_files result + 1)
        | inl e => extend_errors result [TagFileFailed txt_file e]
        end
  end.

(** [set(l) if l else set()], where [set_iter l] is the iteration order of
    the set [set(l)], which Python leaves open. *)
Definition set_or_empty (set_iter : list str → pyset) (l : option (list str))
    : pyset :=
  match l with
  | Some (x :: l') => set_iter (x :: l')
  | _ => []
  end.

Definition manual_tag_process (set_iter : list str → pyset)
    (folder_path : str) (remove_tags remove_containing add_tags : option (list str))
    : ST ProcessResult :=
  let result := new_result in
  let remove_tags_set := set_or_empty set_iter remove_tags in
  let remove_containing_set := set_or_empty set_iter remove_containing in
  let add_tags_set := set_or_empty set_iter add_tags in
  listed <- os_listdir folder_path ;;
  match listed with
  | inl e => ret (fail_with result (ManualTagProcessFailed e))
  | inr names =>
      let txt_files := os_path_join folder_path <$> filter is_text names in
      result <- manual_loop txt_files remove_tags_set remove_containing_set
                            add_tags_set result ;;
      ret (conclude result (λ r, MsgTagsProcessed (processed_files r))
                           (λ r, MsgTagsErrors (length (errors r))))
  end.

(** ** Unpaired handler *)

Definition create_unpaired_folder : bool := true.

(** The [while os.path.exists(dest_path)] loop; [fuel] bounds the number of
    tests.  (With more fuel than the file system has entries the loop ends
    by itself: lemma [free_dest_enough_fuel].) *)
Fixpoint free_dest (fuel : nat) (original_dest dest_path : str) (counter : nat)
    : ST str :=
  match fuel with
  | 0 => ret dest_path
  | S fuel' =>
      e <- os_path_exists dest_path ;;
      if e then
        let '(name, ext) := splitext original_dest in
        free_dest fuel' original_dest
                  (name ++ lit "_" ++ str_of_nat counter ++ ext) (counter + 1)
      else ret dest_path
  end.

(** The body of the inner [try] of [handle_unpaired_files]. *)
Definition move_unpaired (unpaired_folder file_path : str) : M unit :=
  let filename := basename file_path in
  let dest_path := os_path_join unpaired_folder filename in
  m <- get_fs ;;
  dest_path <- free_dest (S (size m)) dest_path dest_path 1 ;;
  shutil_move file_path dest_path.

(** The loop over [unpaired_files]. *)
Fixpoint move_loop (unpaired_folder : str) (files : list str)
    (result : ProcessResult) : ST ProcessResult :=
  match files with
  | [] => ret result
  | file_path :: rest =>
      r <- move_unpaired unpaired_folder file_path ;;
      move_loop unpaired_folder rest
        match r with
        | inr _ => set_unpaired_files result (unpaired_files result + 1)
        | inl e => extend_errors result [MoveUnpairedFailed file_path e]
        end
  end.

(** [handle_unpaired_files]; [files] is the argument [unpaired_files]. *)
Definition handle_unpaired_files (folder_path : str) (files : list str)
    : ST ProcessResult :=
  let result := new_result in
  match files with
  | [] => ret (set_message (set_success result true) MsgNoUnpaired)
  | _ :: _ =>
      if negb create_unpaired_folder then
        ret (set_message (set_success result true) MsgUnpairedDisabled)
      else
        let unpaired_folder := os_path_join folder_path (lit "unpaired") in
        made <- os_makedirs unpaired_folder ;;
        match made with
        | inl e => ret (fail_with result (HandleUnpairedFailed e))
        | inr _ =>
            result <- move_loop unpaired_folder files result ;;
            ret (conclude result (λ r, MsgUnpairedHandled (unpaired_files r))
                                 (λ r, MsgUnpairedErrors (length (errors r))))
        end
  end.

(** ** The automatic pipeline *)

Definition auto_post_process (folder_path : str) : ST ProcessResult :=
  let overall_result := new_result in
  scanned <- scan_and_match_files folder_path ;;
  match scanned with
  | inl e => ret (fail_with overall_result (AutoPostProcessFailed e))
  | inr (file_infos, unpaired) =>
      let overall_result :=
        set_processed_files overall_result (length file_infos) in
      unpaired_result <- handle_unpaired_files folder_path unpaired ;;
      let overall_result :=
        extend_errors
          (set_unpaired_files overall_result (unpaired_files unpaired_result))
          (errors unpaired_result) in
      rename_result <- rename_files folder_path file_infos ;;
      let overall_result :=
        extend_errors
          (set_renamed_files overall_result (renamed_files rename_result))
          (errors rename_result) in
      rescanned <- scan_and_match_files folder_path ;;
      match rescanned with
      | inl e => ret (fail_with overall_result (AutoPostProcessFailed e))
      | inr (updated_file_infos, _) =>
          standardize_result <- standardize_tags folder_path updated_file_infos ;;
          let overall_result :=
            extend_errors
              (set_standardized_tags overall_result
                 (standardized_tags standardize_result))
              (errors standardize_result) in
          ret (conclude overall_result
                 (λ r, MsgAutoDone (processed_files r) (renamed_files r)
                                   (standardized_tags r) (unpaired_files r))
                 (λ r, MsgAutoErrors (length (errors r))))
      end
  end.

(** ** The web routes ([app.py]) *)

Module app.

(** The [message] field of the answers of the two post-processing routes,
    one constructor per message of the source; [ResultMessage] is
    [result.message]. *)
Inductive route_message :=
  | SpecifyFolder
  | NoProcessableFiles
  | ResultMessage (m : msg)
  | ManualTagProcessError (e : exn)
  | AutoStandardizeError (e : exn).

(** The route [/api/manual_tag_process], from the fields of the request to
    the fields [success] and [message] of the answer. *)
Definition manual_tag_process (set_iter : list str → pyset)
    (folder_path_field : str)
    (remove_tags remove_containing add_tags : list str)
    : ST (bool * route_message) :=
  let folder_path := strip folder_path_field in
  if decide (folder_path = []) then ret (false, SpecifyFolder)
  else
    let remove_tags := strip_nonempty remove_tags in
    let remove_containing := strip_nonempty remove_containing in
    let add_tags := strip_nonempty add_tags in
    result <- manual_tag_process set_iter folder_path (Some remove_tags)
                (Some remove_containing) (Some add_tags) ;;
    ret (success result, ResultMessage (message result)).

(** The route [/api/auto_standardize]. *)
Definition auto_standardize (folder_path_field : str)
    : ST (bool * route_message) :=
  let folder_path := strip folder_path_field in
  if decide (folder_path = []) then ret (false, SpecifyFolder)
  else
    scanned <- scan_and_match_files folder_path ;;
    match scanned with
    | inl e => ret (false, AutoStandardizeError e)
    | inr (file_infos, unpaired_files) =>
        match file_infos with
        | [] => ret (false, NoProcessableFiles)
        | _ :: _ =>
            result <- standardize_tags folder_path file_infos ;;
            ret (success result, ResultMessage (message result))
        end
    end.

End app.

(** ** The downloader ([danbooru_downloader.py]) *)

Module danbooru_downloader.

(** The local list [image_extensions] of [_count_downloaded_files]. *)
Definition image_extensions : list str :=
  [lit ".jpg"; lit ".jpeg"; lit ".png"; lit ".gif"; lit ".webp"; lit ".bmp"].

(** [any(file.lower().endswith(ext) for ext in image_extensions)]. *)
Definition is_counted (file : str) : Prop :=
  Exists (λ ext, endswith (lower file) ext = true) image_extensions.

(** [_count_downloaded_files]: the number of entries of the directory with
    the name of an image; 0 when the directory does not exist or cannot be
    listed. *)
Definition _count_downloaded_files (directory : str) : ST nat :=
  e <- os_path_exists directory ;;
  if negb e then ret 0
  else
    listed <- os_listdir directory ;;
    match listed with
    | inl _ => ret 0
    | inr files => ret (length (filter is_counted files))
    end.

End danbooru_downloader.

(** *** Specification predicates for the results *)

(** [succeeded] is true exactly when no error was recorded. *)
Definition success_iff_no_errors (r : ProcessResult) : Prop :=
  success r = true ↔ errors r = [].

(** *** Specification predicates for the traces *)

Definition move_of (c : call) : option (str * str) :=
  match c with
  | Move src dst => Some (src, dst)
  | _ => None
  end.

Definition rename_of (c : call) : option (str * str) :=
  match c with
  | Rename src dst => Some (src, dst)
  | _ => None
  end.

(** A call that moves nothing. *)
Definition quiet (c : call) : Prop :=
  match c with
  | Move _ _ | Rename _ _ => False
  | _ => True
  end.

(** A call that moves nothing but a file of [files], with [shutil.move]. *)
Definition moves_only (files : list str) (c : call) : Prop :=
  match c with
  | Move src _ => src ∈ files
  | Rename _ _ => False
  | _ => True
  end.

(** [w'] comes after [w]: its trace is that of [w] and then calls that all
    satisfy [P]. *)
Definition extends (P : call → Prop) (w w' : world) : Prop :=
  ∃ cs, trace w' = trace w ++ cs ∧ Forall P cs.

(** *** Specification function for the unpaired handler *)

(** The [k]-th destination tried for [original_dest]: the path itself, then
    the path with [_1], [_2], ... before its extension. *)
Definition dest_at (original_dest : str) (k : nat) : str :=
  match k with
  | 0 => original_dest
  | S _ =>
      (splitext original_dest).1 ++ lit "_" ++ str_of_nat k
        ++ (splitext original_dest).2
  end.

(** *** Specification predicates for the file system *)

(** [p] holds a regular file, a directory. *)
Definition is_file (m : gmap str node) (p : str) : bool :=
  match m !! p with
  | Some (File _) => true
  | _ => false
  end.

Definition is_dir (m : gmap str node) (p : str) : bool :=
  match m !! p with
  | Some Dir => true
  | _ => false
  end.

(** [p] holds a regular file whose bytes are a text. *)
Definition is_text_file (m : gmap str node) (p : str) : bool :=
  match m !! p with
  | Some (File (Text _)) => true
  | _ => false
  end.

(** What reading [p] as a text raises when [p] exists and is not a text
    file: a directory cannot be opened, other bytes do not decode. *)
Definition unreadable (m : gmap str node) (p : str) : option exn :=
  match m !! p with
  | Some Dir => Some (OSError IsADirectoryError (ReadText p))
  | Some (File (Binary bytes)) => Some (UnicodeDecodeError bytes)
  | _ => None
  end.

(** *** Specification predicates for the renamer *)

(** [k] is strictly below [x]. *)
Definition strictly_below (x k : str) : Prop := ∃ r, k = x ++ slash :: r.

(** The paths of [l] are leaves: no entry of [m] and no path of [l] is
    strictly below one of them. *)
Definition leaves (l : list str) (m : gmap str node) : Prop :=
  ∀ x k, x ∈ l → strictly_below x k → m !! k = None ∧ k ∉ l.

(** Renames of distinct files to distinct paths that do not exist. *)
Definition fresh_renames (pairs : list (str * str)) (m : gmap str node)
    : Prop :=
  NoDup pairs.*1 ∧ NoDup pairs.*2
  ∧ Forall (λ s, is_file m s = true) pairs.*1
  ∧ Forall (λ d, m !! d = None) pairs.*2
  ∧ leaves (pairs.*1 ++ pairs.*2) m.

(** The plan of the renamer is clear in [m]: the paths to rename are
    distinct files, the temporary names are distinct and not in use, the
    final names are distinct and each is not in use or is one of the paths
    to rename, and nothing lies below any of these paths. *)
Definition clear_plan (plan : list (str * str) * list (str * str))
    (m : gmap str node) : Prop :=
  let olds := plan.1.*1 in
  let temps := plan.1.*2 in
  let finals := plan.2.*2 in
  NoDup olds ∧ NoDup temps ∧ NoDup finals
  ∧ Forall (λ p, is_file m p = true) olds
  ∧ Forall (λ p, m !! p = None) temps
  ∧ Forall (λ p, (m !! p = None ∨ p ∈ olds) ∧ p ∉ temps) finals
  ∧ leaves (olds ++ temps ++ finals) m.

(** [m'] is [m] with every source of [pairs] moved to its destination. *)
Definition moved (pairs : list (str * str)) (m m' : gmap str node) : Prop :=
  (∀ s d, (s, d) ∈ pairs → m' !! d = m !! s)
  ∧ (∀ s, s ∈ pairs.*1 → m' !! s = None)
  ∧ (∀ k, k ∉ pairs.*1 → k ∉ pairs.*2 → m' !! k = m !! k).

(** *** Specification predicates for names and errors *)

(** A decimal digit. *)
Definition is_digit (c : ascii) : Prop := c ∈ lit "0123456789".

(** An error recorded by one of the stages of the pipeline (for one file,
    or for a stage that could not start), not the error of the pipeline as a
    whole. *)
Definition stage_error (e : error_msg) : Prop :=
  match e with
  | AutoPostProcessFailed _ => False
  | _ => True
  end.

(** An extension as [os.path.splitext] gives it: a dot, and then neither a
    dot nor a separator. *)
Definition ext_like (e : str) : Prop :=
  ∃ rest, e = dot :: rest ∧ dot ∉ rest ∧ slash ∉ rest.

(** *** Specification predicates for the unpaired handler *)

(** Below the directory [d] an entry exists only under a child of [d] that
    exists. *)
Definition children_closed (d : str) (m : gmap str node) : Prop :=
  ∀ name r, slash ∉ name → m !! (d ++ slash :: name) = None →
            m !! (d ++ slash :: name ++ slash :: r) = None.

(** *** Specification predicate for the pipeline *)

(** A dataset folder in order.  No two images have the same stem and no
    image's stem is the name of an image; the entries with the name of an
    image or of a caption are regular files; no name starts with [temp_];
    what lies below an entry of the folder lies below a directory; the entry
    [unpaired] is no regular file, and below it an entry exists only under a
    child that exists. *)
Record tidy (folder : str) (m : gmap str node) : Prop := Tidy {
  tidy_stems : stems_distinct (filter is_image (listing m folder));
  tidy_files :
    ∀ n, n ∈ listing m folder → is_image n ∨ is_text n →
         is_file m (os_path_join folder n) = true;
  tidy_temp : ∀ n, n ∈ listing m folder → startswith n (lit "temp_") = false;
  tidy_sub :
    ∀ n r, slash ∉ n →
           is_Some (m !! (os_path_join folder n ++ slash :: r)) →
           is_dir m (os_path_join folder n) = true;
  tidy_unpaired : is_file m (os_path_join folder (lit "unpaired")) = false;
  tidy_closed : children_closed (os_path_join folder (lit "unpaired")) m
}.

(** ** Example folders *)

(** A folder [d] with a sub-folder, and an empty folder [e]. *)
Definition demo_fs : gmap str node :=
  list_to_map [(lit "d", Dir); (lit "d/a.jpg", File (lit "A"));
               (lit "d/temp_1.jpg", File (lit "T")); (lit "d/sub", Dir);
               (lit "d/sub/x.txt", File (lit "X")); (lit "e", Dir)].

(** A dataset folder: [a.png] with both caption forms, [b.JPG] with the
    full-name form, [c.gif] without caption, and a caption without image. *)
Definition pair_fs : gmap str node :=
  list_to_map [(lit "d", Dir); (lit "d/a.png", File (lit "A"));
               (lit "d/a.txt", File (lit "x_y")); (lit "d/a.png.txt", File (lit "z"));
               (lit "d/b.JPG", File (lit "B")); (lit "d/b.JPG.txt", File (lit "bb"));
               (lit "d/c.gif", File (lit "C")); (lit "d/z.txt", File (lit "Z"))].

(** What the scanner returns for it. *)
Definition pair_infos : list FileInfo :=
  [mkFileInfo (Some (lit "d/a.png")) (Some (lit "d/a.txt")) (lit "a") true;
   mkFileInfo (Some (lit "d/b.JPG")) (Some (lit "d/b.JPG.txt")) (lit "b") true;
   mkFileInfo (Some (lit "d/c.gif")) None (lit "c") false].

Definition pair_unpaired : list str := [lit "d/a.png.txt"; lit "d/z.txt"].

(** Two images with the same stem and one caption. *)
Definition shared_fs : gmap str node :=
  list_to_map [(lit "d", Dir); (lit "d/a.jpg", File (lit "J"));
               (lit "d/a.png", File (lit "P")); (lit "d/a.txt", File (lit "t"))].

(** An image next to a file that has a temporary name of the renamer. *)
Definition collide_fs : gmap str node :=
  list_to_map [(lit "d", Dir); (lit "d/a.jpg", File (lit "A"));
               (lit "d/temp_1.jpg", File (lit "T"))].

Definition collide_infos : list FileInfo :=
  [mkFileInfo (Some (lit "d/a.jpg")) None (lit "a") false;
   mkFileInfo (Some (lit "d/temp_1.jpg")) None (lit "temp_1") false].

(** A dataset folder where every caption has its image. *)
Definition clean_fs : gmap str node :=
  list_to_map [(lit "d", Dir); (lit "d/a.png", File (lit "A"));
               (lit "d/a.txt", File (lit "x_y"));
               (lit "d/b.JPG", File (lit "B")); (lit "d/b.JPG.txt", File (lit "bb"));
               (lit "d/c.gif", File (lit "C")); (lit "d/notes.md", File (lit "N"))].

Definition clean_infos : list FileInfo :=
  [mkFileInfo (Some (lit "d/a.png")) (Some (lit "d/a.txt")) (lit "a") true;
   mkFileInfo (Some (lit "d/b.JPG")) (Some (lit "d/b.JPG.txt")) (lit "b") true;
   mkFileInfo (Some (lit "d/c.gif")) None (lit "c") false].

(** A dataset folder with a caption written with carriage returns and a
    caption that is not UTF-8; the images are not UTF-8 either. *)
Definition mixed_fs : gmap str node :=
  list_to_map
    [(lit "d", Dir);
     (lit "d/a.png", File (Binary (ascii_of_nat 137 :: lit "PNG")));
     (lit "d/a.txt",
      File (Text (lit "x_y" ++ [cr; newline] ++ lit "z" ++ [cr] ++ lit "w")));
     (lit "d/b.png", File (Binary (ascii_of_nat 137 :: lit "PNG")));
     (lit "d/b.txt", File (Binary [ascii_of_nat 255; ascii_of_nat 254]))].

Definition mixed_infos : list FileInfo :=
  [mkFileInfo (Some (lit "d/a.png")) (Some (lit "d/a.txt")) (lit "a") true;
   mkFileInfo (Some (lit "d/b.png")) (Some (lit "d/b.txt")) (lit "b") true].

(** * Properties *)

(** Closes a decidable goal by evaluation. *)
Ltac by_compute :=
  match goal with
  | |- ?P => apply (bool_decide_unpack P); vm_compute; exact I
  end.

(** ** Examples of the specification *)

Example auto_standardize_tags_examples :
  auto_standardize_tags [] = []
  ∧ auto_standardize_tags (lit "a_b-c") = lit "a b c"
  ∧ auto_standardize_tags (lit "1girl" ++ [newline] ++ lit "(smiling)")
    = lit "1girl, \(smiling\)"
  ∧ auto_standardize_tags (lit " x ,, x_, \(y) ") = lit "x, \(y\)".
Proof. vm_compute. repeat split. Qed.

Example clean_and_edit_tags_examples :
  clean_and_edit_tags (lit "a, b, c") (Some [lit "b"]) None (Some [lit "d"])
  = lit "a, c, d"
  ∧ clean_and_edit_tags [] None None (Some [lit "x"]) = []
  ∧ clean_and_edit_tags (lit "red hair, blue") None (Some [lit "hair"]) None
    = lit "blue".
Proof. vm_compute. repeat split. Qed.

Example path_examples :
  splitext (lit "a.png") = (lit "a", lit ".png")
  ∧ splitext (lit ".png") = (lit ".png", [])
  ∧ splitext (lit "a.b/c") = (lit "a.b/c", [])
  ∧ splitext (lit "d/..a.tar.txt") = (lit "d/..a.tar", lit ".txt")
  ∧ splitext (lit "d.x/...") = (lit "d.x/...", [])
  ∧ splitext (lit "a.") = (lit "a", lit ".")
  ∧ basename (lit "d/e/a.txt") = lit "a.txt"
  ∧ basename (lit "a.txt") = lit "a.txt"
  ∧ os_path_join (lit "d") (lit "a") = lit "d/a"
  ∧ os_path_join (lit "d/") (lit "a") = lit "d/a"
  ∧ os_path_join [] (lit "a") = lit "a"
  ∧ os_path_join (lit "d") (lit "/a") = lit "/a"
  ∧ os_path_join (lit "d") [] = lit "d/"
  ∧ str_of_nat 0 = lit "0" ∧ str_of_nat 120 = lit "120"
  ∧ lower (lit "A.Png") = lit "a.png".
Proof. vm_compute. repeat split. Qed.

Example string_examples :
  escape lparen (lit "(a\(b((c\\(") = lit "\(a\(b\(\(c\\("
  ∧ split comma (lit "a,b,,") = [lit "a"; lit "b"; []; []]
  ∧ split comma [] = [[]]
  ∧ join (lit ", ") [] = []
  ∧ strip (" "%char :: "028"%char :: lit " x " ++ ["133"%char; "160"%char])
    = lit "x"
  ∧ sorted [lit "b.JPG"; lit "a.png"; lit "B.x"; lit "a.PNG"; lit "a"]
    = [lit "B.x"; lit "a"; lit "a.PNG"; lit "a.png"; lit "b.JPG"]
  ∧ splitext (lit "d/.txt") = (lit "d/.txt", [])
  ∧ splitext (lit "..png") = (lit "..png", [])
  ∧ basename (lit "d/") = [].
Proof. vm_compute. repeat split. Qed.

Example read_examples :
  universal_newlines (lit "a" ++ [cr; newline] ++ lit "b" ++ [cr] ++ lit "c"
                        ++ [newline; cr; cr; newline])
  = lit "a" ++ [newline] ++ lit "b" ++ [newline] ++ lit "c"
      ++ [newline; newline; newline]
  ∧ (read_text (lit "d/a.txt") (World mixed_fs [])).1
    = inr (lit "x_y" ++ [newline] ++ lit "z" ++ [newline] ++ lit "w")
  ∧ (read_text (lit "d/b.txt") (World mixed_fs [])).1
    = inl (UnicodeDecodeError [ascii_of_nat 255; ascii_of_nat 254])
  ∧ fs (write_text (lit "d/b.txt") (lit "t") (World mixed_fs [])).2
      !! lit "d/b.txt" = Some (File (Text (lit "t")))
  ∧ utf8_encode (lit "a" ++ [ascii_of_nat 160; ascii_of_nat 233])
    = lit "a" ++ [ascii_of_nat 194; ascii_of_nat 160;
                  ascii_of_nat 195; ascii_of_nat 169]
  ∧ utf8_wellformed [ascii_of_nat 255; ascii_of_nat 254] = false
  ∧ utf8_wellformed (ascii_of_nat 137 :: lit "PNG") = false
  ∧ utf8_wellformed [ascii_of_nat 192; ascii_of_nat 128] = false
  ∧ utf8_wellformed [ascii_of_nat 237; ascii_of_nat 160; ascii_of_nat 128]
    = false
  ∧ utf8_wellformed [ascii_of_nat 226; ascii_of_nat 130; ascii_of_nat 172]
    = true
  ∧ utf8_wellformed [ascii_of_nat 240; ascii_of_nat 159; ascii_of_nat 152;
                     ascii_of_nat 128] = true.
Proof. vm_compute. repeat split. Qed.

(** The encoding of a text decodes: a text and bytes that do not decode are
    never the same bytes. *)
Lemma utf8_encode_wellformed (s : str) : utf8_wellformed (utf8_encode s) = true.
Proof.
  induction s as [|c s IH]; [done|].
  change (utf8_encode (c :: s))
    with ((let n := nat_of_ascii c in
           if n <? 128 then [c]
           else [ascii_of_nat (192 + n / 64); ascii_of_nat (128 + n mod 64)])
          ++ utf8_encode s).
  revert IH. generalize (utf8_encode s). intros l IH.
  destruct c as [[] [] [] [] [] [] [] []]; exact IH.
Qed.

Lemma bytes_of_Binary (c : content) :
  utf8_wellformed (bytes_of c) = false → ∃ bytes, c = Binary bytes.
Proof.
  destruct c as [s|b]; [|by exists b].
  simpl. by rewrite utf8_encode_wellformed.
Qed.

Example rename_examples :
  listing demo_fs (lit "d") = [lit "a.jpg"; lit "temp_1.jpg"; lit "sub"]
  ∧ (os_rename (lit "d/sub") (lit "e/s2") (World demo_fs [])).1 = inr ()
  ∧ fs (os_rename (lit "d/sub") (lit "e/s2") (World demo_fs [])).2
      !! lit "e/s2/x.txt" = Some (File (lit "X"))
  ∧ fs (os_rename (lit "d/sub") (lit "e/s2") (World demo_fs [])).2
      !! lit "d/sub/x.txt" = None
  ∧ fs (os_rename (lit "d/a.jpg") (lit "d/temp_1.jpg") (World demo_fs [])).2
      !! lit "d/temp_1.jpg" = Some (File (lit "A")).
Proof. vm_compute. repeat split. Qed.

Example scan_example :
  (scan_and_match_files (lit "d") (World pair_fs [])).1
  = inr (pair_infos, pair_unpaired).
Proof. vm_compute. reflexivity. Qed.

(** A file moved to [unpaired/] next to a file of the same name gets [_1]
    before its extension. *)
Example handle_unpaired_files_example :
  let w := World (<[lit "d/unpaired" := Dir]>
                    (<[lit "d/unpaired/z.txt" := File (lit "old")]> pair_fs)) [] in
  let r := handle_unpaired_files (lit "d") [lit "d/z.txt"] w in
  success r.1 = true
  ∧ fs r.2 !! lit "d/unpaired/z.txt" = Some (File (lit "old"))
  ∧ fs r.2 !! lit "d/unpaired/z_1.txt" = Some (File (lit "Z"))
  ∧ fs r.2 !! lit "d/z.txt" = None.
Proof. vm_compute. repeat split. Qed.

(** The whole pipeline on the example folder. *)
Example auto_post_process_example :
  let r := auto_post_process (lit "d") (World pair_fs []) in
  r.1 = mkProcessResult true (MsgAutoDone 3 5 2 2) 3 5 2 2 []
  ∧ fs r.2 !! lit "d/1.png" = Some (File (lit "A"))
  ∧ fs r.2 !! lit "d/1.txt" = Some (File (lit "x y"))
  ∧ fs r.2 !! lit "d/2.JPG" = Some (File (lit "B"))
  ∧ fs r.2 !! lit "d/2.txt" = Some (File (lit "bb"))
  ∧ fs r.2 !! lit "d/3.gif" = Some (File (lit "C"))
  ∧ fs r.2 !! lit "d/unpaired/a.png.txt" = Some (File (lit "z"))
  ∧ fs r.2 !! lit "d/unpaired/z.txt" = Some (File (lit "Z")).
Proof. vm_compute. repeat split. Qed.


(** ** Characters *)

Lemma isspace_special c :
  isspace c = true →
  c ≠ comma ∧ c ≠ backslash ∧ c ≠ lparen ∧ c ≠ rparen ∧ c ≠ slash ∧ c ≠ dot.
Proof. intros H; repeat split; intros ->; discriminate H. Qed.

(** ** [lstrip], [rstrip], [strip] *)

Lemma lstrip_decomp s :
  ∃ a, s = a ++ lstrip s ∧ Forall (λ c, isspace c = true) a.
Proof.
  induction s as [|c s [a [E F]]]; simpl.
  - by exists [].
  - destruct (isspace c) eqn:Hc.
    + exists (c :: a). split; [by rewrite <- app_comm_cons, <- E | by constructor].
    + by exists [].
Qed.

Lemma lstrip_head s c s' : lstrip s = c :: s' → isspace c = false.
Proof.
  induction s as [|x s IH]; simpl; [done|].
  destruct (isspace x) eqn:Hx; [done|]. by intros [= -> _].
Qed.

Lemma lstrip_fixed s :
  (∀ c s', s = c :: s' → isspace c = false) → lstrip s = s.
Proof.
  destruct s as [|c s]; [done|]. intros H. simpl. by rewrite (H c s).
Qed.

Lemma lstrip_idemp s : lstrip (lstrip s) = lstrip s.
Proof. apply lstrip_fixed. intros c s'. apply lstrip_head. Qed.

Lemma lstrip_spaces a s :
  Forall (λ c, isspace c = true) a → lstrip (a ++ s) = lstrip s.
Proof. induction 1 as [|c a Hc _ IH]; simpl; [done|]. by rewrite Hc. Qed.

Lemma rstrip_decomp s :
  ∃ b, s = rstrip s ++ b ∧ Forall (λ c, isspace c = true) b.
Proof.
  destruct (lstrip_decomp (reverse s)) as [a [E F]].
  exists (reverse a). split.
  - unfold rstrip. rewrite <- reverse_app, <- E. by rewrite reverse_involutive.
  - by apply Forall_reverse.
Qed.

Lemma strip_decomp s :
  ∃ a b, s = a ++ strip s ++ b
         ∧ Forall (λ c, isspace c = true) a ∧ Forall (λ c, isspace c = true) b.
Proof.
  destruct (lstrip_decomp s) as [a [E F]].
  destruct (rstrip_decomp (lstrip s)) as [b [E' F']].
  exists a, b. split; [|done]. unfold strip. by rewrite <- E', <- E.
Qed.

Lemma strip_elem c s : c ∈ strip s → c ∈ s.
Proof.
  destruct (strip_decomp s) as (a & b & E & _). intros H.
  rewrite E. set_solver.
Qed.

(** A string is stripped when neither end is a whitespace character. *)
Lemma strip_fixed s :
  lstrip s = s → lstrip (reverse s) = reverse s → strip s = s.
Proof.
  intros H1 H2. unfold strip, rstrip. rewrite H1, H2.
  apply reverse_involutive.
Qed.

Lemma rstrip_lstrip_fixed s : lstrip s = s → lstrip (rstrip s) = rstrip s.
Proof.
  intros H. apply lstrip_fixed. intros c s' E.
  destruct (rstrip_decomp s) as [b [Eb _]].
  rewrite E in Eb. simpl in Eb.
  apply (lstrip_head s c (s' ++ b)). by rewrite H.
Qed.

Lemma strip_stripped s :
  lstrip (strip s) = strip s ∧ lstrip (reverse (strip s)) = reverse (strip s).
Proof.
  split.
  - apply rstrip_lstrip_fixed, lstrip_idemp.
  - unfold strip, rstrip. rewrite reverse_involutive. apply lstrip_idemp.
Qed.

Lemma strip_idemp s : strip (strip s) = strip s.
Proof. destruct (strip_stripped s). by apply strip_fixed. Qed.

Lemma strip_spaces_l a s :
  Forall (λ c, isspace c = true) a → strip (a ++ s) = strip s.
Proof. intros H. unfold strip. by rewrite lstrip_spaces. Qed.

Lemma strip_nil_iff s : strip s = [] ↔ Forall (λ c, isspace c = true) s.
Proof.
  split.
  - intros H. destruct (strip_decomp s) as (a & b & E & Fa & Fb).
    rewrite E, H. simpl. by apply Forall_app.
  - intros H. rewrite <- (app_nil_r s), strip_spaces_l; done.
Qed.

(** ** [split] and [join] *)

Lemma split_cons_inv sep s : ∃ w ws, split sep s = w :: ws.
Proof.
  destruct s as [|c s]; simpl; [by eexists _, _|].
  destruct (decide (c = sep)); [by eexists _, _|].
  destruct (split sep s); by eexists _, _.
Qed.

Lemma split_no_sep sep s w : w ∈ split sep s → sep ∉ w.
Proof.
  revert w. induction s as [|c s IH]; simpl; intros w Hw.
  - apply list_elem_of_singleton in Hw as ->. set_solver.
  - destruct (decide (c = sep)) as [->|Hc].
    + apply elem_of_cons in Hw as [->|Hw]; [set_solver | by apply IH].
    + destruct (split sep s) as [|w0 ws] eqn:E.
      * apply list_elem_of_singleton in Hw as ->.
        intros H. apply list_elem_of_singleton in H. done.
      * apply elem_of_cons in Hw as [->|Hw].
        -- intros H. apply elem_of_cons in H as [E'|H]; [done|].
           apply (IH w0); [left | done].
        -- apply IH. by right.
Qed.

Lemma split_elem sep s w c : w ∈ split sep s → c ∈ w → c ∈ s.
Proof.
  revert w. induction s as [|x s IH]; simpl; intros w Hw Hc.
  - apply list_elem_of_singleton in Hw as ->. done.
  - destruct (decide (x = sep)) as [->|Hx].
    + apply elem_of_cons in Hw as [->|Hw]; [set_solver|]. right. eauto.
    + destruct (split sep s) as [|w0 ws] eqn:E.
      * apply list_elem_of_singleton in Hw as ->.
        apply list_elem_of_singleton in Hc as ->. left.
      * apply elem_of_cons in Hw as [->|Hw].
        -- apply elem_of_cons in Hc as [E'|Hc]; [subst; left | right].
           apply (IH w0); [left | done].
        -- right. apply (IH w); [by right | done].
Qed.

Lemma split_nosep sep s : sep ∉ s → split sep s = [s].
Proof.
  induction s as [|c s IH]; simpl; [done|]. intros H.
  rewrite decide_False by set_solver. rewrite IH by set_solver. done.
Qed.

Lemma split_app_sep sep a b :
  sep ∉ a → split sep (a ++ sep :: b) = a :: split sep b.
Proof.
  induction a as [|c a IH]; simpl; intros H.
  - by rewrite decide_True.
  - rewrite decide_False by set_solver. rewrite IH by set_solver. done.
Qed.

Lemma join_cons2 sep x y l : join sep (x :: y :: l) = x ++ sep ++ join sep (y :: l).
Proof. done. Qed.

Lemma join_elem sep l c :
  c ∈ join sep l → c ∈ sep ∨ ∃ x, x ∈ l ∧ c ∈ x.
Proof.
  induction l as [|x l IH]; [by intros ?%elem_of_nil|].
  destruct l as [|y l].
  - simpl. intros H. right. exists x. split; [left | done].
  - rewrite join_cons2. rewrite !elem_of_app. intros [H|[H|H]].
    + right. exists x. split; [left | done].
    + by left.
    + destruct (IH H) as [?|(z & Hz & Hc)]; [by left|].
      right. exists z. split; [by right | done].
Qed.

Lemma split_cons_ne sep c s :
  c ≠ sep →
  split sep (c :: s)
  = match split sep s with [] => [[c]] | w :: ws => (c :: w) :: ws end.
Proof. intros H. simpl. by rewrite decide_False. Qed.

(** Splitting a comma-space join of comma-free tags gives the tags back,
    each but the first with the space of the separator in front. *)
Lemma split_join_comma x l :
  Forall (λ t, comma ∉ t) (x :: l) →
  split comma (join (lit ", ") (x :: l)) = x :: ((space ::.) <$> l).
Proof.
  revert x. induction l as [|y l IH]; intros x H.
  - simpl. apply split_nosep. by inversion H.
  - rewrite join_cons2. inversion H as [|? ? Hx Hl]; subst.
    change (x ++ lit ", " ++ join (lit ", ") (y :: l))
      with (x ++ comma :: space :: join (lit ", ") (y :: l)).
    rewrite split_app_sep by done.
    rewrite split_cons_ne by done. by rewrite (IH y Hl).
Qed.

(** ** [str_replace] *)

Lemma str_replace_gone old new s : new ≠ old → old ∉ str_replace old new s.
Proof.
  intros Hne [c [E Hc]]%list_elem_of_fmap.
  destruct (decide (c = old)); congruence.
Qed.

Lemma str_replace_elem old new s c :
  c ∈ str_replace old new s → c = new ∨ c ∈ s.
Proof.
  intros [x [-> Hx]]%list_elem_of_fmap.
  destruct (decide (x = old)); [by left | by right].
Qed.

Lemma str_replace_absent old new s : old ∉ s → str_replace old new s = s.
Proof.
  induction s as [|c s IH]; intros H; [done|].
  unfold str_replace in *. simpl.
  rewrite decide_False by (intros ->; apply H; left).
  f_equal. apply IH. intros H'. apply H. by right.
Qed.

(** ** Escaping of parentheses *)

Lemma re_sub_unescaped_escaped p prev s :
  p ≠ backslash → all_escaped p prev (re_sub_unescaped p prev s).
Proof.
  intros Hp. revert prev. induction s as [|c s IH]; intros prev; simpl; [done|].
  destruct (decide (c = p ∧ prev ≠ Some backslash)) as [[-> Hprev]|Hn]; simpl.
  - split; [by intros E; rewrite E in Hp|]. split; [done | apply IH].
  - split; [|apply IH]. intros ->.
    destruct (decide (prev = Some backslash)); [done|]. by destruct Hn.
Qed.

Lemma re_sub_unescaped_fixed p prev s :
  all_escaped p prev s → re_sub_unescaped p prev s = s.
Proof.
  revert prev. induction s as [|c s IH]; intros prev; simpl; [done|].
  intros [Hc Hs]. rewrite decide_False by (intros [E Hn]; auto).
  simpl. by rewrite IH.
Qed.

(** Escaping one character keeps another one escaped. *)
Lemma re_sub_unescaped_keeps q p prev s :
  p ≠ backslash →
  all_escaped p prev s → all_escaped p prev (re_sub_unescaped q prev s).
Proof.
  intros Hp. revert prev. induction s as [|c s IH]; intros prev; simpl; [done|].
  intros [Hc Hs].
  destruct (decide (c = q ∧ prev ≠ Some backslash)); simpl.
  - split; [by intros E; rewrite E in Hp|]. split; [done | by apply IH].
  - split; [done | by apply IH].
Qed.

Lemma re_sub_unescaped_elem p prev s c :
  c ∈ re_sub_unescaped p prev s → c = backslash ∨ c ∈ s.
Proof.
  revert prev. induction s as [|x s IH]; intros prev; simpl.
  - by intros ?%elem_of_nil.
  - intros [H|H]%elem_of_app.
    + destruct (decide (x = p ∧ prev ≠ Some backslash)).
      * apply elem_of_cons in H as [->|H]; [by left|].
        apply list_elem_of_singleton in H as ->. right; left.
      * apply list_elem_of_singleton in H as ->. right; left.
    + destruct (IH _ H); [by left | right; by right].
Qed.

Lemma all_escaped_prev p prev prev' s :
  (prev = Some backslash → prev' = Some backslash) →
  all_escaped p prev s → all_escaped p prev' s.
Proof. destruct s as [|c s]; simpl; [done|]. intros H [Hc Hs]. split; auto. Qed.

Lemma all_escaped_app_l p prev a s :
  all_escaped p prev (a ++ s) → all_escaped p prev a.
Proof.
  revert prev. induction a as [|c a IH]; intros prev; simpl; [done|].
  intros [Hc Hs]. split; eauto.
Qed.

Lemma all_escaped_spaces p prev a s :
  Forall (λ c, isspace c = true) a →
  all_escaped p prev (a ++ s) →
  a = [] ∨ all_escaped p None s.
Proof.
  intros Ha. revert prev. induction Ha as [|c a Hc Ha IH]; intros prev; [by left|].
  simpl. intros [_ Hs]. right. destruct (IH _ Hs) as [->|H]; [|done].
  simpl in Hs. apply (all_escaped_prev p (Some c)); [|done].
  intros [= ->]. discriminate Hc.
Qed.

Lemma all_escaped_strip p s :
  all_escaped p None s → all_escaped p None (strip s).
Proof.
  intros H. destruct (strip_decomp s) as (a & b & E & Fa & _).
  rewrite E in H. destruct (all_escaped_spaces _ _ _ _ Fa H) as [->|H'].
  - simpl in H. by apply all_escaped_app_l in H.
  - by apply all_escaped_app_l in H'.
Qed.

(** ** Deduplication *)

Lemma unique_from_elem seen tags t :
  t ∈ unique_from seen tags ↔ t ∈ tags ∧ t ∉ seen.
Proof.
  revert seen. induction tags as [|x tags IH]; intros seen; simpl.
  - split; [by intros ?%elem_of_nil | by intros [?%elem_of_nil _]].
  - destruct (decide (x ∈ seen)) as [Hx|Hx].
    + rewrite IH, elem_of_cons. split; [naive_solver|].
      intros [[->|H] Hn]; [done | by split].
    + rewrite !elem_of_cons, IH. split.
      * intros [->|[H Hn]]; [by split; [left|] | split; [by right | set_solver]].
      * intros [[->|H] Hn]; [by left|].
        destruct (decide (t = x)) as [->|Hne]; [by left | right].
        split; [done | set_solver].
Qed.

Lemma unique_from_NoDup seen tags : NoDup (unique_from seen tags).
Proof.
  revert seen. induction tags as [|x tags IH]; intros seen; simpl.
  - constructor.
  - destruct (decide (x ∈ seen)); [apply IH|]. constructor; [|apply IH].
    rewrite unique_from_elem. set_solver.
Qed.

Lemma unique_from_fixed seen tags :
  NoDup tags → (∀ t, t ∈ tags → t ∉ seen) → unique_from seen tags = tags.
Proof.
  intros Hnd. revert seen. induction Hnd as [|x tags Hx Hnd IH]; intros seen H.
  - done.
  - simpl. rewrite decide_False by (apply H; left). f_equal. apply IH.
    intros t Ht. specialize (H t (list_elem_of_further _ _ _ Ht)).
    set_solver.
Qed.

Lemma unique_fixed tags : NoDup tags → unique tags = tags.
Proof. intros H. apply unique_from_fixed; [done | set_solver]. Qed.

Lemma strip_nonempty_elem l t :
  t ∈ strip_nonempty l ↔ ∃ x, x ∈ l ∧ t = strip x ∧ t ≠ [].
Proof.
  unfold strip_nonempty. rewrite list_elem_of_fmap. split.
  - intros (x & -> & Hx). apply list_elem_of_filter in Hx as [Hne Hx]. eauto.
  - intros (x & Hx & -> & Hne). exists x. split; [done|].
    by apply list_elem_of_filter.
Qed.

Lemma strip_nonempty_fixed l :
  Forall (λ t, strip t = t ∧ t ≠ []) l → strip_nonempty l = l.
Proof.
  unfold strip_nonempty. induction 1 as [|t l [Hs Hne] _ IH]; [done|].
  rewrite filter_cons_True by (by rewrite Hs). rewrite fmap_cons.
  by rewrite Hs, IH.
Qed.

(** ** Auto-standardize: the result is canonical, canonical text is fixed *)

Lemma tags_of_line_elem line t :
  t ∈ tags_of_line line →
  t ≠ [] ∧ comma ∉ t ∧ ∀ c, c ∈ t → c ∈ line.
Proof.
  unfold tags_of_line. destruct (decide (comma ∈ line)) as [Hc|Hc].
  - intros (w & Hw & -> & Hne)%strip_nonempty_elem. split; [done|]. split.
    + intros H%strip_elem. by apply (split_no_sep comma line w).
    + intros c H%strip_elem. by apply (split_elem comma line w).
  - destruct (decide (strip line ≠ [])) as [Hne|]; [|by intros ?%elem_of_nil].
    intros ->%list_elem_of_singleton. split; [done|]. split.
    + by intros H%strip_elem.
    + intros c. apply strip_elem.
Qed.

Lemma escape_absent p c s : c ≠ backslash → c ∉ s → c ∉ escape p s.
Proof.
  intros Hc Hs H. apply re_sub_unescaped_elem in H as [->|H]; done.
Qed.

Lemma replace_absent old c s :
  c ≠ space → c ∉ s → c ∉ str_replace old space s.
Proof. intros Hc Hs H. apply str_replace_elem in H as [->|H]; done. Qed.

(** What one tag goes through between splitting and deduplication. *)
Lemma processed_tag_canonical tag :
  comma ∉ tag → newline ∉ tag →
  let p := escape rparen (escape lparen
             (str_replace hyphen space (str_replace underscore space tag))) in
  strip p ≠ [] → canonical_tag (strip p).
Proof.
  intros Hc Hn p Hne. subst p.
  set (r := str_replace hyphen space (str_replace underscore space tag)) in *.
  assert (Hr : ∀ c, c ≠ space → c ∉ tag → c ∉ r).
  { intros c ? ?. unfold r. by repeat (apply replace_absent; [done|]). }
  assert (Hus : underscore ∉ r).
  { unfold r. apply replace_absent; [done|]. by apply str_replace_gone. }
  assert (Hhy : hyphen ∉ r) by (by apply str_replace_gone).
  assert (He : ∀ c, c ≠ backslash → c ∉ r →
                    c ∉ strip (escape rparen (escape lparen r))).
  { intros c ? ? H%strip_elem. revert H.
    by repeat (apply escape_absent; [done|]). }
  constructor; try (apply He; [done|]; first [done | by apply Hr]).
  - done.
  - apply strip_idemp.
  - apply all_escaped_strip. unfold escape.
    apply re_sub_unescaped_keeps; [done|].
    by apply re_sub_unescaped_escaped.
  - apply all_escaped_strip. by apply re_sub_unescaped_escaped.
Qed.

(** Every output is a comma-space join of distinct canonical tags. *)
Lemma auto_standardize_tags_canonical x :
  ∃ U, auto_standardize_tags x = join (lit ", ") U
       ∧ Forall canonical_tag U ∧ NoDup U.
Proof.
  unfold auto_standardize_tags.
  destruct (decide (x = [] ∨ strip x = [])) as [|Hx].
  { exists []. by repeat split; constructor. }
  eexists. split; [reflexivity|]. split; [|apply unique_from_NoDup].
  apply Forall_forall. intros t [Ht _]%unique_from_elem.
  apply strip_nonempty_elem in Ht as (p & Hp & -> & Hne).
  apply list_elem_of_fmap in Hp as (r & -> & Hr).
  apply list_elem_of_fmap in Hr as (tag & -> & Htag).
  apply list_elem_of_bind in Htag as (line & Htag & Hline).
  apply tags_of_line_elem in Htag as (_ & Hcomma & Hsub).
  apply processed_tag_canonical; [done| |done].
  intros H%Hsub. by apply (split_no_sep newline x line).
Qed.

Lemma canonical_tag_head t : canonical_tag t → ∃ c s, t = c :: s ∧ isspace c = false.
Proof.
  intros [Hne Hs _ _ _ _ _ _]. destruct t as [|c s]; [done|].
  exists c, s. split; [done|].
  destruct (strip_stripped (c :: s)) as [H _]. rewrite Hs in H.
  simpl in H. destruct (isspace c) eqn:E; [|done].
  destruct (lstrip_decomp s) as (a & Ea & _). rewrite H in Ea.
  apply (f_equal length) in Ea. rewrite length_app in Ea. simpl in Ea. lia.
Qed.

Lemma join_canonical_elem U c :
  Forall canonical_tag U → c ∈ join (lit ", ") U →
  c = comma ∨ c = space ∨ ∃ t, t ∈ U ∧ c ∈ t.
Proof.
  intros _ [H|H]%join_elem; [|by right; right].
  apply elem_of_cons in H as [->|H]; [by left|].
  apply list_elem_of_singleton in H as ->. by right; left.
Qed.

Lemma strip_join_nonempty t U :
  canonical_tag t → strip (join (lit ", ") (t :: U)) ≠ [].
Proof.
  intros (c & s & -> & Hc)%canonical_tag_head.
  rewrite strip_nil_iff. destruct U; simpl; intros H;
    apply Forall_cons in H as [H _]; congruence.
Qed.

(** The tags read back from a canonical text are the tags it was joined
    from. *)
Lemma tags_of_canonical_line U :
  Forall canonical_tag U → U ≠ [] →
  tags_of_line (join (lit ", ") U) = U.
Proof.
  intros HU Hne. destruct U as [|t U]; [done|]. unfold tags_of_line.
  assert (Hfix : ∀ l, Forall canonical_tag l →
                      strip_nonempty l = l).
  { intros l Hl. apply strip_nonempty_fixed.
    eapply Forall_impl; [exact Hl|]. by intros ? []. }
  destruct U as [|t' U].
  - simpl. apply Forall_inv in HU as Ht.
    rewrite decide_False by apply Ht.
    rewrite (canon_stripped _ Ht).
    rewrite decide_True by apply Ht. done.
  - rewrite decide_True.
    2:{ rewrite join_cons2. rewrite !elem_of_app. right; left. left. }
    rewrite split_join_comma.
    2:{ eapply Forall_impl; [exact HU|]. by intros ? []. }
    apply Forall_cons in HU as [Ht HU].
    unfold strip_nonempty.
    rewrite filter_cons_True by (rewrite (canon_stripped _ Ht); apply Ht).
    rewrite fmap_cons, (canon_stripped _ Ht). f_equal.
    induction HU as [|u l Hu _ IH]; [done|].
    assert (E : strip (space :: u) = u).
    { change (space :: u) with ([space] ++ u).
      rewrite strip_spaces_l by (by repeat constructor). apply Hu. }
    rewrite fmap_cons, filter_cons_True by (rewrite E; apply Hu).
    rewrite fmap_cons, E. by rewrite IH.
Qed.

Lemma canonical_text_fixed U :
  Forall canonical_tag U → NoDup U →
  auto_standardize_tags (join (lit ", ") U) = join (lit ", ") U.
Proof.
  intros HU Hnd. unfold auto_standardize_tags.
  destruct U as [|t U]; [done|].
  apply Forall_inv in HU as Ht.
  rewrite decide_False.
  2:{ intros [H|H]; [|by apply (strip_join_nonempty t U)].
      apply (strip_join_nonempty t U Ht). by rewrite H. }
  rewrite split_nosep.
  2:{ intros [H|[H|(u & Hu & H)]]%(join_canonical_elem _ _ HU); [done..|].
      rewrite Forall_forall in HU. by apply (canon_newline _ (HU u Hu)). }
  rewrite bind_singleton, tags_of_canonical_line by done.
  f_equal.
  rewrite <- (unique_fixed (t :: U)) at 2 by done. f_equal.
  assert (E1 : (λ tag, str_replace hyphen space (str_replace underscore space tag))
                 <$> (t :: U) = t :: U).
  { rewrite <- (list_fmap_id (t :: U)) at 2.
    apply Forall_fmap_ext_1. eapply Forall_impl; [exact HU|].
    intros u Hu. simpl.
    rewrite (str_replace_absent underscore) by apply Hu.
    by rewrite str_replace_absent by apply Hu. }
  rewrite E1.
  assert (E2 : (λ tag, escape rparen (escape lparen tag)) <$> (t :: U) = t :: U).
  { rewrite <- (list_fmap_id (t :: U)) at 2.
    apply Forall_fmap_ext_1. eapply Forall_impl; [exact HU|].
    intros u Hu. simpl. unfold escape.
    rewrite (re_sub_unescaped_fixed lparen) by apply Hu.
    by rewrite re_sub_unescaped_fixed by apply Hu. }
  rewrite E2.
  apply strip_nonempty_fixed. eapply Forall_impl; [exact HU|]. by intros ? [].
Qed.

(** C1. Auto-standardize is idempotent: on every input text, applying
    [auto_standardize_tags] to its own result changes nothing; parentheses
    that already have a backslash in front are not escaped again. *)
Theorem auto_standardize_tags_idempotent (x : str) :
  auto_standardize_tags (auto_standardize_tags x) = auto_standardize_tags x.
Proof.
  destruct (auto_standardize_tags_canonical x) as (U & -> & HU & Hnd).
  by apply canonical_text_fixed.
Qed.

(** ** Clean-and-edit *)

Lemma add_new_tags_filter tags add_tags :
  add_new_tags tags add_tags = tags ++ filter (λ t, t ∉ tags) add_tags.
Proof.
  unfold add_new_tags. destruct add_tags as [|a add_tags]; [by rewrite app_nil_r|].
  generalize (a :: add_tags). intros l.
  cut (∀ acc, foldl (λ tags0 new_tag,
                       if decide (new_tag ∈ (list_to_set tags : gset str))
                       then tags0 else tags0 ++ [new_tag]) acc l
              = acc ++ filter (λ t, t ∉ tags) l); [by intros ->|].
  induction l as [|x l IH]; intros acc; simpl; [by rewrite app_nil_r|].
  rewrite IH. destruct (decide (x ∈ (list_to_set tags : gset str))) as [H|H].
  - rewrite elem_of_list_to_set in H. by rewrite filter_cons_False by tauto.
  - rewrite elem_of_list_to_set in H. rewrite filter_cons_True by done.
    by rewrite <- app_assoc.
Qed.

Lemma strip_nonempty_clean l :
  Forall (λ t, strip t = t ∧ t ≠ []) (strip_nonempty l).
Proof.
  apply Forall_forall. intros t (x & _ & -> & Hne)%strip_nonempty_elem.
  split; [apply strip_idemp | done].
Qed.

Lemma Forall_filter_keep {A} (P Q : A → Prop) `{∀ x, Decision (Q x)} l :
  Forall P l → Forall P (filter Q l).
Proof.
  rewrite !Forall_forall. intros H' x [_ Hx]%list_elem_of_filter. auto.
Qed.

Lemma remaining_tags_clean tags_text remove_tags remove_containing :
  Forall (λ t, strip t = t ∧ t ≠ [])
         (remaining_tags tags_text remove_tags remove_containing).
Proof.
  unfold remaining_tags.
  pose proof (strip_nonempty_clean (split comma tags_text)) as H.
  destruct remove_tags, remove_containing;
    repeat apply Forall_filter_keep; done.
Qed.

Lemma unique_from_app seen a b :
  unique_from seen (a ++ b)
  = unique_from seen a ++ unique_from (list_to_set a ∪ seen) b.
Proof.
  revert seen. induction a as [|x a IH]; intros seen; simpl.
  - f_equal. set_solver.
  - destruct (decide (x ∈ seen)) as [Hx|Hx]; rewrite IH.
    + f_equal. f_equal. set_solver.
    + rewrite <- app_comm_cons. do 3 f_equal. set_solver.
Qed.

Lemma unique_app_fresh a b :
  NoDup b → (∀ t, t ∈ b → t ∉ a) → unique (a ++ b) = unique a ++ b.
Proof.
  intros Hnd Hfresh. unfold unique. rewrite unique_from_app. f_equal.
  apply unique_from_fixed; [done|]. intros t Ht. specialize (Hfresh t Ht).
  set_solver.
Qed.

(** C6 (as amended). On a text that is neither empty nor made of whitespace
    only, the loop over [add_tags] appends exactly the members that are not
    equal to a tag left by the removal steps, in the iteration order of the
    set [add_tags]; the returned text is built from that list (trimmed,
    without empty tags, deduplicated, joined), and when the members are
    themselves trimmed and not empty it ends with the appended members in
    that order. *)
Theorem clean_and_edit_tags_appends
    (tags_text : str) (remove_tags remove_containing add_tags : option pyset) :
  ¬ (tags_text = [] ∨ strip tags_text = []) →
  let remaining :=
    remaining_tags tags_text (or_empty remove_tags) (or_empty remove_containing) in
  let appended := filter (λ t, t ∉ remaining) (or_empty add_tags) in
  add_new_tags remaining (or_empty add_tags) = remaining ++ appended
  ∧ clean_and_edit_tags tags_text remove_tags remove_containing add_tags
    = join (lit ", ") (unique (strip_nonempty (remaining ++ appended)))
  ∧ (NoDup (or_empty add_tags) →
     Forall (λ t, strip t = t ∧ t ≠ []) (or_empty add_tags) →
     clean_and_edit_tags tags_text remove_tags remove_containing add_tags
     = join (lit ", ") (unique remaining ++ appended)).
Proof.
  intros Hne remaining appended.
  assert (E : add_new_tags remaining (or_empty add_tags) = remaining ++ appended)
    by apply add_new_tags_filter.
  assert (E' : clean_and_edit_tags tags_text remove_tags remove_containing add_tags
               = join (lit ", ") (unique (strip_nonempty (remaining ++ appended)))).
  { unfold clean_and_edit_tags. rewrite decide_False by done.
    fold remaining. by rewrite E. }
  split; [done|]. split; [done|]. intros Hnd Hclean. rewrite E'.
  rewrite strip_nonempty_fixed.
  - rewrite unique_app_fresh; [done| |].
    + by apply NoDup_filter.
    + by intros t [? _]%list_elem_of_filter.
  - apply Forall_app. split; [apply remaining_tags_clean|].
    by apply Forall_filter_keep.
Qed.

Lemma clean_and_edit_tags_appends_witness :
  clean_and_edit_tags (lit "a, b, c") (Some [lit "b"]) None
                      (Some [lit "d"; lit "a"; lit "e"])
  = join (lit ", ") ([lit "a"; lit "c"] ++ [lit "d"; lit "e"]).
Proof.
  apply (clean_and_edit_tags_appends (lit "a, b, c") (Some [lit "b"]) None
           (Some [lit "d"; lit "a"; lit "e"])).
  - vm_compute. intros [H|H]; discriminate H.
  - vm_compute. repeat constructor; set_solver.
  - vm_compute. repeat constructor; discriminate.
Defined.

(** C6 as stated fails on a text that is not empty but blank: nothing is
    appended to it, the result is the empty string. *)
Lemma clean_and_edit_tags_blank_counterexample :
  ¬ (∀ (tags_text : str) (remove_tags remove_containing add_tags : option pyset),
       tags_text ≠ [] →
       let remaining :=
         remaining_tags tags_text (or_empty remove_tags)
                        (or_empty remove_containing) in
       let appended := filter (λ t, t ∉ remaining) (or_empty add_tags) in
       clean_and_edit_tags tags_text remove_tags remove_containing add_tags
       = join (lit ", ") (unique (strip_nonempty (remaining ++ appended)))).
Proof.
  intros H. specialize (H (lit " ") None None (Some [lit "x"])).
  assert (Hne : lit " " ≠ []) by discriminate.
  specialize (H Hne). revert H. vm_compute. discriminate.
Qed.

(** C9. On an empty or whitespace-only text clean-and-edit returns the empty
    string, whatever the removal sets and [add_tags] are. *)
Theorem clean_and_edit_tags_blank
    (tags_text : str) (remove_tags remove_containing add_tags : option pyset) :
  Forall (λ c, isspace c = true) tags_text →
  clean_and_edit_tags tags_text remove_tags remove_containing add_tags = [].
Proof.
  intros H. unfold clean_and_edit_tags.
  rewrite decide_True; [done|]. right. by apply strip_nil_iff.
Qed.

Lemma clean_and_edit_tags_blank_witness :
  clean_and_edit_tags [] None None (Some [lit "x"]) = []
  ∧ clean_and_edit_tags (lit "  " ++ [newline]) (Some [lit "a"]) None
                        (Some [lit "x"]) = [].
Proof.
  split.
  - apply (clean_and_edit_tags_blank [] None None (Some [lit "x"])).
    constructor.
  - apply (clean_and_edit_tags_blank (lit "  " ++ [newline])).
    repeat constructor.
Defined.

(** ** Paths *)

Lemma startswith_slash_false n : slash ∉ n → startswith n [slash] = false.
Proof.
  intros H. apply bool_decide_eq_false. destruct n as [|c n]; [done|].
  simpl. intros [= ->]. apply H. left.
Qed.

Lemma os_path_join_name d n :
  slash ∉ n → os_path_join d n = os_path_join d [] ++ n.
Proof.
  intros H. unfold os_path_join. rewrite startswith_slash_false by done.
  rewrite (startswith_slash_false []) by (by intros ?%elem_of_nil).
  destruct (bool_decide (d = []) || endswith d [slash]).
  - by rewrite app_nil_r.
  - by rewrite <- app_assoc.
Qed.

Lemma os_path_join_inj d n1 n2 :
  slash ∉ n1 → slash ∉ n2 →
  os_path_join d n1 = os_path_join d n2 → n1 = n2.
Proof.
  intros H1 H2.
  rewrite (os_path_join_name d n1), (os_path_join_name d n2) by done.
  apply app_inv_head.
Qed.

Lemma splitext_app p : (splitext p).1 ++ (splitext p).2 = p.
Proof.
  unfold splitext. destruct (decide _); [|apply app_nil_r].
  destruct (has_non_dot _); simpl; [apply take_drop | apply app_nil_r].
Qed.

Lemma splitext_stem_elem p c : c ∈ (splitext p).1 → c ∈ p.
Proof. intros H. rewrite <- (splitext_app p). apply elem_of_app. by left. Qed.

(** ** The names in a directory *)

Lemma child_name_Some d p n :
  child_name d p = Some n ↔ p = os_path_join d n ∧ n ≠ [] ∧ slash ∉ n.
Proof.
  unfold child_name, startswith. split.
  - destruct (bool_decide (take _ p = _)) eqn:E1; [|done]. simpl.
    destruct (bool_decide (_ ∧ _)) eqn:E2; [|done].
    apply bool_decide_eq_true in E1, E2. intros [= <-]. destruct E2 as [Hne Hs].
    split; [|done]. rewrite (os_path_join_name d (drop _ p)) by done.
    rewrite <- E1 at 1. by rewrite take_drop.
  - intros (-> & Hne & Hs). rewrite (os_path_join_name d n) by done.
    rewrite take_app_length, drop_app_length.
    rewrite !bool_decide_eq_true_2 by done. done.
Qed.

Lemma elem_of_listing (m : gmap str node) d n :
  n ∈ listing m d ↔ n ≠ [] ∧ slash ∉ n ∧ is_Some (m !! os_path_join d n).
Proof.
  unfold listing. rewrite list_elem_of_omap. split.
  - intros (p & Hp & (-> & Hne & Hs)%child_name_Some).
    apply elem_of_elements, elem_of_dom in Hp. done.
  - intros (Hne & Hs & Hp). exists (os_path_join d n). split.
    + by apply elem_of_elements, elem_of_dom.
    + by apply child_name_Some.
Qed.

Lemma NoDup_listing (m : gmap str node) d : NoDup (listing m d).
Proof.
  unfold listing. generalize (NoDup_elements (dom m)).
  induction 1 as [|p l Hp Hl IH]; simpl; [constructor|].
  destruct (child_name d p) as [n|] eqn:E; [|done].
  constructor; [|done]. intros (q & Hq & E')%list_elem_of_omap.
  apply child_name_Some in E as (-> & _), E' as (-> & _). done.
Qed.

Lemma sorted_elem x l : x ∈ sorted l ↔ x ∈ l.
Proof. unfold sorted. by rewrite merge_sort_Permutation. Qed.

Lemma sorted_NoDup l : NoDup l → NoDup (sorted l).
Proof. unfold sorted. by rewrite merge_sort_Permutation. Qed.

Lemma is_text_suffix b : is_text (b ++ lit ".txt").
Proof.
  unfold is_text, endswith, lower. apply bool_decide_eq_true.
  rewrite fmap_app, length_app.
  replace (length (lower_char <$> b) + length (lower_char <$> lit ".txt")
           - length (lit ".txt")) with (length (lower_char <$> b))
    by (simpl; lia).
  by rewrite drop_app_length.
Qed.

(** ** Scanner and matcher *)

(** What a scan does, by the state of the folder. *)
Lemma scan_and_match_files_run folder w :
  scan_and_match_files folder w =
  match fs w !! folder with
  | None =>
      (inl (ValueError folder),
       World (fs w) (trace w ++ [PathExists folder]))
  | Some Dir =>
      (inr ((scan_lists folder (listing (fs w) folder)).1.1,
            (scan_lists folder (listing (fs w) folder)).2),
       World (fs w) (trace w ++ [PathExists folder; ListDir folder]))
  | Some (File _) =>
      (inl (OSError NotADirectoryError (ListDir folder)),
       World (fs w) (trace w ++ [PathExists folder; ListDir folder]))
  end.
Proof.
  unfold scan_and_match_files, bindE, bind, os_path_exists, os_listdir, syscall,
    raise, ok, ret.
  destruct (fs w !! folder) as [[c|]|] eqn:E; simpl; rewrite ?E; simpl.
  - by rewrite <- app_assoc.
  - rewrite <- app_assoc.
    by destruct (scan_lists folder (listing (fs w) folder)) as [[? ?] ?].
  - done.
Qed.

Lemma scan_and_match_files_ok folder w infos unpaired w' :
  scan_and_match_files folder w = (inr (infos, unpaired), w') →
  fs w !! folder = Some Dir
  ∧ infos = (scan_lists folder (listing (fs w) folder)).1.1
  ∧ unpaired = (scan_lists folder (listing (fs w) folder)).2
  ∧ w' = World (fs w) (trace w ++ [PathExists folder; ListDir folder]).
Proof.
  rewrite scan_and_match_files_run.
  destruct (fs w !! folder) as [[c|]|]; [done| |done].
  by intros [= <- <- <-].
Qed.

(** C8. A scan fails with the "folder does not exist" error ([ValueError]
    in the source) exactly when nothing exists at the folder path; it then
    stops after the existence test: the file system is the one it started
    from and no other call was made. *)
Theorem scan_and_match_files_not_found (folder : str) (w : world) :
  ((scan_and_match_files folder w).1 = inl (ValueError folder)
   ↔ fs w !! folder = None)
  ∧ (fs w !! folder = None →
     (scan_and_match_files folder w).2
     = World (fs w) (trace w ++ [PathExists folder]))
  ∧ fs (scan_and_match_files folder w).2 = fs w.
Proof.
  rewrite scan_and_match_files_run.
  destruct (fs w !! folder) as [[c|]|]; simpl; repeat split; done.
Qed.

Lemma scan_and_match_files_not_found_witness :
  (scan_and_match_files (lit "missing") (World demo_fs [])).1
  = inl (ValueError (lit "missing"))
  ∧ (scan_and_match_files (lit "missing") (World demo_fs [])).2
    = World demo_fs [PathExists (lit "missing")].
Proof.
  pose proof (scan_and_match_files_not_found (lit "missing") (World demo_fs []))
    as (H1 & H2 & _).
  split; [apply H1 | apply H2]; reflexivity.
Defined.

Section scan_lists_facts.
Context (folder : str) (files : list str).
Hypothesis files_names : ∀ n, n ∈ files → n ≠ [] ∧ slash ∉ n.
Hypothesis files_NoDup : NoDup files.

Let images := sorted (filter is_image files).
Let texts := sorted (filter is_text files).
Let infos := (scan_lists folder files).1.1.
Let unpaired_images := (scan_lists folder files).1.2.

Lemma scan_infos : infos = match_image folder texts <$> images.
Proof. done. Qed.

Lemma elem_of_images img : img ∈ images ↔ img ∈ files ∧ is_image img.
Proof.
  unfold images. rewrite sorted_elem, list_elem_of_filter. tauto.
Qed.

Lemma elem_of_texts t : t ∈ texts ↔ t ∈ files ∧ is_text t.
Proof. unfold texts. rewrite sorted_elem, list_elem_of_filter. tauto. Qed.

Lemma image_path_match_image ts img :
  image_path (match_image folder ts img) = Some (os_path_join folder img).
Proof. unfold match_image. by repeat destruct (decide _). Qed.

Lemma match_image_inj img1 img2 :
  img1 ∈ images → img2 ∈ images →
  image_path (match_image folder texts img1)
  = image_path (match_image folder texts img2) →
  img1 = img2.
Proof.
  intros [H1 _]%elem_of_images [H2 _]%elem_of_images.
  rewrite !image_path_match_image. intros [= E].
  apply (os_path_join_inj folder); [apply files_names..|]; done.
Qed.

Lemma scan_image_paths :
  image_path <$> infos
  = (λ img, Some (os_path_join folder img)) <$> images.
Proof.
  rewrite scan_infos, <- list_fmap_compose. apply list_fmap_ext.
  intros i img _. apply image_path_match_image.
Qed.

Lemma scan_image_paths_NoDup : NoDup (image_path <$> infos).
Proof.
  rewrite scan_image_paths. apply NoDup_fmap_2_strong.
  - intros a b [Ha _]%elem_of_images [Hb _]%elem_of_images [= E].
    apply (os_path_join_inj folder); [apply files_names..|]; done.
  - apply sorted_NoDup, NoDup_filter, files_NoDup.
Qed.

Lemma match_image_paired ts img :
  let fi := match_image folder ts img in
  (is_paired fi = true ∧ is_Some (text_path fi))
  ∨ (is_paired fi = false ∧ text_path fi = None).
Proof.
  unfold match_image. repeat destruct (decide _); simpl; eauto.
Qed.

Lemma elem_of_unpaired_images p :
  p ∈ unpaired_images
  ↔ ∃ fi, fi ∈ infos ∧ is_paired fi = false ∧ image_path fi = Some p.
Proof.
  unfold unpaired_images. simpl. rewrite list_elem_of_omap. split.
  - intros (fi & Hfi & E). exists fi. split; [done|].
    by destruct (is_paired fi).
  - intros (fi & Hfi & Hp & E). exists fi. split; [done|]. by rewrite Hp.
Qed.

(** Every record is in exactly one of the two classes. *)
Lemma scan_classes fi :
  fi ∈ infos →
  ∃ p, image_path fi = Some p
       ∧ ((is_paired fi = true ∧ is_Some (text_path fi) ∧ p ∉ unpaired_images)
          ∨ (is_paired fi = false ∧ text_path fi = None
             ∧ p ∈ unpaired_images)).
Proof.
  intros Hfi. pose proof Hfi as Hfi'. rewrite scan_infos in Hfi'.
  apply list_elem_of_fmap in Hfi' as (img & -> & Himg).
  eexists. split; [apply image_path_match_image|].
  destruct (match_image_paired texts img) as [[Hp Ht]|[Hp Ht]]; [left|right].
  - repeat split; [done..|].
    intros (fj & Hfj & Hq & E)%elem_of_unpaired_images.
    rewrite scan_infos in Hfj.
    apply list_elem_of_fmap in Hfj as (img' & -> & Himg').
    rewrite <- (image_path_match_image texts img) in E.
    apply match_image_inj in E as ->; [|done..]. congruence.
  - repeat split; [done..|]. apply elem_of_unpaired_images.
    eexists. split; [exact Hfi|]. split; [done|].
    apply image_path_match_image.
Qed.

Lemma text_path_match_image img t :
  text_path (match_image folder texts img) = Some t →
  t = os_path_join folder ((splitext img).1 ++ lit ".txt")
  ∨ t = os_path_join folder (img ++ lit ".txt").
Proof.
  unfold match_image. repeat destruct (decide _); simpl; intros [= <-]; eauto.
Qed.

Lemma caption_name_no_slash n : slash ∉ n → slash ∉ n ++ lit ".txt".
Proof.
  intros H [?|H']%elem_of_app; [done|]. revert H'.
  exact (bool_decide_unpack (slash ∉ lit ".txt") I).
Qed.

(** With distinct stems no caption is the [text_path] of two records. *)
Lemma scan_caption_once fi fj t :
  stems_distinct (filter is_image files) →
  fi ∈ infos → fj ∈ infos →
  text_path fi = Some t → text_path fj = Some t → fi = fj.
Proof.
  intros [Hstems Hnames] Hfi Hfj Ei Ej. rewrite scan_infos in Hfi, Hfj.
  apply list_elem_of_fmap in Hfi as (i & -> & Hi).
  apply list_elem_of_fmap in Hfj as (j & -> & Hj).
  f_equal.
  assert (Hsl : ∀ x, x ∈ images → slash ∉ x ∧ slash ∉ (splitext x).1).
  { intros x [Hx _]%elem_of_images. destruct (files_names x Hx) as [_ Hs].
    split; [done|]. by intros ?%splitext_stem_elem. }
  assert (Hin : ∀ x, x ∈ images → x ∈ filter is_image files).
  { intros x. unfold images. by rewrite sorted_elem. }
  destruct (Hsl i Hi) as [Hi1 Hi2], (Hsl j Hj) as [Hj1 Hj2].
  assert (Hstem : (splitext i).1 = (splitext j).1 → i = j).
  { intros E. apply Hin in Hi, Hj.
    apply list_elem_of_lookup in Hi as [a Ha], Hj as [b Hb].
    assert (a = b) as ->; [|congruence].
    eapply NoDup_lookup; [exact Hstems|..];
      rewrite list_lookup_fmap, ?Ha, ?Hb; simpl; [done | by rewrite E]. }
  rewrite Forall_forall in Hnames.
  apply text_path_match_image in Ei as [Ei|Ei], Ej as [Ej|Ej]; subst t;
    apply os_path_join_inj in Ej; try (by apply caption_name_no_slash);
    apply app_inv_tail in Ej.
  - by apply Hstem.
  - exfalso. apply (Hnames i); [by apply Hin|]. rewrite Ej. by apply Hin.
  - exfalso. apply (Hnames j); [by apply Hin|]. rewrite <- Ej. by apply Hin.
  - done.
Qed.

(** The sibling-stem caption, when it is in the folder, is the one taken. *)
Lemma match_image_sibling img :
  (splitext img).1 ++ lit ".txt" ∈ files →
  match_image folder texts img
  = mkFileInfo (Some (os_path_join folder img))
      (Some (os_path_join folder ((splitext img).1 ++ lit ".txt")))
      (splitext img).1 true.
Proof.
  intros H. unfold match_image. rewrite decide_True; [done|].
  apply elem_of_texts. split; [done | apply is_text_suffix].
Qed.
End scan_lists_facts.

Lemma scan_result_lists folder w infos unpaired :
  (scan_and_match_files folder w).1 = inr (infos, unpaired) →
  infos = (scan_lists folder (listing (fs w) folder)).1.1
  ∧ unpaired = (scan_lists folder (listing (fs w) folder)).2.
Proof.
  destruct (scan_and_match_files folder w) as [r w'] eqn:E. simpl.
  intros ->. by apply scan_and_match_files_ok in E as (_ & -> & -> & _).
Qed.

Lemma listing_names (m : gmap str node) d n :
  n ∈ listing m d → n ≠ [] ∧ slash ∉ n.
Proof. rewrite elem_of_listing. tauto. Qed.

(** C5. When the sibling-stem caption and the full-name caption of an image
    both exist in the folder, the record of the image carries the
    sibling-stem caption. *)
Theorem sibling_stem_caption_wins
    (folder : str) (w : world) (infos : list FileInfo) (unpaired : list str)
    (img : str) :
  (scan_and_match_files folder w).1 = inr (infos, unpaired) →
  img ∈ listing (fs w) folder → is_image img →
  is_Some (fs w !! os_path_join folder ((splitext img).1 ++ lit ".txt")) →
  is_Some (fs w !! os_path_join folder (img ++ lit ".txt")) →
  let caption := os_path_join folder ((splitext img).1 ++ lit ".txt") in
  mkFileInfo (Some (os_path_join folder img)) (Some caption)
             (splitext img).1 true ∈ infos
  ∧ ∀ fi, fi ∈ infos → image_path fi = Some (os_path_join folder img) →
          text_path fi = Some caption ∧ is_paired fi = true.
Proof.
  intros [-> _]%scan_result_lists Himg Hi HA HB caption.
  set (files := listing (fs w) folder) in *.
  assert (Hnames : ∀ n, n ∈ files → n ≠ [] ∧ slash ∉ n)
    by (intros n; apply listing_names).
  assert (HAin : (splitext img).1 ++ lit ".txt" ∈ files).
  { apply elem_of_listing. split; [by destruct (splitext img).1|].
    split; [|done]. apply caption_name_no_slash.
    intros ?%splitext_stem_elem. by apply (Hnames img). }
  assert (Himages : img ∈ sorted (filter is_image files)).
  { apply elem_of_images. by split. }
  pose proof (match_image_sibling folder files img HAin) as E.
  rewrite scan_infos. split.
  - unfold caption. rewrite <- E. by apply list_elem_of_fmap_2.
  - intros fi (img' & -> & Himg')%list_elem_of_fmap Hp.
    rewrite <- (image_path_match_image folder
                  (sorted (filter is_text files)) img) in Hp.
    apply match_image_inj in Hp as ->; [|done..]. by rewrite E.
Qed.

(** C2 (as amended). For every folder that can be scanned, every image of
    the folder has exactly one record, and a record is either paired or
    among the unpaired images, never both.  When moreover no two images
    share a stem and no image's stem is the name of an image, a caption is
    the [text_path] of at most one record. *)
Theorem scan_partitions_images
    (folder : str) (w : world) (infos : list FileInfo) (unpaired : list str) :
  (scan_and_match_files folder w).1 = inr (infos, unpaired) →
  let images := filter is_image (listing (fs w) folder) in
  let unpaired_images := (scan_lists folder (listing (fs w) folder)).1.2 in
  image_path <$> infos
  = (λ img, Some (os_path_join folder img)) <$> sorted images
  ∧ NoDup (image_path <$> infos)
  ∧ (∀ fi, fi ∈ infos →
       ∃ p, image_path fi = Some p
            ∧ ((is_paired fi = true ∧ is_Some (text_path fi)
                ∧ p ∉ unpaired_images)
               ∨ (is_paired fi = false ∧ text_path fi = None
                  ∧ p ∈ unpaired_images)))
  ∧ (stems_distinct images →
     ∀ fi fj t, fi ∈ infos → fj ∈ infos →
       text_path fi = Some t → text_path fj = Some t → fi = fj).
Proof.
  intros [-> _]%scan_result_lists images unpaired_images.
  set (files := listing (fs w) folder) in *.
  assert (Hnames : ∀ n, n ∈ files → n ≠ [] ∧ slash ∉ n)
    by (intros n; apply listing_names).
  assert (Hnd : NoDup files) by apply NoDup_listing.
  split; [apply scan_image_paths|].
  split; [by apply scan_image_paths_NoDup|].
  split; [intros fi; by apply scan_classes|].
  intros Hstems fi fj t. by apply scan_caption_once.
Qed.

Lemma sibling_stem_caption_wins_witness :
  (scan_and_match_files (lit "d") (World pair_fs [])).1
  = inr (pair_infos, pair_unpaired)
  ∧ mkFileInfo (Some (lit "d/a.png")) (Some (lit "d/a.txt")) (lit "a") true
    ∈ pair_infos.
Proof.
  assert (E : (scan_and_match_files (lit "d") (World pair_fs [])).1
              = inr (pair_infos, pair_unpaired)) by (vm_compute; reflexivity).
  split; [exact E|].
  refine (proj1 (sibling_stem_caption_wins (lit "d") (World pair_fs [])
                   pair_infos pair_unpaired (lit "a.png") E _ _ _ _));
    by_compute.
Defined.

Lemma scan_partitions_images_witness :
  (∀ fi fj t, fi ∈ pair_infos → fj ∈ pair_infos →
     text_path fi = Some t → text_path fj = Some t → fi = fj)
  ∧ NoDup (image_path <$> pair_infos)
  ∧ image_path <$> (scan_lists (lit "d") (listing shared_fs (lit "d"))).1.1
    = [Some (lit "d/a.jpg"); Some (lit "d/a.png")].
Proof.
  assert (E : (scan_and_match_files (lit "d") (World pair_fs [])).1
              = inr (pair_infos, pair_unpaired)) by (vm_compute; reflexivity).
  assert (H : stems_distinct (filter is_image (listing pair_fs (lit "d"))))
    by (unfold stems_distinct; by_compute).
  pose proof (scan_partitions_images (lit "d") (World pair_fs [])
                pair_infos pair_unpaired E) as (_ & Hnd & _ & Huniq).
  split; [exact (Huniq H)|]. split; [exact Hnd|].
  assert (E' : (scan_and_match_files (lit "d") (World shared_fs [])).1
               = inr ((scan_lists (lit "d") (listing shared_fs (lit "d"))).1.1,
                      (scan_lists (lit "d") (listing shared_fs (lit "d"))).2))
    by (vm_compute; reflexivity).
  pose proof (scan_partitions_images (lit "d") (World shared_fs []) _ _ E')
    as (Hpaths & _).
  rewrite Hpaths. vm_compute. reflexivity.
Defined.

(** C2 as stated fails: with [a.jpg], [a.png] and [a.txt] in the folder the
    records of both images carry [a.txt]. *)
Lemma caption_shared_counterexample :
  ¬ (∀ (folder : str) (w : world) infos unpaired,
       (scan_and_match_files folder w).1 = inr (infos, unpaired) →
       ∀ fi fj t, fi ∈ infos → fj ∈ infos →
         text_path fi = Some t → text_path fj = Some t → fi = fj).
Proof.
  intros H.
  set (fi := mkFileInfo (Some (lit "d/a.jpg")) (Some (lit "d/a.txt")) (lit "a") true).
  set (fj := mkFileInfo (Some (lit "d/a.png")) (Some (lit "d/a.txt")) (lit "a") true).
  assert (E : (scan_and_match_files (lit "d") (World shared_fs [])).1
              = inr ([fi; fj], [])) by (vm_compute; reflexivity).
  specialize (H _ _ _ _ E fi fj (lit "d/a.txt")).
  assert (Hne : fi ≠ fj) by discriminate.
  apply Hne, H; [left | right; left | done | done].
Qed.

(** ** Renamer *)

Lemma os_rename_trace src dst w :
  trace (os_rename src dst w).2 = trace w ++ [Rename src dst].
Proof.
  unfold os_rename, syscall. by destruct (rename_fs _ _ _ _).
Qed.

Lemma run_temp_renames_trace l result w :
  trace (run_temp_renames l result w).2 = trace w ++ (uncurry Rename <$> l).
Proof.
  revert result w. induction l as [|[old tmp] l IH]; intros result w; simpl.
  - by rewrite app_nil_r.
  - unfold bind. pose proof (os_rename_trace old tmp w) as E.
    destruct (os_rename old tmp w) as [r w1]. simpl in E.
    rewrite IH, E. by rewrite <- app_assoc.
Qed.

Lemma run_final_renames_trace l result w :
  trace (run_final_renames l result w).2 = trace w ++ (uncurry Rename <$> l).
Proof.
  revert result w. induction l as [|[tmp final] l IH]; intros result w; simpl.
  - by rewrite app_nil_r.
  - unfold bind. pose proof (os_rename_trace tmp final w) as E.
    destruct (os_rename tmp final w) as [r w1]. simpl in E.
    rewrite IH, E. by rewrite <- app_assoc.
Qed.

Lemma rename_files_trace folder infos w :
  trace (rename_files folder infos w).2
  = trace w
    ++ (uncurry Rename <$> (rename_plan folder rename_start_index infos).1)
    ++ (uncurry Rename <$> (rename_plan folder rename_start_index infos).2).
Proof.
  unfold rename_files.
  destruct (rename_plan folder rename_start_index infos) as [temps finals].
  unfold bind, ret. simpl.
  pose proof (run_temp_renames_trace temps new_result w) as E1.
  destruct (run_temp_renames temps new_result w) as [r1 w1]. simpl in E1.
  pose proof (run_final_renames_trace finals r1 w1) as E2.
  destruct (run_final_renames finals r1 w1) as [r2 w2]. simpl in *.
  by rewrite E2, E1, <- app_assoc.
Qed.

Lemma renames_of_chain folder n fi :
  snd <$> (renames_of folder n fi).1 = fst <$> (renames_of folder n fi).2.
Proof.
  unfold renames_of.
  destruct (truthy (image_path fi)), (truthy (text_path fi)); done.
Qed.

Lemma concat_chain (per : list (list (str * str) * list (str * str))) :
  Forall (λ p, snd <$> p.1 = fst <$> p.2) per →
  snd <$> concat (fst <$> per) = fst <$> concat (snd <$> per).
Proof.
  induction 1 as [|p per Hp _ IH]; [done|].
  rewrite !fmap_cons. simpl concat. rewrite !fmap_app. by rewrite Hp, IH.
Qed.

Lemma rename_plan_chain folder start infos :
  snd <$> (rename_plan folder start infos).1
  = fst <$> (rename_plan folder start infos).2.
Proof.
  unfold rename_plan. simpl. apply concat_chain, Forall_forall.
  intros p [i Hi]%list_elem_of_lookup.
  rewrite list_lookup_imap in Hi.
  destruct (infos !! i) as [fi|]; [|done]. injection Hi as <-.
  apply renames_of_chain.
Qed.

Lemma elem_of_concat {A} (x : A) (ls : list (list A)) :
  x ∈ concat ls ↔ ∃ l, x ∈ l ∧ l ∈ ls.
Proof.
  induction ls as [|l ls IH]; simpl.
  - split; [by intros ?%elem_of_nil | by intros (? & _ & ?%elem_of_nil)].
  - rewrite elem_of_app, IH. split.
    + intros [H|(l' & H & Hl')]; [exists l | exists l']; split; auto;
        [left | by right].
    + intros (l' & H & [->|Hl']%elem_of_cons); [by left | right; eauto].
Qed.

Lemma rename_plan_lookup folder start infos i fi :
  infos !! i = Some fi →
  ∀ pr, (pr ∈ (renames_of folder (start + i) fi).1 →
         pr ∈ (rename_plan folder start infos).1)
        ∧ (pr ∈ (renames_of folder (start + i) fi).2 →
           pr ∈ (rename_plan folder start infos).2).
Proof.
  intros Hi pr. unfold rename_plan.
  assert (H : imap (λ i fi, renames_of folder (start + i) fi) infos !! i
              = Some (renames_of folder (start + i) fi))
    by (by rewrite list_lookup_imap, Hi).
  apply list_elem_of_lookup_2 in H.
  split; intros Hpr; apply elem_of_concat; eexists; (split; [exact Hpr|]);
    apply list_elem_of_fmap; eexists; (split; [|exact H]); done.
Qed.

(** The two renames planned for the image and for the caption of the record
    at position [i]. *)
Lemma rename_plan_record folder infos i fi :
  infos !! i = Some fi →
  let plan := rename_plan folder rename_start_index infos in
  let stem := str_of_nat (1 + i) in
  (∀ p, truthy (image_path fi) = Some p →
     let ext := (splitext p).2 in
     (p, os_path_join folder (lit "temp_" ++ stem ++ ext)) ∈ plan.1
     ∧ (os_path_join folder (lit "temp_" ++ stem ++ ext),
        os_path_join folder (stem ++ ext)) ∈ plan.2)
  ∧ (∀ t, truthy (text_path fi) = Some t →
     (t, os_path_join folder (lit "temp_" ++ stem ++ lit ".txt")) ∈ plan.1
     ∧ (os_path_join folder (lit "temp_" ++ stem ++ lit ".txt"),
        os_path_join folder (stem ++ lit ".txt")) ∈ plan.2).
Proof.
  intros Hi plan stem.
  pose proof (rename_plan_lookup folder rename_start_index infos i fi Hi) as H.
  change (rename_start_index + i) with (1 + i) in H. fold plan stem in H.
  split.
  - intros p Hp ext. split; apply H; unfold renames_of; rewrite Hp;
      cbn [fst snd]; apply elem_of_app; left; left.
  - intros t Ht. split; apply H; unfold renames_of; rewrite Ht;
      cbn [fst snd]; apply elem_of_app; right; left.
Qed.

(** C4 fails on the code. A folder holds [a.jpg] and a file [temp_1.jpg]
    (as a run whose Phase 2 failed leaves behind).  The temporary name chosen
    for [a.jpg] in Phase 1 is [temp_1.jpg], the name of the other file; the
    rename replaces that file, and after [rename_files] no file has its
    content. *)
Theorem temp_name_collision :
  let w := World collide_fs [] in
  (scan_and_match_files (lit "d") w).1 = inr (collide_infos, [])
  ∧ (lit "d/a.jpg", lit "d/temp_1.jpg")
    ∈ (rename_plan (lit "d") rename_start_index collide_infos).1
  ∧ fs w !! lit "d/temp_1.jpg" = Some (File (lit "T"))
  ∧ (∀ p, fs (rename_files (lit "d") collide_infos w).2 !! p
          ≠ Some (File (lit "T")))
  ∧ success (rename_files (lit "d") collide_infos w).1 = false.
Proof.
  intros w. split; [by vm_compute|]. split; [by_compute|].
  split; [by vm_compute|]. split; [|by vm_compute].
  intros p Hp. apply elem_of_map_to_list in Hp. revert Hp.
  assert (E : map_to_list (fs (rename_files (lit "d") collide_infos w).2)
              = [(lit "d/2.jpg", File (lit "A")); (lit "d", Dir)])
    by (by vm_compute).
  rewrite E. intros H.
  apply elem_of_cons in H as [H|H]; [discriminate H|].
  apply elem_of_cons in H as [H|H]; [discriminate H|].
  by apply elem_of_nil in H.
Qed.

(** ** Results: the success flag *)

Lemma conclude_consistent r d e :
  success r = false → success_iff_no_errors (conclude r d e).
Proof.
  intros H. unfold conclude, success_iff_no_errors.
  destruct (errors r) as [|x l] eqn:E; simpl; [by rewrite E|].
  rewrite H, E. split; discriminate.
Qed.

Lemma fail_with_consistent r e :
  success r = false → success_iff_no_errors (fail_with r e).
Proof.
  intros H. unfold fail_with, success_iff_no_errors. simpl. rewrite H.
  split; [discriminate|]. by intros [_ ?]%app_eq_nil.
Qed.

Lemma run_temp_renames_success l r w :
  success (run_temp_renames l r w).1 = success r.
Proof.
  revert r w. induction l as [|[a b] l IH]; intros r w; simpl; [done|].
  unfold bind. destruct (os_rename a b w) as [[e|[]] w1]; by rewrite IH.
Qed.

Lemma run_final_renames_success l r w :
  success (run_final_renames l r w).1 = success r.
Proof.
  revert r w. induction l as [|[a b] l IH]; intros r w; simpl; [done|].
  unfold bind. destruct (os_rename a b w) as [[e|[]] w1]; by rewrite IH.
Qed.

Lemma standardize_loop_success l r w :
  success (standardize_loop l r w).1 = success r.
Proof.
  revert r w. induction l as [|fi l IH]; intros r w; simpl; [done|].
  destruct (truthy (text_path fi)) as [t|]; [|apply IH].
  unfold bind. destruct (os_path_exists t w) as [[] w1]; simpl; [|apply IH].
  destruct (bindE _ _ w1) as [[e|[]] w2]; by rewrite IH.
Qed.

Lemma manual_loop_success l rm rc add r w :
  success (manual_loop l rm rc add r w).1 = success r.
Proof.
  revert r w. induction l as [|t l IH]; intros r w; simpl; [done|].
  unfold bind. destruct (bindE _ _ w) as [[e|[]] w1]; by rewrite IH.
Qed.

Lemma move_loop_success d l r w :
  success (move_loop d l r w).1 = success r.
Proof.
  revert r w. induction l as [|t l IH]; intros r w; simpl; [done|].
  unfold bind at 1.
  destruct (move_unpaired d t w) as [[e|[]] w1]; by rewrite IH.
Qed.

Lemma rename_files_consistent folder infos w :
  success_iff_no_errors (rename_files folder infos w).1.
Proof.
  unfold rename_files. destruct (rename_plan _ _ _) as [temps finals].
  unfold bind, ret.
  pose proof (run_temp_renames_success temps new_result w) as E1.
  destruct (run_temp_renames temps new_result w) as [r1 w1].
  pose proof (run_final_renames_success finals r1 w1) as E2.
  destruct (run_final_renames finals r1 w1) as [r2 w2]. simpl in *.
  apply conclude_consistent. by rewrite E2, E1.
Qed.

Lemma standardize_tags_consistent folder infos w :
  success_iff_no_errors (standardize_tags folder infos w).1.
Proof.
  unfold standardize_tags, bind, ret.
  pose proof (standardize_loop_success infos new_result w) as E.
  destruct (standardize_loop infos new_result w) as [r w1]. simpl in *.
  by apply conclude_consistent.
Qed.

Lemma manual_tag_process_consistent set_iter folder rm rc add w :
  success_iff_no_errors (manual_tag_process set_iter folder rm rc add w).1.
Proof.
  unfold manual_tag_process, bind, ret.
  destruct (os_listdir folder w) as [[e|names] w1]; simpl.
  - by apply fail_with_consistent.
  - match goal with
    | |- context [manual_loop ?l ?a ?b ?c ?r ?w] =>
        pose proof (manual_loop_success l a b c r w) as E;
        destruct (manual_loop l a b c r w) as [r2 w2]
    end.
    simpl in *. by apply conclude_consistent.
Qed.

Lemma handle_unpaired_files_consistent folder files w :
  success_iff_no_errors (handle_unpaired_files folder files w).1.
Proof.
  unfold handle_unpaired_files. destruct files as [|f files]; [done|].
  change (negb create_unpaired_folder) with false. cbv iota.
  generalize (f :: files). intros l. unfold bind, ret.
  destruct (os_makedirs (os_path_join folder (lit "unpaired")) w)
    as [[e|[]] w1]; simpl.
  - by apply fail_with_consistent.
  - match goal with
    | |- context [move_loop ?d ?l ?r ?w] =>
        pose proof (move_loop_success d l r w) as E;
        destruct (move_loop d l r w) as [r2 w2]
    end.
    simpl in *. by apply conclude_consistent.
Qed.

Lemma auto_post_process_consistent folder w :
  success_iff_no_errors (auto_post_process folder w).1.
Proof.
  unfold auto_post_process, bind, ret.
  destruct (scan_and_match_files folder w) as [[e|[infos unp]] w1]; simpl.
  { by apply fail_with_consistent. }
  destruct (handle_unpaired_files folder unp w1) as [r1 w2].
  destruct (rename_files folder infos w2) as [r2 w3].
  destruct (scan_and_match_files folder w3) as [[e|[infos' unp']] w4]; simpl.
  { by apply fail_with_consistent. }
  destruct (standardize_tags folder infos' w4) as [r3 w5]. simpl.
  by apply conclude_consistent.
Qed.

(** C7. Each of the five operations that return a result (rename,
    standardize, manual edit, unpaired handling, automatic post-process)
    returns one whose success flag is true exactly when its error list is
    empty, from every state of the file system. *)
Theorem success_iff_errors_empty
    (set_iter : list str → pyset) (folder : str) (infos : list FileInfo)
    (files : list str) (remove_tags remove_containing add_tags : option (list str))
    (w : world) :
  success_iff_no_errors (rename_files folder infos w).1
  ∧ success_iff_no_errors (standardize_tags folder infos w).1
  ∧ success_iff_no_errors
      (manual_tag_process set_iter folder remove_tags remove_containing
                          add_tags w).1
  ∧ success_iff_no_errors (handle_unpaired_files folder files w).1
  ∧ success_iff_no_errors (auto_post_process folder w).1.
Proof.
  repeat split.
  all: first [ apply rename_files_consistent
             | apply standardize_tags_consistent
             | apply manual_tag_process_consistent
             | apply handle_unpaired_files_consistent
             | apply auto_post_process_consistent ].
Qed.

(** ** [rfind], [basename], extensions *)

Lemma rfind_bounds c s : (-1 ≤ rfind c s < Z.of_nat (length s))%Z.
Proof.
  induction s as [|x s IH]; simpl; [lia|].
  destruct (decide (0 ≤ rfind c s)%Z); [lia|].
  destruct (decide (x = c)); lia.
Qed.

Lemma rfind_absent c s : c ∉ s → rfind c s = (-1)%Z.
Proof.
  induction s as [|x s IH]; simpl; [done|]. intros H.
  rewrite IH by (intros ?; apply H; by right). simpl.
  rewrite decide_False; [done|]. intros ->. apply H. left.
Qed.

Lemma rfind_app c a s :
  rfind c (a ++ s)
  = if decide (0 ≤ rfind c s)%Z then (Z.of_nat (length a) + rfind c s)%Z
    else rfind c a.
Proof.
  induction a as [|x a IH]; simpl.
  - destruct (decide _); [lia|]. pose proof (rfind_bounds c s). lia.
  - rewrite IH. destruct (decide (0 ≤ rfind c s)%Z) as [H|H].
    + rewrite decide_True by lia. lia.
    + done.
Qed.

Lemma rfind_last c a s :
  c ∉ s → rfind c (a ++ c :: s) = Z.of_nat (length a).
Proof.
  intros H. rewrite rfind_app. simpl. rewrite (rfind_absent c s H). simpl.
  rewrite (decide_True (P := c = c)) by done.
  rewrite decide_True by done. lia.
Qed.

Lemma basename_no_slash p : slash ∉ basename p.
Proof.
  unfold basename. induction p as [|x p IH]; simpl; [by intros ?%elem_of_nil|].
  pose proof (rfind_bounds slash p) as Hb.
  destruct (decide (0 ≤ rfind slash p)%Z) as [H|H].
  - replace (Z.to_nat (rfind slash p + 1 + 1))
      with (S (Z.to_nat (rfind slash p + 1))) by lia. done.
  - assert (E : rfind slash p = (-1)%Z) by lia. rewrite E in IH.
    change (drop (Z.to_nat (-1 + 1)) p) with p in IH.
    destruct (decide (x = slash)); simpl; [done|].
    intros [E'|?]%elem_of_cons; [by symmetry in E' | done].
Qed.

Lemma endswith_inv s suffix :
  endswith s suffix = true → ∃ s', s = s' ++ suffix.
Proof.
  unfold endswith. intros H%bool_decide_eq_true.
  exists (take (length s - length suffix) s).
  rewrite <- H at 2. by rewrite take_drop.
Qed.

(** The directory part that [os.path.join] puts before a name is empty or
    ends with the separator. *)
Lemma os_path_join_prefix d :
  os_path_join d [] = [] ∨ ∃ d', os_path_join d [] = d' ++ [slash].
Proof.
  unfold os_path_join. rewrite (startswith_slash_false []) by (by intros ?%elem_of_nil).
  destruct (bool_decide (d = [])) eqn:E1; simpl.
  - apply bool_decide_eq_true in E1 as ->. by left.
  - destruct (endswith d [slash]) eqn:E2.
    + right. apply endswith_inv in E2 as [d' ->]. exists d'. by rewrite app_nil_r.
    + right. by exists d.
Qed.

Lemma basename_join d n : slash ∉ n → basename (os_path_join d n) = n.
Proof.
  intros H. rewrite os_path_join_name by done. unfold basename.
  destruct (os_path_join_prefix d) as [->|[d' ->]]; simpl.
  - by rewrite rfind_absent.
  - rewrite <- app_assoc. simpl. rewrite rfind_last by done.
    replace (Z.to_nat (Z.of_nat (length d') + 1)) with (length (d' ++ [slash]))
      by (rewrite length_app; simpl; lia).
    change (d' ++ slash :: n) with (d' ++ [slash] ++ n).
    rewrite app_assoc. apply drop_app_length.
Qed.

Lemma splitext_ext_cases p :
  (splitext p).2 = [] ∨ (splitext p).2 = drop (Z.to_nat (rfind dot p)) p.
Proof.
  unfold splitext. destruct (decide _); [|by left].
  destruct (has_non_dot _); [by right | by left].
Qed.

Lemma lower_char_dot c : lower_char c = dot → c = dot.
Proof.
  destruct c as [[] [] [] [] [] [] [] []]; vm_compute; congruence.
Qed.

Lemma lower_char_letter c x :
  lower_char c = x → x ≠ dot → x ≠ slash → c ≠ dot ∧ c ≠ slash.
Proof. intros <- H1 H2. split; intros ->; [apply H1 | apply H2]; done. Qed.

(** A name that ends in [.txt] (in any case) has no image extension. *)
Lemma is_text_not_image f : is_text f → ¬ is_image f.
Proof.
  unfold is_text, is_image. intros [g E]%endswith_inv.
  assert (∃ g' c2 c3 c4, f = g' ++ [dot; c2; c3; c4]
                         ∧ lower [dot; c2; c3; c4] = lit ".txt"
                         ∧ dot ∉ [c2; c3; c4]) as (g' & c2 & c3 & c4 & -> & El & Hd).
  { unfold lower in E.
    assert (Hlen : length (lower_char <$> f) = length g + 4)
      by (rewrite E, length_app; done).
    rewrite length_fmap in Hlen.
    rewrite <- (take_drop (length g) f), fmap_app in E.
    apply app_inj_1 in E as [_ E]; [|rewrite length_fmap, length_take; lia].
    destruct (drop (length g) f) as [|c1 [|c2 [|c3 [|c4 [|? ?]]]]] eqn:Ed;
      try discriminate E.
    injection E as E1 E2 E3 E4. apply lower_char_dot in E1 as ->.
    exists (take (length g) f), c2, c3, c4.
    split; [by rewrite <- Ed, take_drop|]. split.
    - unfold lower. simpl. by rewrite E2, E3, E4.
    - apply (lower_char_letter c2) in E2 as [? _]; [|done..].
      apply (lower_char_letter c3) in E3 as [? _]; [|done..].
      apply (lower_char_letter c4) in E4 as [? _]; [|done..].
      rewrite !elem_of_cons, elem_of_nil. naive_solver. }
  destruct (splitext_ext_cases (g' ++ [dot; c2; c3; c4])) as [-> | ->].
  - by_compute.
  - change (g' ++ [dot; c2; c3; c4]) with (g' ++ dot :: [c2; c3; c4]).
    rewrite rfind_last by done. rewrite Nat2Z.id, drop_app_length, El.
    by_compute.
Qed.

(** ** Traces of the operations *)

Lemma extends_refl P w : extends P w w.
Proof. exists []. by rewrite app_nil_r. Qed.

Lemma extends_trans P w1 w2 w3 :
  extends P w1 w2 → extends P w2 w3 → extends P w1 w3.
Proof.
  intros (cs1 & E1 & F1) (cs2 & E2 & F2). exists (cs1 ++ cs2).
  split; [by rewrite E2, E1, app_assoc | by apply Forall_app].
Qed.

Lemma extends_weaken (P Q : call → Prop) w w' :
  (∀ c, P c → Q c) → extends P w w' → extends Q w w'.
Proof.
  intros H (cs & E & F). exists cs. split; [done|].
  eapply Forall_impl; eauto.
Qed.

Lemma syscall_extends {A} (P : call → Prop) (c : call)
    (f : gmap str node → A * gmap str node) (w : world) :
  P c → extends P w (syscall c f w).2.
Proof.
  intros H. unfold syscall. destruct (f (fs w)) as [r m]. exists [c].
  split; [done | by constructor].
Qed.

Lemma bindE_extends {A B} (P : call → Prop) (m : M A) (k : A → M B) w :
  extends P w (m w).2 →
  (∀ x w1, extends P w1 (k x w1).2) →
  extends P w (bindE m k w).2.
Proof.
  intros H1 H2. unfold bindE, bind. destruct (m w) as [[e|x] w1]; simpl in *.
  - done.
  - eapply extends_trans; [exact H1 | apply H2].
Qed.

Lemma scan_and_match_files_extends folder w :
  extends quiet w (scan_and_match_files folder w).2.
Proof.
  rewrite scan_and_match_files_run.
  destruct (fs w !! folder) as [[c|]|]; eexists; (split; [reflexivity|]);
    by repeat constructor.
Qed.

Lemma rename_files_renames folder infos w :
  ∃ cs, trace (rename_files folder infos w).2 = trace w ++ cs
        ∧ omap move_of cs = []
        ∧ omap rename_of cs
          = (rename_plan folder rename_start_index infos).1
            ++ (rename_plan folder rename_start_index infos).2.
Proof.
  eexists. split; [apply rename_files_trace|].
  rewrite <- fmap_app.
  generalize ((rename_plan folder rename_start_index infos).1
              ++ (rename_plan folder rename_start_index infos).2).
  intros l. split; induction l as [|[a b] l IH]; simpl; [done| |done|].
  - exact IH.
  - f_equal. exact IH.
Qed.

Lemma standardize_loop_extends infos r w :
  extends quiet w (standardize_loop infos r w).2.
Proof.
  revert r w. induction infos as [|fi infos IH]; intros r w; simpl.
  - apply extends_refl.
  - destruct (truthy (text_path fi)) as [t|]; [|apply IH].
    unfold bind at 1.
    pose proof (syscall_extends quiet (PathExists t)
                  (λ m, (bool_decide (is_Some (m !! t)), m)) w I) as H1.
    fold (os_path_exists t) in H1.
    destruct (os_path_exists t w) as [[] w1]; simpl in *;
      (eapply extends_trans; [exact H1|]); [|apply IH].
    unfold bind at 1.
    match goal with
    | |- context [bindE ?m ?k w1] =>
        assert (H2 : extends quiet w1 (bindE m k w1).2);
        [|destruct (bindE m k w1) as [rr w2]]
    end.
    { apply bindE_extends; [by apply syscall_extends|].
      intros x w'. by apply syscall_extends. }
    simpl in *. eapply extends_trans; [exact H2 | apply IH].
Qed.

Lemma standardize_tags_extends folder infos w :
  extends quiet w (standardize_tags folder infos w).2.
Proof.
  unfold standardize_tags, bind, ret.
  pose proof (standardize_loop_extends infos new_result w) as H.
  by destruct (standardize_loop infos new_result w) as [r w1].
Qed.

Lemma free_dest_extends fuel original dest counter w :
  extends quiet w (free_dest fuel original dest counter w).2.
Proof.
  revert dest counter w.
  induction fuel as [|fuel IH]; intros dest counter w; simpl.
  - apply extends_refl.
  - unfold bind.
    pose proof (syscall_extends quiet (PathExists dest)
                  (λ m, (bool_decide (is_Some (m !! dest)), m)) w I) as H1.
    fold (os_path_exists dest) in H1.
    destruct (os_path_exists dest w) as [[] w1]; simpl in *; [|done].
    destruct (splitext original) as [name ext].
    eapply extends_trans; [exact H1 | apply IH].
Qed.

Lemma move_unpaired_extends files d file w :
  file ∈ files → extends (moves_only files) w (move_unpaired d file w).2.
Proof.
  intros Hf. unfold move_unpaired, bind, get_fs.
  match goal with
  | |- context [free_dest ?n ?o ?p ?c w] =>
      pose proof (free_dest_extends n o p c w) as H1;
      destruct (free_dest n o p c w) as [dest w1]
  end.
  simpl in *. eapply extends_trans.
  - eapply extends_weaken; [|exact H1]. by intros [].
  - by apply syscall_extends.
Qed.

Lemma move_loop_extends files d l r w :
  (∀ f, f ∈ l → f ∈ files) →
  extends (moves_only files) w (move_loop d l r w).2.
Proof.
  revert r w. induction l as [|f l IH]; intros r w Hl; simpl.
  - apply extends_refl.
  - unfold bind at 1.
    pose proof (move_unpaired_extends files d f w (Hl f ltac:(left))) as H1.
    destruct (move_unpaired d f w) as [rr w1]. simpl in *.
    eapply extends_trans; [exact H1|]. apply IH. intros; apply Hl. by right.
Qed.

Lemma handle_unpaired_files_extends folder files w :
  extends (moves_only files) w (handle_unpaired_files folder files w).2.
Proof.
  unfold handle_unpaired_files.
  destruct files as [|f rest]; [apply extends_refl|].
  change (negb create_unpaired_folder) with false. cbv iota.
  generalize (f :: rest). intros l. unfold bind, ret.
  match goal with
  | |- context [os_makedirs ?p w] =>
      assert (H1 : extends (moves_only l) w (os_makedirs p w).2)
        by (by apply syscall_extends);
      destruct (os_makedirs p w) as [[e|[]] w1]
  end; simpl in *; [done|].
  match goal with
  | |- context [move_loop ?d l ?r w1] =>
      pose proof (move_loop_extends l d l r w1 (λ _ H, H)) as H2;
      destruct (move_loop d l r w1) as [r2 w2]
  end.
  simpl in *. eapply extends_trans; eauto.
Qed.

(** ** What the pipeline hands to the unpaired handler and to the renamer *)

Lemma text_path_is_paired folder texts img t :
  text_path (match_image folder texts img) = Some t →
  is_paired (match_image folder texts img) = true.
Proof. unfold match_image. by repeat destruct (decide _). Qed.

(** The paths in [unpaired_files] are captions of the folder that no record
    carries. *)
Lemma scan_unpaired_files folder files p :
  (∀ n, n ∈ files → n ≠ [] ∧ slash ∉ n) →
  p ∈ (scan_lists folder files).2 →
  ∃ t, p = os_path_join folder t ∧ t ∈ files ∧ is_text t
       ∧ ∀ fi, fi ∈ (scan_lists folder files).1.1 → text_path fi ≠ Some p.
Proof.
  intros Hnames. unfold scan_lists. cbn [fst snd].
  intros (t & -> & Ht)%list_elem_of_fmap.
  apply list_elem_of_filter in Ht as [Hused Ht].
  apply elem_of_texts in Ht as [Ht Htxt].
  exists t. repeat split; [done..|].
  intros fi Hfi Hp. apply Hused. apply elem_of_list_to_set.
  apply list_elem_of_omap. exists fi. split; [done|].
  apply list_elem_of_fmap in Hfi as (img & -> & _).
  rewrite (text_path_is_paired _ _ _ _ Hp), Hp. simpl.
  rewrite basename_join; [done|]. by apply Hnames.
Qed.

Lemma os_path_join_nonempty d n : n ≠ [] → slash ∉ n → os_path_join d n ≠ [].
Proof.
  intros Hne Hs. rewrite os_path_join_name by done.
  by intros [_ ?]%app_eq_nil.
Qed.

Lemma omap_quiet (f : call → option (str * str)) cs :
  (∀ c, quiet c → f c = None) → Forall quiet cs → omap f cs = [].
Proof.
  intros Hf. induction 1 as [|c cs Hc _ IH]; simpl; [done|].
  by rewrite (Hf c Hc).
Qed.

Lemma move_of_quiet c : quiet c → move_of c = None.
Proof. by destruct c. Qed.

Lemma rename_of_quiet c : quiet c → rename_of c = None.
Proof. by destruct c. Qed.

Lemma rename_of_moves_only files cs :
  Forall (moves_only files) cs → omap rename_of cs = [].
Proof. induction 1 as [|[] cs Hc _ IH]; simpl; done. Qed.

(** The calls of the pipeline after a first scan that succeeds: those of the
    scan, of the unpaired handler, of the renamer, and of the second scan and
    the standardisation. *)
Lemma auto_post_process_trace folder w infos unpaired :
  (scan_and_match_files folder w).1 = inr (infos, unpaired) →
  ∃ cs1 cs2 cs3 cs4,
    trace (auto_post_process folder w).2 = trace w ++ cs1 ++ cs2 ++ cs3 ++ cs4
    ∧ Forall quiet cs1
    ∧ Forall (moves_only unpaired) cs2
    ∧ omap move_of cs3 = []
    ∧ omap rename_of cs3
      = (rename_plan folder rename_start_index infos).1
        ++ (rename_plan folder rename_start_index infos).2
    ∧ Forall quiet cs4.
Proof.
  intros Hscan. unfold auto_post_process, bind, ret.
  pose proof (scan_and_match_files_extends folder w) as (cs1 & E1 & F1).
  destruct (scan_and_match_files folder w) as [r w1]. simpl in Hscan, E1.
  subst r.
  pose proof (handle_unpaired_files_extends folder unpaired w1) as (cs2 & E2 & F2).
  destruct (handle_unpaired_files folder unpaired w1) as [r1 w2]. simpl in E2.
  pose proof (rename_files_renames folder infos w2) as (cs3 & E3 & F3 & R3).
  destruct (rename_files folder infos w2) as [r2 w3]. simpl in E3.
  pose proof (scan_and_match_files_extends folder w3) as (cs4 & E4 & F4).
  destruct (scan_and_match_files folder w3) as [[e|[infos' unp']] w4];
    simpl in E4 |- *.
  - exists cs1, cs2, cs3, cs4. split; [|done].
    rewrite E4, E3, E2, E1. by rewrite <- !app_assoc.
  - pose proof (standardize_tags_extends folder infos' w4) as (cs5 & E5 & F5).
    destruct (standardize_tags folder infos' w4) as [r3 w5]. simpl in E5 |- *.
    exists cs1, cs2, cs3, (cs4 ++ cs5). split.
    + rewrite E5, E4, E3, E2, E1. by rewrite <- !app_assoc.
    + repeat split; [done..|]. by apply Forall_app.
Qed.

(** ** The destination search of the unpaired handler *)

Lemma os_path_exists_run p w :
  os_path_exists p w
  = (bool_decide (is_Some (fs w !! p)), World (fs w) (trace w ++ [PathExists p])).
Proof. done. Qed.

Lemma str_of_nat_inj a b : str_of_nat a = str_of_nat b → a = b.
Proof.
  unfold str_of_nat, lit. intros H.
  apply (f_equal string_of_list_ascii) in H.
  rewrite !string_of_list_ascii_of_string in H. by apply (inj pretty).
Qed.

Lemma dest_at_inj original i j :
  dest_at original i = dest_at original j → i = j.
Proof.
  assert (H0 : ∀ k, original ≠ dest_at original (S k)).
  { intros k H. unfold dest_at in H. rewrite <- (splitext_app original) in H at 1.
    apply app_inv_head in H. apply (f_equal length) in H.
    rewrite !length_app in H. simpl in H. lia. }
  destruct i as [|i], j as [|j]; intros H.
  - done.
  - by apply H0 in H.
  - symmetry in H. by apply H0 in H.
  - unfold dest_at in H. apply app_inv_head in H.
    injection H as H. apply app_inv_tail in H. by apply str_of_nat_inj.
Qed.

(** The search keeps the file system, and it ends at a path that does not
    exist unless all the [fuel] paths it tried exist. *)
Lemma free_dest_spec fuel original k w :
  let r := free_dest fuel original (dest_at original k) (k + 1) w in
  fs r.2 = fs w
  ∧ (∃ j, r.1 = dest_at original j)
  ∧ (fs w !! r.1 = None
     ∨ ∀ j, k ≤ j < k + fuel → is_Some (fs w !! dest_at original j)).
Proof.
  revert k w. induction fuel as [|fuel IH]; intros k w; cbn [free_dest].
  - split; [done|]. split; [by eexists|]. right. intros j Hj. lia.
  - unfold bind. rewrite os_path_exists_run.
    destruct (bool_decide (is_Some (fs w !! dest_at original k))) eqn:E.
    + apply bool_decide_eq_true in E.
      set (w1 := World (fs w) (trace w ++ [PathExists (dest_at original k)])).
      destruct (IH (S k) w1) as (H1 & H2 & H3).
      change (fs w1) with (fs w) in H1, H3.
      assert (Ed : dest_at original (S k)
                   = (splitext original).1 ++ lit "_" ++ str_of_nat (k + 1)
                       ++ (splitext original).2)
        by (rewrite Nat.add_1_r; done).
      rewrite Ed in H1, H2, H3.
      replace (S k + 1) with (k + 1 + 1) in H1, H2, H3 by lia.
      destruct (splitext original) as [name ext].
      cbn [fst snd] in *. split; [done|]. split; [done|].
      destruct H3 as [H3|H3]; [by left | right].
      intros j Hj. destruct (decide (j = k)) as [->|]; [done|].
      apply H3. lia.
    + apply bool_decide_eq_false in E. simpl. split; [done|].
      split; [by eexists|]. left.
      by destruct (fs w !! dest_at original k); [destruct E|].
Qed.

(** With one unit of fuel more than the file system has entries the search
    never runs out: it ends because the destination does not exist. *)
Lemma free_dest_enough_fuel original w :
  let r := free_dest (S (size (fs w))) original original 1 w in
  fs w !! r.1 = None ∧ fs r.2 = fs w ∧ ∃ j, r.1 = dest_at original j.
Proof.
  destruct (free_dest_spec (S (size (fs w))) original 0 w) as (H1 & H2 & H3).
  simpl in *. split; [|done]. destruct H3 as [H3|H3]; [done|]. exfalso.
  set (l := dest_at original <$> seq 0 (S (size (fs w)))).
  assert (Hnd : NoDup l).
  { apply NoDup_fmap_2_strong; [|apply NoDup_seq].
    intros ? ? _ _. apply dest_at_inj. }
  assert (Hsub : (list_to_set l : gset str) ⊆ dom (fs w)).
  { intros p (j & -> & Hj%elem_of_seq)%elem_of_list_to_set%list_elem_of_fmap.
    apply elem_of_dom, H3. lia. }
  apply subseteq_size in Hsub.
  rewrite size_list_to_set, size_dom in Hsub by done.
  unfold l in Hsub. rewrite length_fmap, length_seq in Hsub. lia.
Qed.

(** ** What a move leaves alone *)

Lemma startswith_true s pre : startswith s pre = true ↔ ∃ r, s = pre ++ r.
Proof.
  unfold startswith. rewrite bool_decide_eq_true. split.
  - intros H. exists (drop (length pre) s). rewrite <- H at 1.
    by rewrite take_drop.
  - intros [r ->]. apply take_app_length.
Qed.

Lemma at_or_below_true d p :
  at_or_below d p = true ↔ p = d ∨ ∃ r, p = d ++ slash :: r.
Proof.
  unfold at_or_below. rewrite orb_true_iff, bool_decide_eq_true, startswith_true.
  split; (intros [H|[r H]]; [by left | right; exists r]);
    by rewrite H, <- ?app_assoc.
Qed.

Lemma move_tree_frame (src dst : str) (m : gmap str node) (k : str) :
  at_or_below src k = false → at_or_below dst k = false →
  move_tree src dst m !! k = m !! k.
Proof.
  intros Hs Hd. unfold move_tree. rewrite lookup_union_r.
  - destruct (m !! k) as [n|] eqn:E.
    + by apply map_lookup_filter_Some_2.
    + apply map_lookup_filter_None_2. by left.
  - apply not_elem_of_list_to_map_1.
    rewrite <- list_fmap_compose.
    intros ([p n] & -> & [Hp _]%list_elem_of_filter)%list_elem_of_fmap.
    simpl in *. apply not_true_iff_false in Hd. apply Hd.
    apply at_or_below_true. apply at_or_below_true in Hp as [->|[r ->]].
    + left. by rewrite drop_all, app_nil_r.
    + right. exists r. by rewrite drop_app_length.
Qed.

Lemma rename_fs_frame (c : call) (src dst : str) (m : gmap str node)
    (k : str) :
  at_or_below src k = false → at_or_below dst k = false →
  (rename_fs c src dst m).2 !! k = m !! k.
Proof.
  intros Hs Hd. unfold rename_fs.
  destruct (m !! src) as [[content|]|]; [| |done];
    (destruct (decide (src = dst)); [done|]);
    (destruct (_ && _); [done|]);
    destruct (m !! dst) as [[?|]|]; simpl; try done;
    try (by apply move_tree_frame).
  destruct (decide (listing m dst = [])); simpl; [|done].
  by apply move_tree_frame.
Qed.

(** The stem of a path keeps the directory part of the path. *)
Lemma splitext_stem_dir d b :
  slash ∉ b → ∃ s, (splitext (d ++ slash :: b)).1 = d ++ slash :: s.
Proof.
  intros Hb. unfold splitext. rewrite (rfind_last slash d b Hb).
  destruct (decide _) as [Hgt|]; [|by eexists].
  destruct (has_non_dot _); [|by eexists]. cbn [fst].
  pose proof (rfind_bounds dot (d ++ slash :: b)) as Hbd.
  exists (take (Z.to_nat (rfind dot (d ++ slash :: b)) - S (length d)) b).
  change (d ++ slash :: b) with (d ++ [slash] ++ b) at 2. rewrite app_assoc.
  rewrite take_app_ge by (rewrite length_app; simpl; lia).
  rewrite length_app. simpl. rewrite <- app_assoc. simpl.
  do 3 f_equal. lia.
Qed.

Lemma dest_at_dir d b j :
  slash ∉ b → ∃ s, dest_at (d ++ slash :: b) j = d ++ slash :: s.
Proof.
  intros Hb. destruct j as [|j]; [by eexists|]. unfold dest_at.
  destruct (splitext_stem_dir d b Hb) as [s ->].
  eexists. rewrite <- app_assoc. reflexivity.
Qed.

(** One file of the handler: a path is kept when it is not at or below the
    file moved and not below the directory the file goes to. *)
Lemma move_unpaired_frame d file w k :
  d ≠ [] → endswith d [slash] = false →
  at_or_below file k = false → at_or_below d k = false →
  fs (move_unpaired d file w).2 !! k = fs w !! k.
Proof.
  intros Hd1 Hd2 Hfile Hk. unfold move_unpaired, bind, get_fs.
  assert (Eo : os_path_join d (basename file) = d ++ slash :: basename file).
  { unfold os_path_join.
    rewrite startswith_slash_false by apply basename_no_slash.
    rewrite bool_decide_eq_false_2 by done. by rewrite Hd2. }
  rewrite Eo.
  destruct (free_dest_enough_fuel (d ++ slash :: basename file) w)
    as (_ & Hfs & j & Hj).
  destruct (free_dest _ _ _ _ w) as [dest w1]. simpl in Hfs, Hj.
  unfold shutil_move, syscall.
  pose proof (rename_fs_frame (Move file dest) file dest (fs w1) k Hfile) as H.
  destruct (rename_fs (Move file dest) file dest (fs w1)) as [r m].
  simpl in *. rewrite <- Hfs. apply H.
  destruct (dest_at_dir d (basename file) j (basename_no_slash file)) as [s Es].
  rewrite Hj, Es. apply not_true_iff_false. intros Hb.
  apply not_true_iff_false in Hk. apply Hk. apply at_or_below_true. right.
  apply at_or_below_true in Hb as [->|[r' ->]]; eexists; [done|].
  rewrite <- app_assoc. reflexivity.
Qed.

Lemma move_loop_frame d files r w k :
  d ≠ [] → endswith d [slash] = false →
  (∀ f, f ∈ files → at_or_below f k = false) → at_or_below d k = false →
  fs (move_loop d files r w).2 !! k = fs w !! k.
Proof.
  intros Hd1 Hd2 Hfiles Hk. revert r w.
  induction files as [|f files IH]; intros r w; simpl; [done|].
  unfold bind at 1.
  pose proof (move_unpaired_frame d f w k Hd1 Hd2
                (Hfiles f ltac:(left)) Hk) as H.
  destruct (move_unpaired d f w) as [rr w1]. simpl in *.
  rewrite IH; [done|]. intros; apply Hfiles. by right.
Qed.

Lemma unpaired_folder_shape folder :
  let d := os_path_join folder (lit "unpaired") in
  d = os_path_join folder [] ++ lit "unpaired"
  ∧ d ≠ [] ∧ endswith d [slash] = false.
Proof.
  intros d.
  assert (E : d = os_path_join folder [] ++ lit "unpaired").
  { apply os_path_join_name.
    exact (bool_decide_unpack (slash ∉ lit "unpaired") I). }
  split; [done|]. rewrite E. split.
  - by intros [_ ?]%app_eq_nil.
  - unfold endswith. apply bool_decide_eq_false. rewrite length_app.
    simpl length.
    replace (length (os_path_join folder []) + 8 - 1)
      with (length (os_path_join folder []) + 7) by lia.
    rewrite drop_app_add. done.
Qed.

(** The handler keeps every path that is not at or below one of the files it
    is given and not at or below the [unpaired] folder. *)
Lemma handle_unpaired_files_frame folder files w k :
  (∀ f, f ∈ files → at_or_below f k = false) →
  at_or_below (os_path_join folder (lit "unpaired")) k = false →
  fs (handle_unpaired_files folder files w).2 !! k = fs w !! k.
Proof.
  intros Hfiles Hk. unfold handle_unpaired_files.
  destruct files as [|f rest]; [done|].
  change (negb create_unpaired_folder) with false. cbv iota.
  revert Hfiles. generalize (f :: rest). intros l Hfiles.
  destruct (unpaired_folder_shape folder) as (_ & Hd1 & Hd2).
  set (d := os_path_join folder (lit "unpaired")) in *.
  unfold bind, ret, os_makedirs, syscall.
  assert (Hkd : k ≠ d).
  { intros ->. unfold at_or_below in Hk.
    by rewrite bool_decide_eq_true_2 in Hk. }
  destruct (fs w !! d) as [[c|]|] eqn:E; simpl; [done| |].
  - match goal with
    | |- context [move_loop d l ?r ?w1] =>
        pose proof (move_loop_frame d l r w1 k Hd1 Hd2 Hfiles Hk) as H;
        destruct (move_loop d l r w1) as [r2 w2]
    end. done.
  - match goal with
    | |- context [move_loop d l ?r ?w1] =>
        pose proof (move_loop_frame d l r w1 k Hd1 Hd2 Hfiles Hk) as H;
        destruct (move_loop d l r w1) as [r2 w2]
    end. simpl in *. by rewrite H, lookup_insert_ne.
Qed.

(** In the automatic pipeline the unpaired handler gets caption files that
    no record carries, and only those are moved.  An image is not among them
    and is never the source of a move: it is in the folder, unchanged, after
    the handler; the renamer issues for it the renames to the temporary and
    then to the numeric name of its position. *)
Lemma pipeline_moves_captions
    (folder : str) (w : world) (infos : list FileInfo) (unpaired : list str) :
  (scan_and_match_files folder w).1 = inr (infos, unpaired) →
  (∀ p, p ∈ unpaired →
     ∃ t, p = os_path_join folder t ∧ t ∈ listing (fs w) folder ∧ is_text t
          ∧ ∀ fi, fi ∈ infos → text_path fi ≠ Some p)
  ∧ ∃ cs, trace (auto_post_process folder w).2 = trace w ++ cs
      ∧ (∀ src dst, Move src dst ∈ cs → src ∈ unpaired)
      ∧ omap rename_of cs
        = (rename_plan folder rename_start_index infos).1
          ++ (rename_plan folder rename_start_index infos).2
      ∧ ∀ i fi, infos !! i = Some fi →
          ∃ img, image_path fi = Some img
            ∧ img ∉ unpaired
            ∧ (∀ dst, Move img dst ∉ cs)
            ∧ is_Some (fs w !! img)
            ∧ fs (handle_unpaired_files folder unpaired
                    (scan_and_match_files folder w).2).2 !! img
              = fs w !! img
            ∧ let ext := (splitext img).2 in
              let temp :=
                os_path_join folder (lit "temp_" ++ str_of_nat (1 + i) ++ ext) in
              Rename img temp ∈ cs
              ∧ Rename temp (os_path_join folder (str_of_nat (1 + i) ++ ext))
                ∈ cs.
Proof.
  intros Hscan. pose proof Hscan as [Ei Eu]%scan_result_lists.
  set (files := listing (fs w) folder) in *.
  assert (Hnames : ∀ n, n ∈ files → n ≠ [] ∧ slash ∉ n)
    by (intros n; apply listing_names).
  assert (Hunp : ∀ p, p ∈ unpaired →
            ∃ t, p = os_path_join folder t ∧ t ∈ files ∧ is_text t
                 ∧ ∀ fi, fi ∈ infos → text_path fi ≠ Some p).
  { intros p Hp. subst. by apply scan_unpaired_files. }
  split; [exact Hunp|].
  destruct (auto_post_process_trace folder w infos unpaired Hscan)
    as (cs1 & cs2 & cs3 & cs4 & E & F1 & F2 & M3 & R3 & F4).
  exists (cs1 ++ cs2 ++ cs3 ++ cs4). split; [exact E|].
  assert (Hmoves : ∀ src dst,
            Move src dst ∈ cs1 ++ cs2 ++ cs3 ++ cs4 → src ∈ unpaired).
  { intros src dst. rewrite !elem_of_app. rewrite !Forall_forall in *.
    intros [H|[H|[H|H]]].
    - destruct (F1 _ H).
    - exact (F2 _ H).
    - assert (H' : (src, dst) ∈ omap move_of cs3)
        by (apply list_elem_of_omap; by exists (Move src dst)).
      rewrite M3 in H'. by apply elem_of_nil in H'.
    - destruct (F4 _ H). }
  assert (Hrenames : omap rename_of (cs1 ++ cs2 ++ cs3 ++ cs4)
            = (rename_plan folder rename_start_index infos).1
              ++ (rename_plan folder rename_start_index infos).2).
  { rewrite !omap_app, R3.
    rewrite (omap_quiet rename_of cs1), (omap_quiet rename_of cs4)
      by (done || apply rename_of_quiet).
    rewrite (rename_of_moves_only unpaired cs2) by done.
    by rewrite app_nil_r. }
  split; [exact Hmoves|]. split; [exact Hrenames|].
  intros i fi Hi.
  assert (Hfi : fi ∈ infos) by (by eapply list_elem_of_lookup_2).
  pose proof Hfi as Hfi'. rewrite Ei, scan_infos in Hfi'.
  apply list_elem_of_fmap in Hfi' as (name & Efi & Hname).
  apply elem_of_images in Hname as [Hname Himage].
  destruct (Hnames name Hname) as [Hne Hsl].
  exists (os_path_join folder name).
  assert (Hpath : image_path fi = Some (os_path_join folder name))
    by (rewrite Efi; apply image_path_match_image).
  assert (Hnot : os_path_join folder name ∉ unpaired).
  { intros (t & Et & Ht & Htxt & _)%Hunp.
    apply os_path_join_inj in Et as ->; [|done|by apply Hnames].
    by apply (is_text_not_image t). }
  split; [done|]. split; [done|]. split; [by intros dst ?%Hmoves|].
  split; [by apply elem_of_listing in Hname as (_ & _ & ?)|].
  split.
  { rewrite handle_unpaired_files_frame.
    - rewrite scan_and_match_files_run. by destruct (fs w !! folder) as [[?|]|].
    - intros f (t & -> & Ht & Htxt & _)%Hunp.
      destruct (Hnames t Ht) as [_ Hst].
      apply not_true_iff_false. intros [E'|[r E']]%at_or_below_true.
      + apply os_path_join_inj in E' as ->; [|done..].
        by apply (is_text_not_image t).
      + rewrite (os_path_join_name folder name),
          (os_path_join_name folder t), <- app_assoc in E' by done.
        apply app_inv_head in E'. apply Hsl. rewrite E'.
        apply elem_of_app. right. left.
    - destruct (unpaired_folder_shape folder) as (Ed & _).
      apply not_true_iff_false. intros [E'|[r E']]%at_or_below_true;
        rewrite Ed, (os_path_join_name folder name) in E' by done.
      + apply app_inv_head in E'. subst name. revert Himage.
        exact (bool_decide_unpack (¬ is_image (lit "unpaired")) I).
      + rewrite <- app_assoc in E'. apply app_inv_head in E'.
        apply Hsl. rewrite E'. apply elem_of_app. right. left. }
  intros ext temp.
  assert (Htruthy : truthy (image_path fi) = Some (os_path_join folder name)).
  { rewrite Hpath. pose proof (os_path_join_nonempty folder name Hne Hsl).
    by destruct (os_path_join folder name). }
  destruct (rename_plan_record folder infos i fi Hi) as [Himg _].
  destruct (Himg _ Htruthy) as [H1 H2].
  assert (Hin : ∀ a b,
            (a, b) ∈ (rename_plan folder rename_start_index infos).1
                     ++ (rename_plan folder rename_start_index infos).2 →
            Rename a b ∈ cs1 ++ cs2 ++ cs3 ++ cs4).
  { intros a b. rewrite <- Hrenames.
    intros ([] & Hc & [= <- <-])%list_elem_of_omap. done. }
  split; apply Hin, elem_of_app; [by left | by right].
Qed.

(** ** The extension of a caption found by the scanner *)

Lemma has_non_dot_app a b : has_non_dot a = true → has_non_dot (a ++ b) = true.
Proof.
  induction a as [|c a IH]; simpl; [done|]. by destruct (decide (c ≠ dot)).
Qed.

Lemma empty_not_image_extension : [] ∉ image_extensions.
Proof. by_compute. Qed.

(** The stem of an image name has a character that is not a dot. *)
Lemma is_image_stem img :
  slash ∉ img → is_image img → has_non_dot (splitext img).1 = true.
Proof.
  intros Hs. unfold is_image, splitext. rewrite (rfind_absent slash img Hs).
  destruct (decide _); [|by intros ?%empty_not_image_extension].
  change (-1 + 1)%Z with 0%Z. rewrite Z.sub_0_r. simpl drop.
  destruct (has_non_dot _) eqn:E; [done|].
  by intros ?%empty_not_image_extension.
Qed.

Lemma splitext_txt P X :
  P = [] ∨ (∃ d, P = d ++ [slash]) → slash ∉ X → has_non_dot X = true →
  splitext (P ++ X ++ lit ".txt") = (P ++ X, lit ".txt").
Proof.
  intros HP HX Hnd. unfold splitext.
  assert (Edot : rfind dot (P ++ X ++ lit ".txt")
                 = Z.of_nat (length (P ++ X))).
  { rewrite app_assoc. change (lit ".txt") with (dot :: lit "txt").
    apply rfind_last. exact (bool_decide_unpack (dot ∉ lit "txt") I). }
  assert (Hno : slash ∉ X ++ lit ".txt") by (by apply caption_name_no_slash).
  assert (Esep : rfind slash (P ++ X ++ lit ".txt") = (Z.of_nat (length P) - 1)%Z).
  { destruct HP as [->|[d ->]].
    - simpl. by rewrite rfind_absent.
    - rewrite <- app_assoc. simpl. rewrite rfind_last by done.
      rewrite length_app. simpl. lia. }
  rewrite Edot, Esep, length_app.
  rewrite decide_True by lia.
  replace (Z.to_nat (Z.of_nat (length P) - 1 + 1)) with (length P) by lia.
  replace (Z.to_nat (Z.of_nat (length P + length X)
                     - (Z.of_nat (length P) - 1 + 1)))
    with (length X) by lia.
  rewrite drop_app_length, take_app_length, Hnd.
  rewrite Nat2Z.id. rewrite app_assoc, <- length_app.
  by rewrite take_app_length, drop_app_length.
Qed.

(** The caption of a record that the scanner returns has the extension
    [.txt]: for these records the fixed extension of the renamer is the
    caption's own. *)
Lemma scan_caption_extension folder w infos unpaired fi t :
  (scan_and_match_files folder w).1 = inr (infos, unpaired) →
  fi ∈ infos → text_path fi = Some t → (splitext t).2 = lit ".txt".
Proof.
  intros [-> _]%scan_result_lists Hfi Ht.
  set (files := listing (fs w) folder) in *.
  rewrite scan_infos in Hfi.
  apply list_elem_of_fmap in Hfi as (img & -> & Himg).
  apply elem_of_images in Himg as [Himg Himage].
  apply listing_names in Himg as [_ Hs].
  pose proof (is_image_stem img Hs Himage) as Hstem.
  assert (Hpre : os_path_join folder [] = []
                 ∨ ∃ d, os_path_join folder [] = d ++ [slash])
    by apply os_path_join_prefix.
  apply text_path_match_image in Ht as [-> | ->];
    rewrite os_path_join_name by (apply caption_name_no_slash;
      first [done | by intros ?%splitext_stem_elem]);
    rewrite splitext_txt; try done.
  - by intros ?%splitext_stem_elem.
  - rewrite <- (splitext_app img). by apply has_non_dot_app.
Qed.

(** * Further properties of the tag normaliser *)

(** The character before the position after [a], when [prev] is the one
    before [a]. *)
Lemma all_escaped_app p prev a b :
  all_escaped p prev a →
  all_escaped p (match last a with Some c => Some c | None => prev end) b →
  all_escaped p prev (a ++ b).
Proof.
  revert prev. induction a as [|c a IH]; intros prev; simpl; [done|].
  intros [Hc Ha] Hb. split; [done|]. apply IH; [done|].
  destruct a as [|c' a]; [done|].
  change (last (c :: c' :: a)) with (last (c' :: a)) in Hb.
  destruct (last (c' :: a)) eqn:El; [exact Hb|]. by apply last_None in El.
Qed.

Lemma all_escaped_join p U :
  p ≠ comma → p ≠ space →
  Forall (all_escaped p None) U → all_escaped p None (join (lit ", ") U).
Proof.
  intros Hc Hs. induction 1 as [|t U Ht HU IH]; [done|].
  destruct U as [|u U]; [done|]. rewrite join_cons2.
  apply all_escaped_app; [done|].
  assert (H : ∀ prev, all_escaped p prev (lit ", " ++ join (lit ", ") (u :: U))).
  { intros prev. simpl.
    split; [intros E; exfalso; apply Hc; symmetry; exact E|].
    split; [intros E; exfalso; apply Hs; symmetry; exact E|].
    eapply all_escaped_prev; [|exact IH]. done. }
  apply H.
Qed.

Lemma join_last_tag sep t U :
  ∃ a u, u ∈ t :: U ∧ join sep (t :: U) = a ++ u.
Proof.
  revert t. induction U as [|x U IH]; intros t.
  - exists [], t. split; [left | done].
  - destruct (IH x) as (a & u & Hu & E). exists (t ++ sep ++ a), u.
    split; [by right|]. rewrite join_cons2, E. by rewrite <- !app_assoc.
Qed.

Lemma canonical_tag_last t :
  canonical_tag t → ∃ c s, reverse t = c :: s ∧ isspace c = false.
Proof.
  intros Ht. destruct (reverse t) as [|c s] eqn:E.
  - apply (f_equal reverse) in E. rewrite reverse_involutive in E.
    by destruct (canon_nonempty t Ht).
  - exists c, s. split; [done|].
    destruct (strip_stripped t) as [_ H]. rewrite (canon_stripped t Ht), E in H.
    simpl in H. destruct (isspace c) eqn:Ec; [|done].
    destruct (lstrip_decomp s) as (a & Ea & _). rewrite H in Ea.
    apply (f_equal length) in Ea. rewrite length_app in Ea. simpl in Ea. lia.
Qed.

Lemma join_canonical_stripped U :
  Forall canonical_tag U → strip (join (lit ", ") U) = join (lit ", ") U.
Proof.
  intros HU. destruct U as [|t U]; [done|]. apply strip_fixed.
  - apply Forall_inv in HU as (c & s & -> & Hc)%canonical_tag_head.
    apply lstrip_fixed. intros c' s'. destruct U; simpl; by intros [= <- _].
  - destruct (join_last_tag (lit ", ") t U) as (a & u & Hu & ->).
    rewrite Forall_forall in HU.
    destruct (canonical_tag_last u (HU u Hu)) as (c & s & E & Hc).
    rewrite reverse_app, E. apply lstrip_fixed.
    simpl. by intros c' s' [= <- _].
Qed.

(** Reading a canonical text back as a comma-separated list gives its tags. *)
Lemma split_tags_join U :
  Forall canonical_tag U →
  strip_nonempty (split comma (join (lit ", ") U)) = U.
Proof.
  intros HU. destruct U as [|t U]; [done|].
  pose proof (tags_of_canonical_line (t :: U) HU ltac:(done)) as H.
  unfold tags_of_line in H. destruct (decide (comma ∈ _)) as [|Hn]; [done|].
  destruct U as [|u U].
  - simpl. rewrite split_nosep by done. apply strip_nonempty_fixed.
    constructor; [|done]. apply Forall_inv in HU. split; apply HU.
  - exfalso. apply Hn. rewrite join_cons2, !elem_of_app. right; left; left.
Qed.

(** X1. The text returned by [auto_standardize_tags] has no underscore, no
    hyphen and no line break, every parenthesis in it follows a backslash,
    it has no whitespace at either end, and read back as a comma-separated
    list it has no empty and no repeated tag. *)
Theorem auto_standardize_tags_output_format (x : str) :
  let y := auto_standardize_tags x in
  underscore ∉ y ∧ hyphen ∉ y ∧ newline ∉ y
  ∧ all_escaped lparen None y ∧ all_escaped rparen None y
  ∧ strip y = y
  ∧ NoDup (strip_nonempty (split comma y))
  ∧ y = join (lit ", ") (strip_nonempty (split comma y)).
Proof.
  intros y. unfold y.
  destruct (auto_standardize_tags_canonical x) as (U & -> & HU & Hnd).
  assert (Hchar : ∀ c, c ≠ comma → c ≠ space →
            (∀ t, canonical_tag t → c ∉ t) → c ∉ join (lit ", ") U).
  { intros c H1 H2 H3 [?|[?|(t & Ht & Hc)]]%(join_canonical_elem _ _ HU);
      [done..|].
    rewrite Forall_forall in HU. by apply (H3 t (HU t Ht)). }
  rewrite split_tags_join by done.
  split; [apply Hchar; [done..|]; by intros t []|].
  split; [apply Hchar; [done..|]; by intros t []|].
  split; [apply Hchar; [done..|]; by intros t []|].
  split; [apply all_escaped_join; [done..|];
          eapply Forall_impl; [exact HU|]; by intros t []|].
  split; [apply all_escaped_join; [done..|];
          eapply Forall_impl; [exact HU|]; by intros t []|].
  split; [by apply join_canonical_stripped|]. done.
Qed.

Lemma split_join_char sep t l :
  Forall (λ x, sep ∉ x) (t :: l) → split sep (join [sep] (t :: l)) = t :: l.
Proof.
  revert t. induction l as [|u l IH]; intros t H.
  - simpl. apply split_nosep. by inversion H.
  - rewrite join_cons2. inversion H as [|? ? Ht Hl]; subst.
    change (t ++ [sep] ++ join [sep] (u :: l))
      with (t ++ sep :: join [sep] (u :: l)).
    rewrite split_app_sep by done. by rewrite IH.
Qed.

Lemma strip_nonempty_cons t l :
  strip_nonempty (t :: l)
  = (if decide (strip t ≠ []) then [strip t] else []) ++ strip_nonempty l.
Proof.
  unfold strip_nonempty. rewrite filter_cons.
  by destruct (decide (strip t ≠ [])).
Qed.

(** Lines without a comma are one tag each. *)
Lemma tags_of_lines_no_comma l :
  Forall (λ t, comma ∉ t) l → l ≫= tags_of_line = strip_nonempty l.
Proof.
  induction 1 as [|t l Ht _ IH]; [done|].
  rewrite bind_cons, IH, strip_nonempty_cons. f_equal.
  unfold tags_of_line. by rewrite decide_False.
Qed.

(** The guard for blank text agrees with the rest of the function: a blank
    text has no tag. *)
Lemma blank_text_no_tags x :
  strip x = [] → split newline x ≫= tags_of_line = [].
Proof.
  intros H%strip_nil_iff.
  assert (Hl : Forall (λ line, Forall (λ c, isspace c = true) line)
                      (split newline x)).
  { apply Forall_forall. intros line Hline. apply Forall_forall. intros c Hc.
    rewrite Forall_forall in H. apply H. by apply (split_elem newline x line). }
  induction Hl as [|line ls Hline _ IH]; [done|].
  rewrite bind_cons, IH, app_nil_r. unfold tags_of_line.
  rewrite decide_False.
  - rewrite decide_False; [done|]. intros Hne. by apply Hne, strip_nil_iff.
  - intros Hc. rewrite Forall_forall in Hline. by specialize (Hline _ Hc).
Qed.

(** [auto_standardize_tags] without its guard. *)
Lemma auto_standardize_tags_unguarded x :
  auto_standardize_tags x
  = join (lit ", ")
      (unique (strip_nonempty
         ((λ tag, escape rparen (escape lparen tag))
            <$> ((λ tag, str_replace hyphen space
                           (str_replace underscore space tag))
                   <$> (split newline x ≫= tags_of_line))))).
Proof.
  unfold auto_standardize_tags.
  destruct (decide (x = [] ∨ strip x = [])) as [H|]; [|done].
  rewrite blank_text_no_tags; [done|]. by destruct H as [->|].
Qed.

(** X2. Line-separated and comma-separated input are treated alike: a list
    of tags (without comma and line break) gives the same result whether it
    is written one tag per line or on one line with commas. *)
Theorem auto_standardize_tags_delimiters (l : list str) :
  Forall (λ t, comma ∉ t ∧ newline ∉ t) l →
  auto_standardize_tags (join [newline] l)
  = auto_standardize_tags (join [comma] l).
Proof.
  intros H. destruct l as [|t l]; [done|]. destruct l as [|u l]; [done|].
  assert (Hc : Forall (λ x, comma ∉ x) (t :: u :: l))
    by (eapply Forall_impl; [exact H|]; by intros ? []).
  assert (Hn : Forall (λ x, newline ∉ x) (t :: u :: l))
    by (eapply Forall_impl; [exact H|]; by intros ? []).
  rewrite !auto_standardize_tags_unguarded.
  rewrite split_join_char by done.
  rewrite tags_of_lines_no_comma by done.
  rewrite (split_nosep newline (join [comma] (t :: u :: l))).
  - rewrite bind_singleton. unfold tags_of_line at 1. rewrite decide_True.
    + by rewrite split_join_char.
    + rewrite join_cons2, !elem_of_app. right; left; left.
  - intros [Hs|(x & Hx & Hin)]%join_elem.
    + by apply list_elem_of_singleton in Hs.
    + rewrite Forall_forall in Hn. by apply (Hn x).
Qed.

Lemma auto_standardize_tags_delimiters_witness :
  auto_standardize_tags (lit "a_b" ++ [newline] ++ lit "(c)" ++ [newline] ++ lit " d ")
  = auto_standardize_tags (lit "a_b,(c), d ").
Proof.
  apply (auto_standardize_tags_delimiters [lit "a_b"; lit "(c)"; lit " d "]).
  repeat constructor; by_compute.
Defined.

(** * Further properties of clean-and-edit *)

(** Reading back a comma-space join of trimmed, non-empty, comma-free tags
    gives the tags. *)
Lemma split_clean_join U :
  Forall (λ t, strip t = t ∧ t ≠ [] ∧ comma ∉ t) U →
  strip_nonempty (split comma (join (lit ", ") U)) = U.
Proof.
  intros HU. destruct U as [|t U]; [done|].
  rewrite split_join_comma
    by (eapply Forall_impl; [exact HU|]; by intros ? (_ & _ & ?)).
  apply Forall_cons in HU as [(Hs & Hne & _) HU].
  rewrite strip_nonempty_cons, Hs, decide_True by done. simpl. f_equal.
  induction HU as [|u l (Hu & Hune & _) _ IH]; [done|].
  rewrite fmap_cons, strip_nonempty_cons.
  change (space :: u) with ([space] ++ u).
  rewrite strip_spaces_l by (by repeat constructor).
  by rewrite Hu, decide_True, IH.
Qed.

Lemma join_clean_nonblank t U :
  strip t = t → t ≠ [] → strip (join (lit ", ") (t :: U)) ≠ [].
Proof.
  intros Hs Hne. rewrite strip_nil_iff. intros H.
  assert (Ht : Forall (λ c, isspace c = true) t).
  { destruct U; [done|]. rewrite join_cons2 in H.
    by apply Forall_app in H as [? _]. }
  apply strip_nil_iff in Ht. congruence.
Qed.

Lemma split_comma_clean text :
  Forall (λ t, strip t = t ∧ t ≠ [] ∧ comma ∉ t)
         (strip_nonempty (split comma text)).
Proof.
  apply Forall_forall. intros t (x & Hx & -> & Hne)%strip_nonempty_elem.
  split; [apply strip_idemp|]. split; [done|].
  intros H%strip_elem. by apply (split_no_sep comma text x).
Qed.

Lemma blank_text_no_comma_tags x :
  strip x = [] → strip_nonempty (split comma x) = [].
Proof.
  intros H%strip_nil_iff.
  assert (Hl : Forall (λ w, Forall (λ c, isspace c = true) w) (split comma x)).
  { apply Forall_forall. intros w Hw. apply Forall_forall. intros c Hc.
    rewrite Forall_forall in H. apply H. by apply (split_elem comma x w). }
  induction Hl as [|w ws Hw _ IH]; [done|].
  rewrite strip_nonempty_cons, IH, decide_False; [done|].
  intros Hne. by apply Hne, strip_nil_iff.
Qed.

(** X3. A manual edit that removes and adds nothing leaves a standardized
    caption as it is. *)
Theorem clean_and_edit_tags_keeps_standardized
    (x : str) (remove_tags remove_containing add_tags : option pyset) :
  or_empty remove_tags = [] → or_empty remove_containing = [] →
  or_empty add_tags = [] →
  clean_and_edit_tags (auto_standardize_tags x)
                      remove_tags remove_containing add_tags
  = auto_standardize_tags x.
Proof.
  intros E1 E2 E3.
  destruct (auto_standardize_tags_canonical x) as (U & -> & HU & Hnd).
  destruct U as [|t U]; [done|]. unfold clean_and_edit_tags.
  apply Forall_inv in HU as Ht.
  rewrite decide_False.
  2:{ intros [H|H]; [|by apply (strip_join_nonempty t U)].
      apply (strip_join_nonempty t U Ht). by rewrite H. }
  rewrite E1, E2, E3. unfold remaining_tags, add_new_tags.
  rewrite split_tags_join by done.
  rewrite strip_nonempty_fixed
    by (eapply Forall_impl; [exact HU|]; by intros ? []).
  by rewrite unique_fixed.
Qed.

Lemma clean_and_edit_tags_keeps_standardized_witness :
  clean_and_edit_tags
    (auto_standardize_tags (lit "long_hair" ++ [newline] ++ lit "smile (x)"))
    None (Some []) None
  = auto_standardize_tags (lit "long_hair" ++ [newline] ++ lit "smile (x)").
Proof.
  by apply (clean_and_edit_tags_keeps_standardized _ None (Some []) None).
Defined.

Lemma is_substring_spec sub s :
  is_substring sub s = true ↔ ∃ a b, s = a ++ sub ++ b.
Proof.
  induction s as [|c s IH]; simpl.
  - rewrite orb_false_r, startswith_true. split.
    + intros [r E]. by exists [], r.
    + intros (a & b & E). destruct a; [by exists b|done].
  - rewrite orb_true_iff, startswith_true, IH. split.
    + intros [[r E]|(a & b & ->)]; [by exists [], r | by exists (c :: a), b].
    + intros ([|x a] & b & E); [left; by exists b|].
      right. injection E as E1 E2. by exists a, b.
Qed.

Lemma should_remove_spec remove_containing tag :
  should_remove remove_containing tag = false
  ↔ ∀ s, s ∈ remove_containing → ∀ a b, tag ≠ a ++ s ++ b.
Proof.
  induction remove_containing as [|x l IH]; simpl.
  - split; [by intros _ s ?%elem_of_nil | done].
  - destruct (is_substring x tag) eqn:E.
    + apply is_substring_spec in E as (a & b & E). split; [done|].
      intros H. by destruct (H x ltac:(left) a b).
    + rewrite IH. split.
      * intros H s [->|Hs]%elem_of_cons a b; [|by apply H].
        intros Ht. assert (is_substring x tag = true) as E'
          by (apply is_substring_spec; eauto). congruence.
      * intros H s Hs. apply H. by right.
Qed.

Lemma elem_of_unique t l : t ∈ unique l ↔ t ∈ l.
Proof. unfold unique. rewrite unique_from_elem. set_solver. Qed.

Lemma elem_of_remaining_tags t text remove_tags remove_containing :
  t ∈ remaining_tags text remove_tags remove_containing
  ↔ t ∈ strip_nonempty (split comma text) ∧ t ∉ remove_tags
    ∧ should_remove remove_containing t = false.
Proof.
  unfold remaining_tags.
  destruct remove_tags as [|x rm], remove_containing as [|y rc];
    rewrite ?list_elem_of_filter; simpl; set_solver.
Qed.

(** What [clean_and_edit_tags] returns when nothing is added, and past its
    guard: the remaining tags, deduplicated. *)
Lemma clean_and_edit_tags_no_add text remove_tags remove_containing add_tags :
  or_empty add_tags = [] →
  strip_nonempty (split comma
    (clean_and_edit_tags text remove_tags remove_containing add_tags))
  = unique (remaining_tags text (or_empty remove_tags)
                           (or_empty remove_containing)).
Proof.
  intros Ea. unfold clean_and_edit_tags.
  destruct (decide (text = [] ∨ strip text = [])) as [H|H].
  - assert (E : strip_nonempty (split comma text) = []).
    { destruct H as [->|H]; [done | by apply blank_text_no_comma_tags]. }
    unfold remaining_tags. rewrite E.
    by destruct (or_empty remove_tags), (or_empty remove_containing).
  - rewrite Ea. unfold add_new_tags.
    set (R := remaining_tags text _ _).
    assert (HR : Forall (λ t, strip t = t ∧ t ≠ [] ∧ comma ∉ t) R).
    { apply Forall_forall. intros t [Ht _]%elem_of_remaining_tags.
      pose proof (split_comma_clean text) as Hc.
      rewrite Forall_forall in Hc. by apply Hc. }
    rewrite (strip_nonempty_fixed R)
      by (eapply Forall_impl; [exact HR|]; by intros ? (? & ? & _)).
    apply split_clean_join. apply Forall_forall.
    intros t Ht. apply (proj1 (elem_of_unique t R)) in Ht.
    rewrite Forall_forall in HR. exact (HR t Ht).
Qed.

(** X4. When nothing is added, the tags of the result are exactly the tags
    of the text that are not in [remove_tags] and contain no member of
    [remove_containing] as a substring, each once. *)
Theorem clean_and_edit_tags_removal
    (text : str) (remove_tags remove_containing : option pyset) :
  let out_tags :=
    strip_nonempty (split comma
      (clean_and_edit_tags text remove_tags remove_containing None)) in
  NoDup out_tags
  ∧ ∀ t, t ∈ out_tags
         ↔ t ∈ strip_nonempty (split comma text)
           ∧ t ∉ or_empty remove_tags
           ∧ ∀ s, s ∈ or_empty remove_containing → ∀ a b, t ≠ a ++ s ++ b.
Proof.
  intros out_tags. unfold out_tags.
  rewrite clean_and_edit_tags_no_add by done. split.
  - apply unique_from_NoDup.
  - intros t. by rewrite elem_of_unique, elem_of_remaining_tags,
                        should_remove_spec.
Qed.

(** X5. An empty string among [remove_containing] is contained in every tag:
    all tags of the text are removed and only the added tags are
    returned. *)
Theorem clean_and_edit_tags_empty_substring
    (text : str) (remove_tags remove_containing add_tags : option pyset) :
  [] ∈ or_empty remove_containing →
  text ≠ [] → strip text ≠ [] →
  clean_and_edit_tags text remove_tags remove_containing add_tags
  = join (lit ", ") (unique (strip_nonempty (or_empty add_tags))).
Proof.
  intros Hin H1 H2. unfold clean_and_edit_tags.
  rewrite decide_False by tauto.
  assert (E : remaining_tags text (or_empty remove_tags)
                             (or_empty remove_containing) = []).
  { destruct (remaining_tags _ _ _) as [|t R] eqn:ER; [done|]. exfalso.
    assert (Ht : t ∈ remaining_tags text (or_empty remove_tags)
                                    (or_empty remove_containing))
      by (rewrite ER; left).
    apply elem_of_remaining_tags in Ht as (_ & _ & Ht).
    rewrite should_remove_spec in Ht. by apply (Ht [] Hin [] t). }
  rewrite E, add_new_tags_filter. simpl. do 3 f_equal.
  induction (or_empty add_tags) as [|a l IH]; [done|].
  rewrite filter_cons_True by (by intros ?%elem_of_nil). by rewrite IH.
Qed.

Lemma clean_and_edit_tags_empty_substring_witness :
  clean_and_edit_tags (lit "a, b") None (Some [lit "x"; []]) (Some [lit "c"])
  = lit "c".
Proof.
  apply (clean_and_edit_tags_empty_substring (lit "a, b") None
           (Some [lit "x"; []]) (Some [lit "c"])).
  - right; left.
  - discriminate.
  - by vm_compute.
Defined.

(** * Further properties of the scanner *)

Lemma endswith_app s suffix : endswith (s ++ suffix) suffix = true.
Proof.
  unfold endswith. apply bool_decide_eq_true.
  replace (length (s ++ suffix) - length suffix) with (length s)
    by (rewrite length_app; lia).
  apply drop_app_length.
Qed.

(** The caption of a record is one of the two candidate names of its image,
    joined to the folder. *)
Lemma scan_text_path folder files fi t :
  (∀ n, n ∈ files → n ≠ [] ∧ slash ∉ n) →
  fi ∈ (scan_lists folder files).1.1 → text_path fi = Some t →
  ∃ n, t = os_path_join folder (n ++ lit ".txt") ∧ slash ∉ n ++ lit ".txt".
Proof.
  intros Hnames Hfi Ht. rewrite scan_infos in Hfi.
  apply list_elem_of_fmap in Hfi as (img & -> & [Himg _]%elem_of_images).
  destruct (Hnames img Himg) as [_ Hs].
  apply text_path_match_image in Ht as [-> | ->]; eexists; split; try done;
    apply caption_name_no_slash; [by intros ?%splitext_stem_elem | done].
Qed.

(** A caption of the folder that no record carries is in [unpaired_files]. *)
Lemma scan_unpaired_files_complete folder files t :
  (∀ n, n ∈ files → n ≠ [] ∧ slash ∉ n) →
  t ∈ files → is_text t →
  (∀ fi, fi ∈ (scan_lists folder files).1.1
         → text_path fi ≠ Some (os_path_join folder t)) →
  os_path_join folder t ∈ (scan_lists folder files).2.
Proof.
  intros Hnames Ht Htxt Hfree. unfold scan_lists. cbn [fst snd].
  apply list_elem_of_fmap_2, list_elem_of_filter.
  split; [|by apply elem_of_texts].
  intros (fi & Hfi & E)%elem_of_list_to_set%list_elem_of_omap.
  destruct (is_paired fi); [|done].
  destruct (text_path fi) as [tp|] eqn:Etp; [|done].
  injection E as E. apply (Hfree fi Hfi). rewrite Etp. f_equal.
  destruct (scan_text_path folder files fi tp Hnames Hfi Etp) as (n & -> & Hs).
  rewrite basename_join in E by done. by rewrite E.
Qed.

Lemma scan_unpaired_files_NoDup folder files :
  (∀ n, n ∈ files → n ≠ [] ∧ slash ∉ n) → NoDup files →
  NoDup (scan_lists folder files).2.
Proof.
  intros Hnames Hnd. unfold scan_lists. cbn [fst snd].
  apply NoDup_fmap_2_strong.
  - intros a b [_ [Ha _]%elem_of_texts]%list_elem_of_filter
      [_ [Hb _]%elem_of_texts]%list_elem_of_filter E.
    apply (os_path_join_inj folder); [apply Hnames..|]; done.
  - by apply NoDup_filter, sorted_NoDup, NoDup_filter.
Qed.

(** X6. After a scan that succeeds, the returned list of unpaired files holds
    exactly the entries of the folder whose name ends in [.txt] (in any case)
    and that no record carries as its caption; no path is listed twice. *)
Theorem scan_unpaired_captions
    (folder : str) (w : world) (infos : list FileInfo) (unpaired : list str) :
  (scan_and_match_files folder w).1 = inr (infos, unpaired) →
  NoDup unpaired
  ∧ ∀ p, p ∈ unpaired
         ↔ ∃ t, p = os_path_join folder t ∧ t ∈ listing (fs w) folder
                ∧ is_text t
                ∧ ∀ fi, fi ∈ infos → text_path fi ≠ Some p.
Proof.
  intros [-> ->]%scan_result_lists.
  assert (Hnames : ∀ n, n ∈ listing (fs w) folder → n ≠ [] ∧ slash ∉ n)
    by (intros n; apply listing_names).
  split; [apply scan_unpaired_files_NoDup; [done | apply NoDup_listing]|].
  intros p. split.
  - by apply scan_unpaired_files.
  - intros (t & -> & Ht & Htxt & Hfree).
    by apply scan_unpaired_files_complete.
Qed.

Lemma scan_unpaired_captions_witness :
  NoDup pair_unpaired
  ∧ ∀ p, p ∈ pair_unpaired
         ↔ ∃ t, p = os_path_join (lit "d") t ∧ t ∈ listing pair_fs (lit "d")
                ∧ is_text t
                ∧ ∀ fi, fi ∈ pair_infos → text_path fi ≠ Some p.
Proof.
  apply (scan_unpaired_captions (lit "d") (World pair_fs [])).
  vm_compute. reflexivity.
Defined.

(** X7. Captions are recognised without regard to case but matched with the
    lower-case extension only: an entry of the folder whose name ends in
    [.txt] in some other case (as [a.TXT]) is never the caption of a record,
    and is returned among the unpaired files whatever images the folder
    holds. *)
Theorem caption_extension_case_sensitive
    (folder : str) (w : world) (infos : list FileInfo) (unpaired : list str)
    (t : str) :
  (scan_and_match_files folder w).1 = inr (infos, unpaired) →
  t ∈ listing (fs w) folder → is_text t → endswith t (lit ".txt") = false →
  os_path_join folder t ∈ unpaired
  ∧ ∀ fi, fi ∈ infos → text_path fi ≠ Some (os_path_join folder t).
Proof.
  intros [-> ->]%scan_result_lists Ht Htxt Hcase.
  assert (Hnames : ∀ n, n ∈ listing (fs w) folder → n ≠ [] ∧ slash ∉ n)
    by (intros n; apply listing_names).
  assert (Hfree : ∀ fi, fi ∈ (scan_lists folder (listing (fs w) folder)).1.1
                        → text_path fi ≠ Some (os_path_join folder t)).
  { intros fi Hfi Hp.
    destruct (scan_text_path _ _ _ _ Hnames Hfi Hp) as (n & E & Hs).
    apply os_path_join_inj in E; [|by apply Hnames|done].
    rewrite E, endswith_app in Hcase. done. }
  split; [|done]. by apply scan_unpaired_files_complete.
Qed.

Lemma caption_extension_case_sensitive_witness :
  os_path_join (lit "d") (lit "a.TXT")
  ∈ [lit "d/a.TXT"]
  ∧ ∀ fi, fi ∈ [mkFileInfo (Some (lit "d/a.png")) None (lit "a") false] →
          text_path fi ≠ Some (os_path_join (lit "d") (lit "a.TXT")).
Proof.
  apply (caption_extension_case_sensitive (lit "d")
           (World (list_to_map [(lit "d", Dir); (lit "d/a.png", File (lit "A"));
                                (lit "d/a.TXT", File (lit "x"))]) [])).
  - vm_compute. reflexivity.
  - by_compute.
  - reflexivity.
  - reflexivity.
Defined.

(** A candidate caption name is among the text names of the folder exactly
    when an entry of that name exists. *)
Lemma caption_in_texts (m : gmap str node) folder n :
  slash ∉ n →
  n ++ lit ".txt" ∈ sorted (filter is_text (listing m folder))
  ↔ is_Some (m !! os_path_join folder (n ++ lit ".txt")).
Proof.
  intros Hs. rewrite elem_of_texts, elem_of_listing. split; [tauto|].
  intros H. split; [|apply is_text_suffix].
  split; [by destruct n|]. split; [by apply caption_name_no_slash | done].
Qed.

(** X8. The records of a scan that succeeds are read off the folder: one per
    entry with an image extension, in sorted order of the names; its caption
    is the entry [stem.txt] if that exists, else the entry [name.txt] if that
    exists, and it is unpaired exactly when neither exists. *)
Theorem scan_records_follow_folder
    (folder : str) (w : world) (infos : list FileInfo) (unpaired : list str) :
  (scan_and_match_files folder w).1 = inr (infos, unpaired) →
  infos
  = (λ img,
       let stem := (splitext img).1 in
       let caption_1 := os_path_join folder (stem ++ lit ".txt") in
       let caption_2 := os_path_join folder (img ++ lit ".txt") in
       if decide (is_Some (fs w !! caption_1)) then
         mkFileInfo (Some (os_path_join folder img)) (Some caption_1) stem true
       else if decide (is_Some (fs w !! caption_2)) then
         mkFileInfo (Some (os_path_join folder img)) (Some caption_2) stem true
       else mkFileInfo (Some (os_path_join folder img)) None stem false)
    <$> sorted (filter is_image (listing (fs w) folder)).
Proof.
  intros [-> _]%scan_result_lists. rewrite scan_infos.
  apply list_fmap_ext. intros i img Hi.
  apply list_elem_of_lookup_2, elem_of_images in Hi as [Himg _].
  apply listing_names in Himg as [_ Hs].
  assert (Hstem : slash ∉ (splitext img).1) by (by intros ?%splitext_stem_elem).
  unfold match_image. cbn zeta.
  pose proof (caption_in_texts (fs w) folder _ Hstem) as H1.
  pose proof (caption_in_texts (fs w) folder _ Hs) as H2.
  repeat destruct (decide _); tauto || done.
Qed.

Lemma scan_records_follow_folder_witness :
  pair_infos
  = (λ img,
       let stem := (splitext img).1 in
       let caption_1 := os_path_join (lit "d") (stem ++ lit ".txt") in
       let caption_2 := os_path_join (lit "d") (img ++ lit ".txt") in
       if decide (is_Some (pair_fs !! caption_1)) then
         mkFileInfo (Some (os_path_join (lit "d") img)) (Some caption_1) stem true
       else if decide (is_Some (pair_fs !! caption_2)) then
         mkFileInfo (Some (os_path_join (lit "d") img)) (Some caption_2) stem true
       else mkFileInfo (Some (os_path_join (lit "d") img)) None stem false)
    <$> sorted (filter is_image (listing pair_fs (lit "d"))).
Proof.
  apply (scan_records_follow_folder (lit "d") (World pair_fs []) pair_infos
           pair_unpaired).
  vm_compute. reflexivity.
Defined.

(** * Further properties of the file-apply wrappers *)

(** ** Line ends *)

Lemma translate_newlines_no_cr after_cr s : cr ∉ translate_newlines after_cr s.
Proof.
  revert after_cr. induction s as [|c s IH]; intros after_cr; simpl.
  - apply not_elem_of_nil.
  - destruct (decide (c = cr)) as [->|Hc].
    + apply not_elem_of_cons. split; [done | apply IH].
    + destruct (decide (c = newline)) as [->|Hn].
      * destruct after_cr; simpl; [apply IH|].
        apply not_elem_of_cons. split; [done | apply IH].
      * apply not_elem_of_cons. split; [congruence | apply IH].
Qed.

(** A text without carriage return is read as it is. *)
Lemma universal_newlines_fixed s : cr ∉ s → universal_newlines s = s.
Proof.
  unfold universal_newlines. induction s as [|c s IH]; simpl; [done|].
  intros [Hc Hs]%not_elem_of_cons.
  rewrite decide_False by congruence.
  destruct (decide (c = newline)) as [->|]; simpl; by rewrite IH.
Qed.

(** A character of the result of [auto_standardize_tags] is a character of
    the text, or one of those the function puts in. *)
Lemma auto_standardize_tags_elem x c :
  c ∈ auto_standardize_tags x → c ∈ [comma; space; backslash] ∨ c ∈ x.
Proof.
  unfold auto_standardize_tags.
  destruct (decide (x = [] ∨ strip x = [])); [by intros ?%elem_of_nil|].
  intros [H|(t & Ht & Hc)]%join_elem.
  { left. revert H. change (lit ", ") with [comma; space]. set_solver. }
  apply unique_from_elem in Ht as [Ht _].
  apply strip_nonempty_elem in Ht as (p & Hp & -> & _).
  apply strip_elem in Hc.
  apply list_elem_of_fmap in Hp as (r & -> & Hr).
  apply list_elem_of_fmap in Hr as (tag & -> & Htag).
  apply list_elem_of_bind in Htag as (line & Htag & Hline).
  apply tags_of_line_elem in Htag as (_ & _ & Hsub).
  unfold escape in Hc.
  apply re_sub_unescaped_elem in Hc as [->|Hc]; [left; set_solver|].
  apply re_sub_unescaped_elem in Hc as [->|Hc]; [left; set_solver|].
  apply str_replace_elem in Hc as [->|Hc]; [left; set_solver|].
  apply str_replace_elem in Hc as [->|Hc]; [left; set_solver|].
  right. eapply split_elem; [exact Hline | by apply Hsub].
Qed.

Lemma auto_standardize_tags_twice x :
  auto_standardize_tags (auto_standardize_tags x) = auto_standardize_tags x.
Proof.
  destruct (auto_standardize_tags_canonical x) as (U & -> & HU & Hnd).
  by apply canonical_text_fixed.
Qed.

(** What [standardize_tags] writes is read back as it was written, and
    standardizing it again gives the same text. *)
Lemma standardized_text_fixed c :
  let o := auto_standardize_tags (universal_newlines c) in
  auto_standardize_tags (universal_newlines o) = o.
Proof.
  intros o. rewrite universal_newlines_fixed;
    [apply auto_standardize_tags_twice|].
  intros [H|H]%auto_standardize_tags_elem.
  - exact (bool_decide_unpack (cr ∉ [comma; space; backslash]) I H).
  - by apply (translate_newlines_no_cr false c).
Qed.

(** ** The loops *)

(** One turn of the loop of [standardize_tags], by the state of the caption
    path. *)
Lemma standardize_loop_cons fi rest r w :
  standardize_loop (fi :: rest) r w =
  match truthy (text_path fi) with
  | None => standardize_loop rest r w
  | Some tp =>
      match fs w !! tp with
      | None =>
          standardize_loop rest r (World (fs w) (trace w ++ [PathExists tp]))
      | Some Dir =>
          standardize_loop rest
            (extend_errors r
               [StandardizeFileFailed tp (OSError IsADirectoryError (ReadText tp))])
            (World (fs w) (trace w ++ [PathExists tp; ReadText tp]))
      | Some (File (Binary bytes)) =>
          standardize_loop rest
            (extend_errors r
               [StandardizeFileFailed tp (UnicodeDecodeError bytes)])
            (World (fs w) (trace w ++ [PathExists tp; ReadText tp]))
      | Some (File (Text c)) =>
          let standardized_content :=
            auto_standardize_tags (universal_newlines c) in
          standardize_loop rest
            (set_standardized_tags r (standardized_tags r + 1))
            (World (<[tp := File (Text standardized_content)]> (fs w))
                   (trace w ++ [PathExists tp; ReadText tp;
                                WriteText tp standardized_content]))
      end
  end.
Proof.
  cbn [standardize_loop]. destruct (truthy (text_path fi)) as [tp|]; [|done].
  unfold bind, bindE, bind, os_path_exists, read_text, write_text, syscall, ret.
  destruct (fs w !! tp) as [[[c|b]|]|] eqn:E; simpl; repeat (rewrite E; simpl);
    rewrite <- ?app_assoc; done.
Qed.

(** The file system after the loop. *)
Lemma standardize_loop_fs infos r w p :
  fs (standardize_loop infos r w).2 !! p
  = if decide (p ∈ omap (λ fi, truthy (text_path fi)) infos) then
      match fs w !! p with
      | Some (File (Text c)) =>
          Some (File (Text (auto_standardize_tags (universal_newlines c))))
      | other => other
      end
    else fs w !! p.
Proof.
  revert r w. induction infos as [|fi rest IH]; intros r w.
  { destruct (decide _) as [H|]; [by apply elem_of_nil in H | done]. }
  rewrite standardize_loop_cons. cbn [omap list_omap].
  destruct (truthy (text_path fi)) as [tp|]; [|apply IH].
  assert (Hskip : ∀ r1 w1, fs w1 = fs w →
            (∀ c, fs w !! tp ≠ Some (File (Text c))) →
            fs (standardize_loop rest r1 w1).2 !! p
            = if decide (p ∈ tp :: omap (λ fi, truthy (text_path fi)) rest) then
                match fs w !! p with
                | Some (File (Text c)) =>
                    Some (File (Text (auto_standardize_tags
                                        (universal_newlines c))))
                | other => other
                end
              else fs w !! p).
  { intros r1 w1 Ew Hno. rewrite IH, Ew.
    destruct (decide (p ∈ omap _ rest)) as [Hin|Hout].
    - rewrite decide_True; [done | by right].
    - destruct (decide (p = tp)) as [->|Hne].
      + rewrite decide_True by left.
        destruct (fs w !! tp) as [[[c|b]|]|] eqn:E; try done.
        by destruct (Hno c).
      + rewrite decide_False; [done|]. by intros [?|?]%elem_of_cons. }
  destruct (fs w !! tp) as [[[c|b]|]|] eqn:E;
    try (apply Hskip; [done | congruence]).
  cbn zeta. rewrite IH. cbn [fs].
  destruct (decide (p = tp)) as [->|Hne].
  - rewrite lookup_insert_eq, E, (decide_True (P := tp ∈ tp :: _)) by left.
    destruct (decide _); by rewrite ?standardized_text_fixed.
  - rewrite lookup_insert_ne by done.
    destruct (decide (p ∈ omap _ rest)) as [Hin|Hout].
    + rewrite decide_True; [done | by right].
    + rewrite decide_False; [done|]. by intros [?|?]%elem_of_cons.
Qed.

(** X9. [standardize_tags] rewrites exactly the caption files of the records
    it is given.  A path that is the caption of a record and holds a text
    ends with the standardized form of that text as it is read, that is
    with its line ends translated (also when several records carry the
    path); a caption path that is a directory, or whose file does not decode
    as UTF-8, is left as it was, and so is every other path of the file
    system. *)
Theorem standardize_tags_rewrites_captions
    (folder : str) (infos : list FileInfo) (w : world) (p : str) :
  fs (standardize_tags folder infos w).2 !! p
  = if decide (p ∈ omap (λ fi, truthy (text_path fi)) infos) then
      match fs w !! p with
      | Some (File (Text c)) =>
          Some (File (Text (auto_standardize_tags (universal_newlines c))))
      | other => other
      end
    else fs w !! p.
Proof.
  unfold standardize_tags, bind, ret.
  pose proof (standardize_loop_fs infos new_result w p) as H.
  by destruct (standardize_loop infos new_result w).
Qed.

Lemma standardize_tags_rewrites_captions_witness :
  (scan_and_match_files (lit "d") (World mixed_fs [])).1 = inr (mixed_infos, [])
  ∧ fs (standardize_tags (lit "d") mixed_infos (World mixed_fs [])).2
      !! lit "d/a.txt" = Some (File (Text (lit "x y, z, w")))
  ∧ fs (standardize_tags (lit "d") mixed_infos (World mixed_fs [])).2
      !! lit "d/b.txt"
    = Some (File (Binary [ascii_of_nat 255; ascii_of_nat 254])).
Proof.
  split; [vm_compute; reflexivity|].
  split;
    rewrite (standardize_tags_rewrites_captions (lit "d") mixed_infos
               (World mixed_fs []));
    vm_compute; reflexivity.
Defined.

(** X10. Running [standardize_tags] a second time on the same records leaves
    the file system as the first run left it. *)
Theorem standardize_tags_twice
    (folder : str) (infos : list FileInfo) (w : world) :
  fs (standardize_tags folder infos (standardize_tags folder infos w).2).2
  = fs (standardize_tags folder infos w).2.
Proof.
  apply map_eq. intros p. unfold standardize_tags, bind, ret.
  pose proof (standardize_loop_fs infos new_result w p) as H1.
  destruct (standardize_loop infos new_result w) as [r1 w1]. cbn [fst snd] in *.
  pose proof (standardize_loop_fs infos new_result w1 p) as H2.
  destruct (standardize_loop infos new_result w1) as [r2 w2]. cbn [fst snd] in *.
  rewrite H2, H1. destruct (decide _); [|done].
  destruct (fs w !! p) as [[[c|b]|]|]; by rewrite ?standardized_text_fixed.
Qed.

(** The end of an operation sets the outcome and the summary only. *)
Lemma conclude_keeps r d e :
  processed_files (conclude r d e) = processed_files r
  ∧ renamed_files (conclude r d e) = renamed_files r
  ∧ standardized_tags (conclude r d e) = standardized_tags r
  ∧ unpaired_files (conclude r d e) = unpaired_files r
  ∧ errors (conclude r d e) = errors r.
Proof. unfold conclude. by destruct (errors r) eqn:E. Qed.

(** Writing a text over a text keeps what every path is: a text file or
    not, and what reading it raises. *)
Lemma kind_insert_text (m : gmap str node) (tp c x p : str) :
  m !! tp = Some (File (Text c)) →
  is_text_file (<[tp := File (Text x)]> m) p = is_text_file m p
  ∧ unreadable (<[tp := File (Text x)]> m) p = unreadable m p.
Proof.
  intros E. unfold is_text_file, unreadable.
  destruct (decide (p = tp)) as [->|Hne].
  - by rewrite lookup_insert_eq, E.
  - by rewrite lookup_insert_ne.
Qed.

Lemma unreadable_None (m : gmap str node) (p : str) :
  unreadable m p = None ↔ m !! p = None ∨ is_text_file m p = true.
Proof.
  unfold unreadable, is_text_file.
  destruct (m !! p) as [[[c|b]|]|]; naive_solver.
Qed.

(** No error is recorded exactly when no path raises. *)
Lemma omap_unreadable_nil {A} (f : str → exn → A) (m : gmap str node)
    (l : list str) :
  omap (λ p, f p <$> unreadable m p) l = []
  ↔ Forall (λ p, unreadable m p = None) l.
Proof.
  induction l as [|p l IH]; [by split; [constructor|]|].
  cbn [omap list_omap]. rewrite Forall_cons.
  destruct (unreadable m p); simpl; [|rewrite IH; tauto].
  split; [done | by intros [? _]].
Qed.

(** The counter and the errors after the loop. *)
Lemma standardize_loop_result infos r w :
  let paths := omap (λ fi, truthy (text_path fi)) infos in
  let r' := (standardize_loop infos r w).1 in
  standardized_tags r'
  = standardized_tags r
    + length (filter (λ p, is_text_file (fs w) p = true) paths)
  ∧ errors r'
    = errors r
      ++ omap (λ p, StandardizeFileFailed p <$> unreadable (fs w) p) paths.
Proof.
  revert r w. induction infos as [|fi rest IH]; intros r w.
  { simpl. by rewrite Nat.add_0_r, app_nil_r. }
  cbn zeta. rewrite standardize_loop_cons. cbn [omap list_omap].
  destruct (truthy (text_path fi)) as [tp|]; [|apply IH].
  rewrite filter_cons. cbn [omap list_omap].
  assert (Ef : is_text_file (fs w) tp
               = match fs w !! tp with
                 | Some (File (Text _)) => true
                 | _ => false
                 end) by done.
  assert (Eu : unreadable (fs w) tp
               = match fs w !! tp with
                 | Some Dir => Some (OSError IsADirectoryError (ReadText tp))
                 | Some (File (Binary bytes)) => Some (UnicodeDecodeError bytes)
                 | _ => None
                 end) by done.
  destruct (fs w !! tp) as [[[c|b]|]|] eqn:E; cbn zeta;
    match goal with
    | |- context [standardize_loop rest ?r1 ?w1] =>
        destruct (IH r1 w1) as [IH1 IH2]
    end; rewrite IH1, IH2, Eu; cbn [fs standardized_tags errors
      set_standardized_tags extend_errors fmap option_fmap option_map];
    (destruct (decide (is_text_file (fs w) tp = true)); [|try congruence]);
    try congruence.
  - rewrite (list_filter_iff _ (λ p, is_text_file (fs w) p = true)).
    2:{ intros p. by destruct (kind_insert_text (fs w) tp c
          (auto_standardize_tags (universal_newlines c)) p E) as [-> _]. }
    rewrite (list_omap_ext _
               (λ p, StandardizeFileFailed p <$> unreadable (fs w) p) _
               (omap (λ fi, truthy (text_path fi)) rest)).
    2:{ apply Forall2_same_length_lookup_2; [done|].
        intros i x y Hx Hy. assert (x = y) as -> by congruence.
        by destruct (kind_insert_text (fs w) tp c
          (auto_standardize_tags (universal_newlines c)) y E) as [_ ->]. }
    simpl. split; [lia | done].
  - split; [done|]. by rewrite <- app_assoc.
  - split; [done|]. by rewrite <- app_assoc.
  - done.
Qed.

(** X11. What [standardize_tags] reports: the count is the number of records
    whose caption is a text file, and there is one error, in the order of
    the records, for every record whose caption path is a directory or a
    file that does not decode as UTF-8; a record without caption, or whose
    caption does not exist, is passed over without a word.  So the operation
    succeeds exactly when every caption path that exists is a text file. *)
Theorem standardize_tags_report
    (folder : str) (infos : list FileInfo) (w : world) :
  let paths := omap (λ fi, truthy (text_path fi)) infos in
  let r := (standardize_tags folder infos w).1 in
  standardized_tags r
  = length (filter (λ p, is_text_file (fs w) p = true) paths)
  ∧ errors r
    = omap (λ p, StandardizeFileFailed p <$> unreadable (fs w) p) paths
  ∧ (success r = true
     ↔ Forall (λ p, fs w !! p = None ∨ is_text_file (fs w) p = true) paths).
Proof.
  intros paths r. subst r. unfold standardize_tags, bind, ret.
  destruct (standardize_loop_result infos new_result w) as [H1 H2].
  pose proof (standardize_loop_success infos new_result w) as H3.
  destruct (standardize_loop infos new_result w) as [r1 w1].
  cbn [fst snd] in *. fold paths in H1, H2.
  change (standardized_tags new_result) with 0 in H1.
  change (errors new_result) with (@nil error_msg) in H2.
  cbn [Nat.add app] in H1, H2.
  assert (Hs : errors r1 = []
               ↔ Forall (λ p, fs w !! p = None ∨ is_text_file (fs w) p = true)
                        paths).
  { rewrite H2, omap_unreadable_nil. apply Forall_proper; [|done].
    intros p. apply unreadable_None. }
  destruct (conclude_keeps r1 (λ r, MsgStandardized (standardized_tags r))
              (λ r, MsgStandardizeErrors (length (errors r))))
    as (_ & _ & -> & _ & ->).
  split; [done|]. split; [done|]. rewrite <- Hs.
  pose proof (conclude_consistent r1
                (λ r, MsgStandardized (standardized_tags r))
                (λ r, MsgStandardizeErrors (length (errors r))) H3) as Hc.
  unfold success_iff_no_errors in Hc. rewrite Hc.
  by destruct (conclude_keeps r1 (λ r, MsgStandardized (standardized_tags r))
                 (λ r, MsgStandardizeErrors (length (errors r))))
    as (_ & _ & _ & _ & ->).
Qed.

Lemma standardize_tags_report_witness :
  standardized_tags (standardize_tags (lit "d") mixed_infos
                       (World mixed_fs [])).1 = 1
  ∧ errors (standardize_tags (lit "d") mixed_infos (World mixed_fs [])).1
    = [StandardizeFileFailed (lit "d/b.txt")
         (UnicodeDecodeError [ascii_of_nat 255; ascii_of_nat 254])]
  ∧ success (standardize_tags (lit "d") mixed_infos (World mixed_fs [])).1
    = false.
Proof.
  destruct (standardize_tags_report (lit "d") mixed_infos (World mixed_fs []))
    as (H1 & H2 & H3).
  split; [rewrite H1; vm_compute; reflexivity|].
  split; [rewrite H2; vm_compute; reflexivity|].
  apply not_true_iff_false. intros H%H3.
  apply Forall_cons in H as [_ H]. apply Forall_cons in H as [[H|H] _];
    discriminate H.
Defined.

(** One turn of the loop of [manual_tag_process], by the state of the
    path. *)
Lemma manual_loop_cons p rest rm rc add r w :
  manual_loop (p :: rest) rm rc add r w =
  match fs w !! p with
  | Some (File (Text c)) =>
      let processed_content :=
        clean_and_edit_tags (universal_newlines c)
          (Some rm) (Some rc) (Some add) in
      manual_loop rest rm rc add
        (set_processed_files r (processed_files r + 1))
        (World (<[p := File (Text processed_content)]> (fs w))
               (trace w ++ [ReadText p; WriteText p processed_content]))
  | Some (File (Binary bytes)) =>
      manual_loop rest rm rc add
        (extend_errors r [TagFileFailed p (UnicodeDecodeError bytes)])
        (World (fs w) (trace w ++ [ReadText p]))
  | Some Dir =>
      manual_loop rest rm rc add
        (extend_errors r
           [TagFileFailed p (OSError IsADirectoryError (ReadText p))])
        (World (fs w) (trace w ++ [ReadText p]))
  | None =>
      manual_loop rest rm rc add
        (extend_errors r
           [TagFileFailed p (OSError FileNotFoundError (ReadText p))])
        (World (fs w) (trace w ++ [ReadText p]))
  end.
Proof.
  cbn [manual_loop].
  unfold bind, bindE, bind, read_text, write_text, syscall, ret.
  destruct (fs w !! p) as [[[c|b]|]|] eqn:E; simpl; repeat (rewrite E; simpl);
    rewrite <- ?app_assoc; done.
Qed.

(** The file system after the loop, for paths that are visited once. *)
Lemma manual_loop_fs l rm rc add r w p :
  NoDup l →
  fs (manual_loop l rm rc add r w).2 !! p
  = if decide (p ∈ l) then
      match fs w !! p with
      | Some (File (Text c)) =>
          Some (File (Text (clean_and_edit_tags (universal_newlines c)
                              (Some rm) (Some rc) (Some add))))
      | other => other
      end
    else fs w !! p.
Proof.
  intros Hnd. revert r w. induction Hnd as [|q l Hq Hnd IH]; intros r w.
  { destruct (decide _) as [H|]; [by apply elem_of_nil in H | done]. }
  rewrite manual_loop_cons.
  assert (Hskip : ∀ r1 w1, fs w1 = fs w →
            (∀ c, fs w !! q ≠ Some (File (Text c))) →
            fs (manual_loop l rm rc add r1 w1).2 !! p
            = if decide (p ∈ q :: l) then
                match fs w !! p with
                | Some (File (Text c)) =>
                    Some (File (Text (clean_and_edit_tags (universal_newlines c)
                                        (Some rm) (Some rc) (Some add))))
                | other => other
                end
              else fs w !! p).
  { intros r1 w1 Ew Hno. rewrite IH, Ew.
    destruct (decide (p ∈ l)) as [Hin|Hout].
    - rewrite decide_True; [done | by right].
    - destruct (decide (p = q)) as [->|Hne].
      + rewrite decide_True by left.
        destruct (fs w !! q) as [[[c|b]|]|] eqn:E; try done.
        by destruct (Hno c).
      + rewrite decide_False; [done|]. by intros [?|?]%elem_of_cons. }
  destruct (fs w !! q) as [[[c|b]|]|] eqn:E;
    try (apply Hskip; [done | congruence]).
  cbn zeta. rewrite IH. cbn [fs].
  destruct (decide (p = q)) as [->|Hne].
  - rewrite lookup_insert_eq, E, (decide_True (P := q ∈ q :: _)) by left.
    by rewrite decide_False.
  - rewrite lookup_insert_ne by done.
    destruct (decide (p ∈ l)) as [Hin|Hout].
    + rewrite decide_True; [done | by right].
    + rewrite decide_False; [done|]. by intros [?|?]%elem_of_cons.
Qed.

(** The counter and the errors after the loop, for paths that exist. *)
Lemma manual_loop_result l rm rc add r w :
  Forall (λ p, is_Some (fs w !! p)) l →
  let r' := (manual_loop l rm rc add r w).1 in
  processed_files r'
  = processed_files r + length (filter (λ p, is_text_file (fs w) p = true) l)
  ∧ errors r'
    = errors r ++ omap (λ p, TagFileFailed p <$> unreadable (fs w) p) l.
Proof.
  intros Hl. revert r w Hl. induction l as [|q l IH]; intros r w Hl.
  { simpl. by rewrite Nat.add_0_r, app_nil_r. }
  apply Forall_cons in Hl as [Hq Hl].
  cbn zeta. rewrite manual_loop_cons. rewrite filter_cons.
  cbn [omap list_omap].
  assert (Ef : is_text_file (fs w) q
               = match fs w !! q with
                 | Some (File (Text _)) => true
                 | _ => false
                 end) by done.
  assert (Eu : unreadable (fs w) q
               = match fs w !! q with
                 | Some Dir => Some (OSError IsADirectoryError (ReadText q))
                 | Some (File (Binary bytes)) => Some (UnicodeDecodeError bytes)
                 | _ => None
                 end) by done.
  destruct (fs w !! q) as [[[c|b]|]|] eqn:E; [| | |by destruct Hq]; cbn zeta.
  - match goal with
    | |- context [manual_loop l rm rc add ?r1 ?w1] =>
        destruct (IH r1 w1) as [IH1 IH2]
    end.
    { eapply Forall_impl; [exact Hl|]. intros p Hp. cbn [fs].
      destruct (decide (p = q)) as [->|Hne];
        [by rewrite lookup_insert_eq | by rewrite lookup_insert_ne]. }
    rewrite IH1, IH2, Eu.
    cbn [fs processed_files errors set_processed_files].
    rewrite decide_True by congruence.
    rewrite (list_filter_iff _ (λ p, is_text_file (fs w) p = true)).
    2:{ intros p. by destruct (kind_insert_text (fs w) q c
          (clean_and_edit_tags (universal_newlines c)
             (Some rm) (Some rc) (Some add)) p E) as [-> _]. }
    rewrite (list_omap_ext _ (λ p, TagFileFailed p <$> unreadable (fs w) p) _ l).
    2:{ apply Forall2_same_length_lookup_2; [done|].
        intros i x y Hx Hy. assert (x = y) as -> by congruence.
        by destruct (kind_insert_text (fs w) q c
          (clean_and_edit_tags (universal_newlines c)
             (Some rm) (Some rc) (Some add)) y E) as [_ ->]. }
    simpl. split; [lia | done].
  - match goal with
    | |- context [manual_loop l rm rc add ?r1 ?w1] =>
        destruct (IH r1 w1 Hl) as [IH1 IH2]
    end.
    rewrite IH1, IH2, Eu. cbn [fs processed_files errors extend_errors].
    rewrite decide_False by congruence.
    split; [done|]. by rewrite <- app_assoc.
  - match goal with
    | |- context [manual_loop l rm rc add ?r1 ?w1] =>
        destruct (IH r1 w1 Hl) as [IH1 IH2]
    end.
    rewrite IH1, IH2, Eu. cbn [fs processed_files errors extend_errors].
    rewrite decide_False by congruence.
    split; [done|]. by rewrite <- app_assoc.
Qed.

(** The text files that [manual_tag_process] visits. *)
Lemma text_files_of_folder (m : gmap str node) folder :
  let txt_files := os_path_join folder <$> filter is_text (listing m folder) in
  NoDup txt_files ∧ Forall (λ p, is_Some (m !! p)) txt_files.
Proof.
  split.
  - apply NoDup_fmap_2_strong.
    + intros a b [_ Ha]%list_elem_of_filter [_ Hb]%list_elem_of_filter E.
      apply listing_names in Ha as [_ Ha], Hb as [_ Hb].
      by apply (os_path_join_inj folder).
    + apply NoDup_filter, NoDup_listing.
  - apply Forall_forall.
    intros p (t & -> & [_ Ht]%list_elem_of_filter)%list_elem_of_fmap.
    by apply elem_of_listing in Ht as (_ & _ & ?).
Qed.

(** X12. On a folder that is a directory, [manual_tag_process] rewrites every
    text file of the folder whose name ends in [.txt] (in any case, with or
    without an image beside it) with the edited form of its text as it is
    read, that is with its line ends translated; an entry of such a name that
    is a directory, or a file that does not decode as UTF-8, is left as it
    was, and so is every other path of the file system. *)
Theorem manual_tag_process_rewrites_text_files
    (set_iter : list str → pyset) (folder : str)
    (remove_tags remove_containing add_tags : option (list str))
    (w : world) (p : str) :
  fs w !! folder = Some Dir →
  fs (manual_tag_process set_iter folder remove_tags remove_containing
        add_tags w).2 !! p
  = if decide (p ∈ os_path_join folder
                    <$> filter is_text (listing (fs w) folder)) then
      match fs w !! p with
      | Some (File (Text c)) =>
          Some (File (Text (clean_and_edit_tags (universal_newlines c)
                              (Some (set_or_empty set_iter remove_tags))
                              (Some (set_or_empty set_iter remove_containing))
                              (Some (set_or_empty set_iter add_tags)))))
      | other => other
      end
    else fs w !! p.
Proof.
  intros Hdir. unfold manual_tag_process, bind, ret, os_listdir, syscall.
  rewrite Hdir.
  destruct (text_files_of_folder (fs w) folder) as [Hnd _].
  match goal with
  | |- context [manual_loop ?l ?rm ?rc ?add ?r ?w1] =>
      pose proof (manual_loop_fs l rm rc add r w1 p Hnd) as H;
      destruct (manual_loop l rm rc add r w1) as [r2 w2]
  end.
  exact H.
Qed.

Lemma manual_tag_process_rewrites_text_files_witness :
  fs (manual_tag_process id (lit "d") (Some [lit "x_y"]) None
        (Some [lit "new"]) (World pair_fs [])).2 !! lit "d/a.txt"
  = Some (File (Text (lit "new")))
  ∧ fs (manual_tag_process id (lit "d") None None None
          (World mixed_fs [])).2 !! lit "d/a.txt"
    = Some (File (Text (lit "x_y" ++ [newline] ++ lit "z" ++ [newline]
                          ++ lit "w")))
  ∧ fs (manual_tag_process id (lit "d") None None None
          (World mixed_fs [])).2 !! lit "d/b.txt"
    = Some (File (Binary [ascii_of_nat 255; ascii_of_nat 254])).
Proof.
  split; [|split].
  - rewrite (manual_tag_process_rewrites_text_files id (lit "d")
               (Some [lit "x_y"]) None (Some [lit "new"]) (World pair_fs [])
               (lit "d/a.txt"));
      vm_compute; reflexivity.
  - rewrite (manual_tag_process_rewrites_text_files id (lit "d")
               None None None (World mixed_fs []) (lit "d/a.txt"));
      vm_compute; reflexivity.
  - rewrite (manual_tag_process_rewrites_text_files id (lit "d")
               None None None (World mixed_fs []) (lit "d/b.txt"));
      vm_compute; reflexivity.
Defined.

(** X13. What [manual_tag_process] reports on a folder that is a directory:
    the count is the number of text files whose name ends in [.txt], and
    there is one error, in the order of the names, for every entry of such a
    name that is a directory or a file that does not decode as UTF-8; the
    operation succeeds exactly when every entry of such a name is a text
    file. *)
Theorem manual_tag_process_report
    (set_iter : list str → pyset) (folder : str)
    (remove_tags remove_containing add_tags : option (list str)) (w : world) :
  fs w !! folder = Some Dir →
  let txt_files :=
    os_path_join folder <$> filter is_text (listing (fs w) folder) in
  let r := (manual_tag_process set_iter folder remove_tags remove_containing
              add_tags w).1 in
  processed_files r
  = length (filter (λ p, is_text_file (fs w) p = true) txt_files)
  ∧ errors r = omap (λ p, TagFileFailed p <$> unreadable (fs w) p) txt_files
  ∧ (success r = true
     ↔ Forall (λ p, is_text_file (fs w) p = true) txt_files).
Proof.
  intros Hdir txt_files r. subst r.
  unfold manual_tag_process, bind, ret, os_listdir, syscall. rewrite Hdir.
  destruct (text_files_of_folder (fs w) folder) as [_ Hex].
  fold txt_files in Hex |- *.
  match goal with
  | |- context [manual_loop txt_files ?rm ?rc ?add ?r ?w1] =>
      destruct (manual_loop_result txt_files rm rc add r w1 Hex) as [H1 H2];
      pose proof (manual_loop_success txt_files rm rc add r w1) as H3;
      destruct (manual_loop txt_files rm rc add r w1) as [r1 w2]
  end.
  cbn [fst snd fs] in *.
  change (processed_files new_result) with 0 in H1.
  change (errors new_result) with (@nil error_msg) in H2.
  cbn [Nat.add app] in H1, H2.
  assert (Hs : errors r1 = []
               ↔ Forall (λ p, is_text_file (fs w) p = true) txt_files).
  { rewrite H2, omap_unreadable_nil. rewrite !Forall_forall.
    split; intros H p Hp.
    - pose proof (H p Hp) as [Hk|Hk]%unreadable_None; [|done].
      rewrite Forall_forall in Hex. destruct (Hex p Hp) as [? Hq]. congruence.
    - apply unreadable_None. right. by apply H. }
  destruct (conclude_keeps r1 (λ r, MsgTagsProcessed (processed_files r))
              (λ r, MsgTagsErrors (length (errors r))))
    as (-> & _ & _ & _ & ->).
  split; [done|]. split; [done|]. rewrite <- Hs.
  pose proof (conclude_consistent r1
                (λ r, MsgTagsProcessed (processed_files r))
                (λ r, MsgTagsErrors (length (errors r))) H3) as Hc.
  unfold success_iff_no_errors in Hc. rewrite Hc.
  by destruct (conclude_keeps r1 (λ r, MsgTagsProcessed (processed_files r))
                 (λ r, MsgTagsErrors (length (errors r))))
    as (_ & _ & _ & _ & ->).
Qed.

Lemma manual_tag_process_report_witness :
  processed_files (manual_tag_process id (lit "d") None None None
                     (World pair_fs [])).1 = 4
  ∧ processed_files (manual_tag_process id (lit "d") None None None
                       (World mixed_fs [])).1 = 1
  ∧ errors (manual_tag_process id (lit "d") None None None
              (World mixed_fs [])).1
    = [TagFileFailed (lit "d/b.txt")
         (UnicodeDecodeError [ascii_of_nat 255; ascii_of_nat 254])].
Proof.
  split.
  - destruct (manual_tag_process_report id (lit "d") None None None
                (World pair_fs [])) as (H & _); [reflexivity|].
    rewrite H. vm_compute. reflexivity.
  - destruct (manual_tag_process_report id (lit "d") None None None
                (World mixed_fs [])) as (H1 & H2 & _); [reflexivity|].
    split; [rewrite H1 | rewrite H2]; vm_compute; reflexivity.
Defined.

(** * Further properties of the renamer *)

(** Renaming a file to a path that does not exist, when nothing is below
    either path, moves that one entry. *)
Lemma rename_fs_file (c : call) (src dst : str) (m : gmap str node)
    (body : content) :
  m !! src = Some (File body) → m !! dst = None →
  (∀ k, strictly_below src k → m !! k = None) →
  (∀ k, strictly_below dst k → m !! k = None) →
  rename_fs c src dst m = (inr (), <[dst := File body]> (delete src m)).
Proof.
  intros Hsrc Hdst Hbs Hbd. unfold rename_fs. rewrite Hsrc, Hdst.
  assert (Hne : src ≠ dst) by congruence.
  rewrite decide_False by done. cbn [bool_decide andb].
  rewrite (bool_decide_eq_false_2 (File body = Dir)) by done. cbn [andb].
  f_equal. apply map_eq. intros k. unfold move_tree.
  set (L := prod_map (λ p, dst ++ drop (length src) p) id
              <$> filter (λ kv, at_or_below src kv.1 = true) (map_to_list m)).
  assert (HL : ∀ q n, (q, n) ∈ L ↔ q = dst ∧ n = File body).
  { intros q n. unfold L. rewrite list_elem_of_fmap. split.
    - intros ([p n'] & [= -> ->] & [Hp Hin]%list_elem_of_filter).
      simpl in *. apply elem_of_map_to_list in Hin.
      apply at_or_below_true in Hp as [->|Hp].
      + rewrite drop_all, app_nil_r. split; [done | congruence].
      + rewrite (Hbs p Hp) in Hin. done.
    - intros [-> ->]. exists (src, File body). split.
      + simpl. by rewrite drop_all, app_nil_r.
      + apply list_elem_of_filter. split.
        * apply at_or_below_true. by left.
        * by apply elem_of_map_to_list. }
  destruct (decide (k = dst)) as [->|Hkd].
  - rewrite lookup_insert_eq. apply lookup_union_Some_l.
    apply elem_of_list_to_map_1'.
    + intros y [_ ->]%HL. done.
    + by apply HL.
  - rewrite lookup_insert_ne by done. rewrite lookup_union_r.
    2:{ apply not_elem_of_list_to_map_1.
        intros ([q n] & Eq & [? _]%HL)%list_elem_of_fmap. simpl in *.
        congruence. }
    destruct (decide (k = src)) as [->|Hks].
    + rewrite lookup_delete_eq. apply map_lookup_filter_None. right.
      intros x _ [H _]. simpl in H. unfold at_or_below in H.
      by rewrite bool_decide_eq_true_2 in H.
    + rewrite lookup_delete_ne by done.
      destruct (m !! k) as [n|] eqn:E.
      * apply map_lookup_filter_Some. split; [done|]. simpl.
        split; apply not_true_iff_false; intros [?|Hb]%at_or_below_true;
          try done.
        -- by rewrite (Hbs k Hb) in E.
        -- by rewrite (Hbd k Hb) in E.
      * apply map_lookup_filter_None. by left.
Qed.

(** The first of a list of fresh renames succeeds, and the others are fresh
    renames of the file system it leaves. *)
Lemma fresh_renames_step (s d : str) (rest : list (str * str))
    (m : gmap str node) :
  fresh_renames ((s, d) :: rest) m →
  ∃ c, m !! s = Some (File c)
    ∧ (∀ call, rename_fs call s d m
               = (inr (), <[d := File c]> (delete s m)))
    ∧ fresh_renames rest (<[d := File c]> (delete s m))
    ∧ s ≠ d ∧ s ∉ rest.*1 ∧ s ∉ rest.*2 ∧ d ∉ rest.*1 ∧ d ∉ rest.*2.
Proof.
  intros (Hns & Hnd & Hf & Ha & Hl). cbn [fmap list_fmap fst snd] in *.
  apply NoDup_cons in Hns as [Hs Hns], Hnd as [Hd Hnd].
  apply Forall_cons in Hf as [Hfs Hf], Ha as [Had Ha].
  rewrite Forall_forall in Hf, Ha.
  unfold is_file in Hfs. destruct (m !! s) as [[c|]|] eqn:Es; try done.
  assert (Hsd : s ≠ d) by congruence.
  assert (Hsr : s ∉ rest.*2).
  { intros H%Ha. congruence. }
  assert (Hdr : d ∉ rest.*1).
  { intros H%Hf. unfold is_file in H. by rewrite Had in H. }
  exists c. split; [done|]. split.
  { intros call. apply rename_fs_file; [done..| |]; intros k Hk;
      by apply (Hl _ k) in Hk; [destruct Hk | set_solver]. }
  split; [|done].
  assert (Hlook : ∀ k, k ≠ d → k ≠ s →
            (<[d := File c]> (delete s m) : gmap str node) !! k = m !! k).
  { intros k ? ?. by rewrite lookup_insert_ne, lookup_delete_ne. }
  unfold fresh_renames. split_and!; [done..| | |].
  - apply Forall_forall. intros x Hx. unfold is_file.
    rewrite Hlook; [by apply Hf| |]; by intros ->.
  - apply Forall_forall. intros x Hx.
    rewrite lookup_insert_ne by (by intros ->).
    destruct (decide (x = s)) as [->|]; [apply lookup_delete_eq|].
    rewrite lookup_delete_ne by done. by apply Ha.
  - intros x k Hx Hk. destruct (Hl x k) as [Hm Hk']; [set_solver|done|].
    split; [|set_solver].
    rewrite lookup_insert_ne by (intros ->; set_solver).
    destruct (decide (k = s)) as [->|]; [apply lookup_delete_eq|].
    by rewrite lookup_delete_ne.
Qed.

Lemma moved_nil (m : gmap str node) : moved [] m m.
Proof.
  repeat split; try done; intros; exfalso; by eapply elem_of_nil.
Qed.

Lemma moved_cons (s d : str) (c : content) (rest : list (str * str))
    (m m' : gmap str node) :
  m !! s = Some (File c) →
  s ≠ d → s ∉ rest.*1 → s ∉ rest.*2 → d ∉ rest.*1 → d ∉ rest.*2 →
  moved rest (<[d := File c]> (delete s m)) m' →
  moved ((s, d) :: rest) m m'.
Proof.
  intros Es Hsd Hs1 Hs2 Hd1 Hd2 (M1 & M2 & M3).
  assert (Hlook : ∀ k, k ≠ d → k ≠ s →
            (<[d := File c]> (delete s m) : gmap str node) !! k = m !! k).
  { intros k ? ?. by rewrite lookup_insert_ne, lookup_delete_ne. }
  repeat split.
  - intros s0 d0 [[= -> ->]|Hin]%elem_of_cons.
    + rewrite M3 by done. by rewrite lookup_insert_eq.
    + rewrite (M1 _ _ Hin). apply Hlook; intros ->.
      * apply Hd1. apply list_elem_of_fmap. by exists (d, d0).
      * apply Hs1. apply list_elem_of_fmap. by exists (s, d0).
  - intros s0. cbn [fmap list_fmap fst]. intros [->|Hin]%elem_of_cons.
    + rewrite M3 by done. rewrite lookup_insert_ne by done.
      apply lookup_delete_eq.
    + by apply M2.
  - intros k. cbn [fmap list_fmap fst snd].
    intros [? ?]%not_elem_of_cons [? ?]%not_elem_of_cons.
    rewrite M3 by done. by apply Hlook.
Qed.

(** Phase 1 on fresh renames: every rename succeeds and is counted. *)
Lemma run_temp_renames_fresh (pairs : list (str * str)) (r : ProcessResult)
    (w : world) :
  fresh_renames pairs (fs w) →
  errors (run_temp_renames pairs r w).1 = errors r
  ∧ renamed_files (run_temp_renames pairs r w).1
    = renamed_files r + length pairs
  ∧ moved pairs (fs w) (fs (run_temp_renames pairs r w).2).
Proof.
  revert r w. induction pairs as [|[s d] rest IH]; intros r w Hfresh.
  { simpl. split; [done|]. split; [lia | apply moved_nil]. }
  destruct (fresh_renames_step s d rest (fs w) Hfresh)
    as (c & Es & Hrun & Hrest & Hsd & Hs1 & Hs2 & Hd1 & Hd2).
  assert (E : run_temp_renames ((s, d) :: rest) r w
              = run_temp_renames rest
                  (set_renamed_files r (renamed_files r + 1))
                  (World (<[d := File c]> (delete s (fs w)))
                         (trace w ++ [Rename s d]))).
  { cbn [run_temp_renames]. unfold bind, os_rename, syscall.
    by rewrite Hrun. }
  rewrite E.
  destruct (IH (set_renamed_files r (renamed_files r + 1))
              (World (<[d := File c]> (delete s (fs w)))
                     (trace w ++ [Rename s d])) Hrest) as (I1 & I2 & I3).
  rewrite I1, I2. cbn [errors renamed_files set_renamed_files length].
  split; [done|]. split; [lia|]. by eapply moved_cons.
Qed.

(** Phase 2 on fresh renames: every rename succeeds. *)
Lemma run_final_renames_fresh (pairs : list (str * str)) (r : ProcessResult)
    (w : world) :
  fresh_renames pairs (fs w) →
  errors (run_final_renames pairs r w).1 = errors r
  ∧ renamed_files (run_final_renames pairs r w).1 = renamed_files r
  ∧ moved pairs (fs w) (fs (run_final_renames pairs r w).2).
Proof.
  revert r w. induction pairs as [|[s d] rest IH]; intros r w Hfresh.
  { simpl. split; [done|]. split; [done | apply moved_nil]. }
  destruct (fresh_renames_step s d rest (fs w) Hfresh)
    as (c & Es & Hrun & Hrest & Hsd & Hs1 & Hs2 & Hd1 & Hd2).
  assert (E : run_final_renames ((s, d) :: rest) r w
              = run_final_renames rest r
                  (World (<[d := File c]> (delete s (fs w)))
                         (trace w ++ [Rename s d]))).
  { cbn [run_final_renames]. unfold bind, os_rename, syscall.
    by rewrite Hrun. }
  rewrite E.
  destruct (IH r (World (<[d := File c]> (delete s (fs w)))
                        (trace w ++ [Rename s d])) Hrest) as (I1 & I2 & I3).
  rewrite I1, I2. split; [done|]. split; [done|]. by eapply moved_cons.
Qed.

(** [rename_files] when the files to rename are distinct files, the
    temporary names are distinct and not in use, and the final names are
    distinct and each not in use or the name of a file to rename. *)
Lemma rename_files_fresh (folder : str) (infos : list FileInfo) (w : world) :
  let plan := rename_plan folder rename_start_index infos in
  let olds := plan.1.*1 in
  let temps := plan.1.*2 in
  let finals := plan.2.*2 in
  NoDup olds → NoDup temps → NoDup finals →
  Forall (λ p, is_file (fs w) p = true) olds →
  Forall (λ p, fs w !! p = None) temps →
  Forall (λ p, (fs w !! p = None ∨ p ∈ olds) ∧ p ∉ temps) finals →
  leaves (olds ++ temps ++ finals) (fs w) →
  let r := (rename_files folder infos w).1 in
  let m' := fs (rename_files folder infos w).2 in
  success r = true ∧ errors r = [] ∧ renamed_files r = length olds
  ∧ (∀ old temp final,
       (old, temp) ∈ plan.1 → (temp, final) ∈ plan.2 →
       m' !! final = fs w !! old)
  ∧ (∀ p, p ∈ olds → p ∉ finals → m' !! p = None)
  ∧ (∀ p, p ∉ olds → p ∉ finals → m' !! p = fs w !! p).
Proof.
  intros plan olds temps finals Hno Hnt Hnf Hfiles Hfree Hfin Hl r m'.
  subst r m'. unfold rename_files.
  pose proof (rename_plan_chain folder rename_start_index infos) as Hchain.
  fold plan in Hchain. fold plan.
  destruct plan as [P1 P2] eqn:Eplan. cbn [fst snd] in *.
  subst olds temps finals.
  rewrite Forall_forall in Hfiles, Hfree, Hfin.
  assert (F1 : fresh_renames P1 (fs w)).
  { unfold fresh_renames. split_and!; [done..| | |].
    - by apply Forall_forall.
    - by apply Forall_forall.
    - intros x k Hx Hk. destruct (Hl x k) as [? ?]; [set_solver|done|].
      split; [done | set_solver]. }
  unfold bind, ret.
  destruct (run_temp_renames_fresh P1 new_result w F1) as (E1 & C1 & M1).
  destruct (run_temp_renames P1 new_result w) as [r1 w1]. cbn [fst snd] in *.
  destruct M1 as (M11 & M12 & M13).
  assert (F2 : fresh_renames P2 (fs w1)).
  { unfold fresh_renames. rewrite <- Hchain. split_and!; [done..| | |].
    - apply Forall_forall.
      intros t ([old t'] & -> & Hin)%list_elem_of_fmap. simpl.
      unfold is_file. rewrite (M11 _ _ Hin). apply Hfiles.
      apply list_elem_of_fmap. by exists (old, t').
    - apply Forall_forall. intros f Hf. destruct (Hfin f Hf) as [[Hn|Ho] Ht].
      + destruct (decide (f ∈ P1.*1)); [by apply M12|].
        by rewrite M13.
      + by apply M12.
    - intros x k Hx Hk. destruct (Hl x k) as [Hm Hk']; [set_solver|done|].
      split; [|set_solver]. rewrite M13; [done|set_solver..]. }
  destruct (run_final_renames_fresh P2 r1 w1 F2) as (E2 & C2 & M2).
  destruct (run_final_renames P2 r1 w1) as [r2 w2]. cbn [fst snd] in *.
  destruct M2 as (M21 & M22 & M23).
  assert (Er2 : errors r2 = []) by (by rewrite E2, E1).
  unfold conclude. rewrite Er2. cbn.
  split; [done|]. split; [done|]. split.
  { rewrite C2, C1. by rewrite length_fmap. }
  split; [|split].
  - intros old temp final H1 H2. by rewrite (M21 _ _ H2), (M11 _ _ H1).
  - intros p Hp Hpf.
    assert (p ∉ P2.*1).
    { rewrite <- Hchain. intros Ht%Hfree.
      apply Hfiles in Hp. unfold is_file in Hp. by rewrite Ht in Hp. }
    rewrite M23 by done. by apply M12.
  - intros p Hp Hpf. destruct (decide (p ∈ P2.*1)) as [Ht|Ht].
    + rewrite M22 by done. symmetry. apply Hfree. by rewrite Hchain.
    + rewrite M23 by done. apply M13; [done|]. by rewrite Hchain.
Qed.

(** A check of [leaves] on the entries of the file system. *)
Lemma leaves_check (l : list str) (m : gmap str node) :
  Forall (λ x, Forall (λ k, startswith k (x ++ [slash]) = false)
                      (elements (dom m) ++ l)) l →
  leaves l m.
Proof.
  rewrite Forall_forall. intros H x k Hx [r ->].
  specialize (H x Hx). rewrite Forall_forall in H.
  assert (Hs : startswith (x ++ slash :: r) (x ++ [slash]) = true).
  { apply startswith_true. exists r. by rewrite <- app_assoc. }
  split.
  - destruct (m !! (x ++ slash :: r)) as [n|] eqn:E; [|done].
    rewrite H in Hs; [done|]. apply elem_of_app. left.
    apply elem_of_elements, elem_of_dom. by rewrite E.
  - intros Hin. rewrite H in Hs; [done|]. apply elem_of_app. by right.
Qed.

(** X14. [rename_files] does what it is for when the names are free: if the
    paths to rename are distinct files, the temporary names are distinct
    and not in use, the final names are distinct and each is not in use or
    is one of the paths to rename, and nothing lies below any of these
    paths, then the operation succeeds without error, counts every path,
    and leaves the content of each path at its final name; the old names
    that are not final names are gone, and every other path of the file
    system is as it was. *)
Theorem rename_files_moves_contents
    (folder : str) (infos : list FileInfo) (w : world) :
  let plan := rename_plan folder rename_start_index infos in
  let olds := plan.1.*1 in
  let temps := plan.1.*2 in
  let finals := plan.2.*2 in
  NoDup olds → NoDup temps → NoDup finals →
  Forall (λ p, is_file (fs w) p = true) olds →
  Forall (λ p, fs w !! p = None) temps →
  Forall (λ p, (fs w !! p = None ∨ p ∈ olds) ∧ p ∉ temps) finals →
  leaves (olds ++ temps ++ finals) (fs w) →
  let r := (rename_files folder infos w).1 in
  let m' := fs (rename_files folder infos w).2 in
  success r = true ∧ errors r = [] ∧ renamed_files r = length olds
  ∧ (∀ old temp final,
       (old, temp) ∈ plan.1 → (temp, final) ∈ plan.2 →
       m' !! final = fs w !! old)
  ∧ (∀ p, p ∈ olds → p ∉ finals → m' !! p = None)
  ∧ (∀ p, p ∉ olds → p ∉ finals → m' !! p = fs w !! p).
Proof. apply rename_files_fresh. Qed.

Lemma rename_files_moves_contents_witness :
  success (rename_files (lit "d") pair_infos (World pair_fs [])).1 = true
  ∧ fs (rename_files (lit "d") pair_infos (World pair_fs [])).2
      !! lit "d/2.txt" = Some (File (lit "bb"))
  ∧ fs (rename_files (lit "d") pair_infos (World pair_fs [])).2
      !! lit "d/b.JPG.txt" = None
  ∧ fs (rename_files (lit "d") pair_infos (World pair_fs [])).2
      !! lit "d/z.txt" = Some (File (lit "Z")).
Proof.
  destruct (rename_files_moves_contents (lit "d") pair_infos (World pair_fs []))
    as (H1 & _ & _ & H2 & H3 & H4).
  - by_compute.
  - by_compute.
  - by_compute.
  - by_compute.
  - by_compute.
  - by_compute.
  - apply leaves_check. by_compute.
  - split; [exact H1|]. split; [|split].
    + rewrite (H2 (lit "d/b.JPG.txt") (lit "d/temp_2.txt") (lit "d/2.txt"));
        [reflexivity | by_compute | by_compute].
    + apply H3; by_compute.
    + rewrite H4; [reflexivity | by_compute | by_compute].
Defined.




(** * Further properties of the pipeline *)

(** ** Decimal numbers *)

Lemma pretty_N_go_digits (x : N) (s : string) :
  Forall is_digit (lit s) → Forall is_digit (lit (pretty_N_go x s)).
Proof.
  revert s. induction (N.lt_wf_0 x) as [x _ IH]. intros s Hs.
  assert (x = 0 ∨ 0 < x)%N as [->|Hx] by lia.
  - by rewrite pretty_N_go_0.
  - rewrite pretty_N_go_step by done. apply IH.
    + by apply N.div_lt.
    + change (lit (String ?c s)) with (c :: lit s). constructor; [|done].
      unfold pretty_N_char, is_digit. repeat case_match; by_compute.
Qed.

Lemma pretty_N_go_length (x : N) (s : string) :
  String.length s ≤ String.length (pretty_N_go x s).
Proof.
  revert s. induction (N.lt_wf_0 x) as [x _ IH]. intros s.
  assert (x = 0 ∨ 0 < x)%N as [->|Hx] by lia.
  - by rewrite pretty_N_go_0.
  - rewrite pretty_N_go_step by done.
    etrans; [|apply IH; by apply N.div_lt]. simpl. lia.
Qed.

(** [str(n)] is a non-empty string of digits. *)
Lemma str_of_nat_digits (n : nat) :
  str_of_nat n ≠ [] ∧ Forall is_digit (str_of_nat n).
Proof.
  unfold str_of_nat, pretty, pretty_nat, pretty, pretty_N.
  destruct (decide (N.of_nat n = 0%N)) as [_|Hn].
  - split; [done|]. by repeat constructor.
  - split; [|by apply pretty_N_go_digits].
    rewrite pretty_N_go_step by lia.
    match goal with
    | |- lit (pretty_N_go ?y (String ?c ?s)) ≠ [] =>
        pose proof (pretty_N_go_length y (String c s)) as Hlen;
        destruct (pretty_N_go y (String c s))
    end; [simpl in Hlen; lia | done].
Qed.

Lemma str_of_nat_head (n : nat) (s : str) :
  ∃ c r, str_of_nat n ++ s = c :: r ∧ is_digit c.
Proof.
  destruct (str_of_nat_digits n) as [Hne Hd].
  destruct (str_of_nat n) as [|c r]; [done|].
  exists c, (r ++ s). split; [done|]. by apply Forall_inv in Hd.
Qed.

(** ** Paths below the folder *)

Lemma os_path_join_longer (a b : str) :
  b ≠ [] → startswith b [slash] = false →
  length a < length (os_path_join a b).
Proof.
  intros Hb Hs. unfold os_path_join. rewrite Hs.
  destruct (_ || _); rewrite length_app; destruct b; simpl; try done; lia.
Qed.

Lemma at_or_below_longer (d k : str) :
  length k < length d → at_or_below d k = false.
Proof.
  intros H. apply not_true_iff_false.
  intros [->|[r ->]]%at_or_below_true; [lia|].
  rewrite length_app in H. lia.
Qed.

(** ** What the renamer leaves alone *)

Lemma run_temp_renames_frame (pairs : list (str * str)) (r : ProcessResult)
    (w : world) (k : str) :
  Forall (λ p, at_or_below p.1 k = false ∧ at_or_below p.2 k = false) pairs →
  fs (run_temp_renames pairs r w).2 !! k = fs w !! k.
Proof.
  intros H. revert r w. induction H as [|[s d] rest [Hs Hd] _ IH]; intros r w;
    [done|].
  cbn [run_temp_renames]. unfold bind, os_rename, syscall.
  pose proof (rename_fs_frame (Rename s d) s d (fs w) k Hs Hd) as E.
  destruct (rename_fs (Rename s d) s d (fs w)) as [res m].
  rewrite IH. exact E.
Qed.

Lemma run_final_renames_frame (pairs : list (str * str)) (r : ProcessResult)
    (w : world) (k : str) :
  Forall (λ p, at_or_below p.1 k = false ∧ at_or_below p.2 k = false) pairs →
  fs (run_final_renames pairs r w).2 !! k = fs w !! k.
Proof.
  intros H. revert r w. induction H as [|[s d] rest [Hs Hd] _ IH]; intros r w;
    [done|].
  cbn [run_final_renames]. unfold bind, os_rename, syscall.
  pose proof (rename_fs_frame (Rename s d) s d (fs w) k Hs Hd) as E.
  destruct (rename_fs (Rename s d) s d (fs w)) as [res m].
  rewrite IH. exact E.
Qed.

(** Every planned rename is between paths that are the paths of the records
    or the folder joined with a temporary or a final name. *)
Lemma rename_plan_paths (folder : str) (start : nat) (infos : list FileInfo)
    (s d : str) :
  (s, d) ∈ (rename_plan folder start infos).1
  ∨ (s, d) ∈ (rename_plan folder start infos).2 →
  ∀ p, p = s ∨ p = d →
  (∃ fi, fi ∈ infos ∧ (image_path fi = Some p ∨ text_path fi = Some p))
  ∨ ∃ n e, p = os_path_join folder (lit "temp_" ++ str_of_nat n ++ e)
           ∨ p = os_path_join folder (str_of_nat n ++ e).
Proof.
  intros Hin p Hp.
  assert (∃ i fi, infos !! i = Some fi
            ∧ ((s, d) ∈ (renames_of folder (start + i) fi).1
               ∨ (s, d) ∈ (renames_of folder (start + i) fi).2))
    as (i & fi & Hi & Hsd).
  { unfold rename_plan in Hin. cbn [fst snd] in Hin.
    destruct Hin as [Hin|Hin];
      apply elem_of_concat in Hin as (l & Hl & Hin);
      apply list_elem_of_fmap in Hin as (pr & -> & Hin);
      apply list_elem_of_lookup in Hin as [i Hin];
      rewrite list_lookup_imap in Hin;
      destruct (infos !! i) as [fi|] eqn:Ei; try done;
      injection Hin as <-; exists i, fi; (split; [done|]); auto. }
  apply list_elem_of_lookup_2 in Hi.
  unfold renames_of in Hsd.
  assert (Ht : ∀ o q, truthy o = Some q → o = Some q).
  { intros [[|c x]|] q; simpl; congruence. }
  destruct (truthy (image_path fi)) as [ip|] eqn:E1,
    (truthy (text_path fi)) as [tp|] eqn:E2; cbn [fst snd app] in Hsd;
    try apply Ht in E1; try apply Ht in E2;
    repeat match goal with
    | H : _ ∨ _ |- _ => destruct H
    | H : _ ∈ _ :: _ |- _ => apply elem_of_cons in H
    | H : _ ∈ [] |- _ => by apply elem_of_nil in H
    | H : (_, _) = (_, _) |- _ => injection H as -> ->
    end; subst; eauto 10.
Qed.

(** The renamer leaves the folder itself alone when every path of a record
    is longer than the folder path. *)
Lemma rename_files_keeps_folder (folder : str) (infos : list FileInfo)
    (w : world) :
  (∀ fi p, fi ∈ infos → image_path fi = Some p ∨ text_path fi = Some p →
           length folder < length p) →
  fs (rename_files folder infos w).2 !! folder = fs w !! folder.
Proof.
  intros Hlen.
  assert (Hplan : ∀ s d,
            (s, d) ∈ (rename_plan folder rename_start_index infos).1
            ∨ (s, d) ∈ (rename_plan folder rename_start_index infos).2 →
            at_or_below s folder = false ∧ at_or_below d folder = false).
  { intros s d Hin.
    assert (∀ p, p = s ∨ p = d → at_or_below p folder = false); [|by auto].
    intros p Hp. apply at_or_below_longer.
    destruct (rename_plan_paths folder _ infos s d Hin p Hp)
      as [(fi & Hfi & Hpath)|(n & e & [-> | ->])].
    - by eapply Hlen.
    - by apply os_path_join_longer.
    - destruct (str_of_nat_head n e) as (c & r & -> & Hc).
      apply os_path_join_longer; [done|]. apply bool_decide_eq_false.
      simpl. intros [= ->]. revert Hc.
      exact (bool_decide_unpack (¬ is_digit slash) I). }
  unfold rename_files.
  destruct (rename_plan folder rename_start_index infos) as [temps finals].
  cbn [fst snd] in Hplan. unfold bind, ret.
  pose proof (run_temp_renames_frame temps new_result w folder) as E1.
  destruct (run_temp_renames temps new_result w) as [r1 w1].
  pose proof (run_final_renames_frame finals r1 w1 folder) as E2.
  destruct (run_final_renames finals r1 w1) as [r2 w2]. cbn [fst snd] in *.
  rewrite E2, E1; [done|..]; apply Forall_forall; intros [s d] Hin;
    apply Hplan; auto.
Qed.

(** ** The errors of the stages *)

Lemma run_temp_renames_stage_errors l r w :
  Forall stage_error (errors r) →
  Forall stage_error (errors (run_temp_renames l r w).1).
Proof.
  revert r w. induction l as [|[s d] l IH]; intros r w Hr; [done|].
  cbn [run_temp_renames]. unfold bind.
  destruct (os_rename s d w) as [[e|[]] w1]; apply IH; [|done].
  apply Forall_app. by repeat constructor.
Qed.

Lemma run_final_renames_stage_errors l r w :
  Forall stage_error (errors r) →
  Forall stage_error (errors (run_final_renames l r w).1).
Proof.
  revert r w. induction l as [|[s d] l IH]; intros r w Hr; [done|].
  cbn [run_final_renames]. unfold bind.
  destruct (os_rename s d w) as [[e|[]] w1]; apply IH; [|done].
  apply Forall_app. by repeat constructor.
Qed.

Lemma rename_files_stage_errors folder infos w :
  Forall stage_error (errors (rename_files folder infos w).1).
Proof.
  unfold rename_files. destruct (rename_plan _ _ _) as [temps finals].
  unfold bind, ret.
  pose proof (run_temp_renames_stage_errors temps new_result w) as E1.
  destruct (run_temp_renames temps new_result w) as [r1 w1].
  pose proof (run_final_renames_stage_errors finals r1 w1) as E2.
  destruct (run_final_renames finals r1 w1) as [r2 w2]. cbn [fst snd] in *.
  destruct (conclude_keeps r2 (λ r, MsgRenamed (renamed_files r))
              (λ r, MsgRenameErrors (length (errors r))))
    as (_ & _ & _ & _ & ->).
  apply E2, E1. constructor.
Qed.

Lemma standardize_tags_stage_errors folder infos w :
  Forall stage_error (errors (standardize_tags folder infos w).1).
Proof.
  unfold standardize_tags, bind, ret.
  destruct (standardize_loop_result infos new_result w) as [_ E].
  destruct (standardize_loop infos new_result w) as [r1 w1].
  cbn [fst snd] in *.
  destruct (conclude_keeps r1 (λ r, MsgStandardized (standardized_tags r))
              (λ r, MsgStandardizeErrors (length (errors r))))
    as (_ & _ & _ & _ & ->).
  rewrite E. apply Forall_app. split; [constructor|].
  apply Forall_forall. intros e (p & _ & He)%list_elem_of_omap.
  destruct (unreadable (fs w) p); [|done]. by injection He as <-.
Qed.

Lemma move_loop_stage_errors d l r w :
  Forall stage_error (errors r) →
  Forall stage_error (errors (move_loop d l r w).1).
Proof.
  revert r w. induction l as [|t l IH]; intros r w Hr; [done|].
  cbn [move_loop]. unfold bind at 1.
  destruct (move_unpaired d t w) as [[e|[]] w1]; apply IH; [|done].
  apply Forall_app. by repeat constructor.
Qed.

Lemma handle_unpaired_files_stage_errors folder files w :
  Forall stage_error (errors (handle_unpaired_files folder files w).1).
Proof.
  unfold handle_unpaired_files. destruct files as [|f files]; [constructor|].
  change (negb create_unpaired_folder) with false. cbv iota.
  generalize (f :: files). intros l. unfold bind, ret.
  destruct (os_makedirs (os_path_join folder (lit "unpaired")) w)
    as [[e|[]] w1]; cbn [fst snd].
  - by repeat constructor.
  - match goal with
    | |- context [move_loop ?d ?l ?r ?w] =>
        pose proof (move_loop_stage_errors d l r w) as E;
        destruct (move_loop d l r w) as [r2 w2]
    end.
    cbn [fst snd] in *.
    destruct (conclude_keeps r2 (λ r, MsgUnpairedHandled (unpaired_files r))
                (λ r, MsgUnpairedErrors (length (errors r))))
      as (_ & _ & _ & _ & ->).
    apply E. constructor.
Qed.

(** Every path of a record of a scan is longer than the folder path. *)
Lemma scan_paths_longer (folder : str) (files : list str) (fi : FileInfo)
    (p : str) :
  (∀ n, n ∈ files → n ≠ [] ∧ slash ∉ n) →
  fi ∈ (scan_lists folder files).1.1 →
  image_path fi = Some p ∨ text_path fi = Some p →
  length folder < length p.
Proof.
  intros Hnames Hfi [Hp|Hp].
  - rewrite scan_infos in Hfi.
    apply list_elem_of_fmap in Hfi as (img & -> & [Himg _]%elem_of_images).
    rewrite image_path_match_image in Hp. injection Hp as <-.
    destruct (Hnames img Himg) as [Hne Hs].
    apply os_path_join_longer; [done | by apply startswith_slash_false].
  - destruct (scan_text_path folder files fi p Hnames Hfi Hp) as (n & -> & Hs).
    apply os_path_join_longer; [by destruct n | by apply startswith_slash_false].
Qed.

(** X15. The automatic pipeline gives up as a whole only when the folder is
    not a directory at the start: it then returns one error, with the file
    system as it was.  When the folder is a directory the second scan
    cannot fail: the folder is still a directory after the unpaired handler
    and the renamer, so no error of the result is the error of the pipeline
    as a whole, every one is an error that the unpaired handler, the
    renamer or the standardizer recorded. *)
Theorem auto_post_process_gives_up (folder : str) (w : world) :
  let r := (auto_post_process folder w).1 in
  (fs w !! folder = Some Dir → Forall stage_error (errors r))
  ∧ (fs w !! folder ≠ Some Dir →
     success r = false
     ∧ errors r
       = [AutoPostProcessFailed
            (if fs w !! folder is None then ValueError folder
             else OSError NotADirectoryError (ListDir folder))]
     ∧ fs (auto_post_process folder w).2 = fs w).
Proof.
  intros r. subst r. unfold auto_post_process, bind, ret.
  rewrite scan_and_match_files_run.
  destruct (fs w !! folder) as [[c|]|] eqn:Efolder; cbn [fst snd].
  { split; [done|]. by intros _. }
  2:{ split; [done|]. by intros _. }
  split; [intros _|done].
  set (files := listing (fs w) folder).
  assert (Hnames : ∀ n, n ∈ files → n ≠ [] ∧ slash ∉ n)
    by (intros n; apply listing_names).
  set (infos := (scan_lists folder files).1.1).
  set (unpaired := (scan_lists folder files).2).
  set (w1 := World (fs w) (trace w ++ [PathExists folder; ListDir folder])).
  assert (E2 : fs (handle_unpaired_files folder unpaired w1).2 !! folder
               = Some Dir).
  { rewrite handle_unpaired_files_frame; [done| |].
    - intros f (t & -> & Ht & _)%scan_unpaired_files; [|done].
      destruct (Hnames t Ht) as [Hne Hs]. apply at_or_below_longer.
      apply os_path_join_longer; [done | by apply startswith_slash_false].
    - apply at_or_below_longer. by apply os_path_join_longer. }
  pose proof (handle_unpaired_files_stage_errors folder unpaired w1) as S2.
  destruct (handle_unpaired_files folder unpaired w1) as [r2 w2].
  cbn [fst snd] in *.
  assert (E3 : fs (rename_files folder infos w2).2 !! folder = Some Dir).
  { rewrite rename_files_keeps_folder; [done|].
    intros fi p. by apply scan_paths_longer. }
  pose proof (rename_files_stage_errors folder infos w2) as S3.
  destruct (rename_files folder infos w2) as [r3 w3]. cbn [fst snd] in *.
  rewrite scan_and_match_files_run, E3.
  pose proof (standardize_tags_stage_errors folder
                (scan_lists folder (listing (fs w3) folder)).1.1
                (World (fs w3) (trace w3 ++ [PathExists folder; ListDir folder])))
    as S4.
  destruct (standardize_tags _ _ _) as [r4 w4]. cbn [fst snd] in *.
  match goal with
  | |- Forall _ (errors (conclude ?r ?d ?e)) =>
      destruct (conclude_keeps r d e) as (_ & _ & _ & _ & ->)
  end.
  cbn [errors extend_errors set_standardized_tags set_renamed_files
       set_unpaired_files set_processed_files new_result app].
  by rewrite !Forall_app.
Qed.

Lemma auto_post_process_gives_up_witness :
  Forall stage_error (errors (auto_post_process (lit "d") (World pair_fs [])).1)
  ∧ errors (auto_post_process (lit "missing") (World pair_fs [])).1
    = [AutoPostProcessFailed (ValueError (lit "missing"))].
Proof.
  split.
  - apply (auto_post_process_gives_up (lit "d") (World pair_fs [])).
    reflexivity.
  - destruct (auto_post_process_gives_up (lit "missing") (World pair_fs []))
      as [_ H].
    destruct H as (_ & H & _); [discriminate|]. exact H.
Defined.

(** * Properties of the web routes *)

Lemma scan_and_match_files_fs folder w :
  fs (scan_and_match_files folder w).2 = fs w.
Proof.
  rewrite scan_and_match_files_run. by destruct (fs w !! folder) as [[c|]|].
Qed.

(** X16. The route [/api/auto_standardize] standardizes the captions that the
    scan of the folder matched to an image, and nothing else: such a caption
    that is a text file ends with the standardized form of its text as it is
    read (line ends translated), one that does not decode as UTF-8 is left
    as it was, and so is every other path, in particular every caption that
    the scan returned as unpaired; with a blank folder field, a folder that
    cannot be scanned or a folder without image nothing is written at
    all. *)
Theorem auto_standardize_route_effect (folder_path_field : str) (w : world) :
  let folder := strip folder_path_field in
  let scanned := (scan_and_match_files folder w).1 in
  let captions :=
    match scanned with
    | inr (infos, _) => omap (λ fi, truthy (text_path fi)) infos
    | inl _ => []
    end in
  let m' := fs (app.auto_standardize folder_path_field w).2 in
  (∀ p, m' !! p
        = if decide (folder ≠ [] ∧ p ∈ captions) then
            match fs w !! p with
            | Some (File (Text c)) =>
                Some (File (Text (auto_standardize_tags
                                    (universal_newlines c))))
            | other => other
            end
          else fs w !! p)
  ∧ (∀ infos unpaired p,
       scanned = inr (infos, unpaired) → p ∈ unpaired → m' !! p = fs w !! p).
Proof.
  intros folder scanned captions m'.
  assert (Hall : ∀ p, m' !! p
            = if decide (folder ≠ [] ∧ p ∈ captions) then
                match fs w !! p with
                | Some (File (Text c)) =>
                    Some (File (Text (auto_standardize_tags
                                        (universal_newlines c))))
                | other => other
                end
              else fs w !! p).
  { intros p. subst m' captions scanned. unfold app.auto_standardize.
    fold folder. destruct (decide (folder = [])) as [E|Hne].
    { rewrite decide_False by tauto. done. }
    unfold bind, ret.
    pose proof (scan_and_match_files_fs folder w) as Efs.
    destruct (scan_and_match_files folder w) as [[e|[infos unp]] w1];
      cbn [fst snd] in *.
    { rewrite decide_False by (by intros [_ ?%elem_of_nil]). by rewrite Efs. }
    destruct infos as [|fi infos]; cbn [fst snd].
    { rewrite decide_False by (by intros [_ ?%elem_of_nil]). by rewrite Efs. }
    unfold standardize_tags, bind, ret.
    pose proof (standardize_loop_fs (fi :: infos) new_result w1 p) as H.
    destruct (standardize_loop (fi :: infos) new_result w1) as [r2 w2].
    cbn [fst snd] in *. rewrite H, Efs.
    destruct (decide (p ∈ _)) as [Hin|Hout].
    - rewrite decide_True; done.
    - rewrite decide_False; [done|]. by intros [_ ?]. }
  split; [exact Hall|].
  intros infos unpaired p Hscan Hp. rewrite Hall.
  rewrite decide_False; [done|]. intros [_ Hin].
  subst captions scanned. rewrite Hscan in Hin.
  pose proof Hscan as [-> ->]%scan_result_lists.
  apply scan_unpaired_files in Hp as (t & -> & Ht & Htxt & Hfree);
    [|intros n; apply listing_names].
  apply list_elem_of_omap in Hin as (fi & Hfi & Htp).
  apply (Hfree fi Hfi). destruct (text_path fi) as [[|c x]|]; simpl in Htp; congruence.
Qed.

Lemma auto_standardize_route_effect_witness :
  fs (app.auto_standardize (lit " d ") (World pair_fs [])).2 !! lit "d/a.txt"
  = Some (File (lit "x y"))
  ∧ fs (app.auto_standardize (lit " d ") (World pair_fs [])).2 !! lit "d/z.txt"
    = Some (File (lit "Z"))
  ∧ fs (app.auto_standardize (lit " d ") (World mixed_fs [])).2
      !! lit "d/a.txt" = Some (File (Text (lit "x y, z, w")))
  ∧ fs (app.auto_standardize (lit " d ") (World mixed_fs [])).2
      !! lit "d/b.txt"
    = Some (File (Binary [ascii_of_nat 255; ascii_of_nat 254])).
Proof.
  destruct (auto_standardize_route_effect (lit " d ") (World pair_fs []))
    as [H1 H2].
  destruct (auto_standardize_route_effect (lit " d ") (World mixed_fs []))
    as [H3 _].
  split; [|split; [|split]].
  - rewrite H1. vm_compute. reflexivity.
  - apply (H2 pair_infos pair_unpaired); [vm_compute; reflexivity | by_compute].
  - rewrite H3. vm_compute. reflexivity.
  - rewrite H3. vm_compute. reflexivity.
Defined.

(** The file system after [manual_tag_process], whatever the folder is. *)
Lemma manual_tag_process_fs (set_iter : list str → pyset) (folder : str)
    (remove_tags remove_containing add_tags : option (list str))
    (w : world) (p : str) :
  fs (manual_tag_process set_iter folder remove_tags remove_containing
        add_tags w).2 !! p
  = if decide (fs w !! folder = Some Dir
               ∧ p ∈ os_path_join folder
                     <$> filter is_text (listing (fs w) folder)) then
      match fs w !! p with
      | Some (File (Text c)) =>
          Some (File (Text (clean_and_edit_tags (universal_newlines c)
                              (Some (set_or_empty set_iter remove_tags))
                              (Some (set_or_empty set_iter remove_containing))
                              (Some (set_or_empty set_iter add_tags)))))
      | other => other
      end
    else fs w !! p.
Proof.
  unfold manual_tag_process, bind, ret, os_listdir, syscall.
  destruct (fs w !! folder) as [[c|]|] eqn:Efolder; cbn [fst snd fs].
  1,3: by rewrite decide_False by (by intros [? _]).
  destruct (text_files_of_folder (fs w) folder) as [Hnd _].
  match goal with
  | |- context [manual_loop ?l ?rm ?rc ?add ?r ?w1] =>
      pose proof (manual_loop_fs l rm rc add r w1 p Hnd) as H;
      destruct (manual_loop l rm rc add r w1) as [r2 w2]
  end.
  cbn [fst snd fs] in *. rewrite H.
  destruct (decide (p ∈ _)) as [Hin|Hout].
  - by rewrite decide_True.
  - rewrite decide_False; [done|]. by intros [_ ?].
Qed.

(** X17. The route [/api/manual_tag_process] trims the folder field and the
    entries of the three lists and drops the blank entries, then edits the
    text files of the folder whose name ends in [.txt] with these lists:
    each ends with the edited form of its text as it is read (line ends
    translated); a file that does not decode as UTF-8 is left as it was, and
    nothing is written when the folder field is blank or the folder is not a
    directory. *)
Theorem manual_tag_process_route_effect
    (set_iter : list str → pyset) (folder_path_field : str)
    (remove_tags remove_containing add_tags : list str) (w : world) (p : str) :
  let folder := strip folder_path_field in
  fs (app.manual_tag_process set_iter folder_path_field remove_tags
        remove_containing add_tags w).2 !! p
  = if decide (folder ≠ [] ∧ fs w !! folder = Some Dir
               ∧ p ∈ os_path_join folder
                     <$> filter is_text (listing (fs w) folder)) then
      match fs w !! p with
      | Some (File (Text c)) =>
          Some (File (Text (clean_and_edit_tags (universal_newlines c)
             (Some (set_or_empty set_iter (Some (strip_nonempty remove_tags))))
             (Some (set_or_empty set_iter
                      (Some (strip_nonempty remove_containing))))
             (Some (set_or_empty set_iter (Some (strip_nonempty add_tags)))))))
      | other => other
      end
    else fs w !! p.
Proof.
  intros folder. unfold app.manual_tag_process. fold folder.
  destruct (decide (folder = [])) as [E|Hne].
  { rewrite decide_False by tauto. done. }
  unfold bind, ret.
  pose proof (manual_tag_process_fs set_iter folder
                (Some (strip_nonempty remove_tags))
                (Some (strip_nonempty remove_containing))
                (Some (strip_nonempty add_tags)) w p) as H.
  destruct (manual_tag_process _ _ _ _ _ _) as [r w1]. cbn [fst snd] in *.
  rewrite H. destruct (decide (_ ∧ _)) as [[H1 H2]|Hout].
  - by rewrite decide_True.
  - rewrite decide_False; [done|]. intros (_ & ? & ?). by apply Hout.
Qed.

Lemma manual_tag_process_route_effect_witness :
  fs (app.manual_tag_process id (lit " d ") [lit " z "] [] [lit "new "]
        (World mixed_fs [])).2 !! lit "d/a.txt"
  = Some (File (Text (lit "x_y" ++ [newline] ++ lit "z" ++ [newline]
                        ++ lit "w, new")))
  ∧ fs (app.manual_tag_process id (lit " d ") [lit " z "] [] [lit "new "]
          (World mixed_fs [])).2 !! lit "d/b.txt"
    = Some (File (Binary [ascii_of_nat 255; ascii_of_nat 254])).
Proof.
  split;
    rewrite (manual_tag_process_route_effect id (lit " d ") [lit " z "] []
               [lit "new "] (World mixed_fs []));
    vm_compute; reflexivity.
Defined.

(** * Further properties of the unpaired handler *)

(** [os.path.splitext] of a name behind a directory part. *)
Lemma splitext_prefix (P X : str) :
  P = [] ∨ (∃ d, P = d ++ [slash]) → slash ∉ X →
  splitext (P ++ X) = (P ++ (splitext X).1, (splitext X).2).
Proof.
  intros HP HX. unfold splitext.
  assert (Esep : rfind slash (P ++ X) = (Z.of_nat (length P) - 1)%Z).
  { destruct HP as [->|[d ->]].
    - simpl. by rewrite rfind_absent.
    - rewrite <- app_assoc. simpl. rewrite rfind_last by done.
      rewrite length_app. simpl. lia. }
  rewrite Esep, (rfind_absent slash X HX), rfind_app.
  pose proof (rfind_bounds dot X) as HbX.
  pose proof (rfind_bounds dot P) as HbP.
  destruct (decide (0 ≤ rfind dot X)%Z) as [Hj|Hj].
  - rewrite !decide_True by lia.
    replace (Z.to_nat (Z.of_nat (length P) - 1 + 1)) with (length P) by lia.
    replace (Z.to_nat (Z.of_nat (length P) + rfind dot X
                       - (Z.of_nat (length P) - 1 + 1)))
      with (Z.to_nat (rfind dot X)) by lia.
    replace (Z.to_nat (rfind dot X - (-1 + 1)))
      with (Z.to_nat (rfind dot X)) by lia.
    change (Z.to_nat (-1 + 1)) with 0. rewrite drop_app_length, drop_0.
    destruct (has_non_dot _); cbn [fst snd]; [|done].
    replace (Z.to_nat (Z.of_nat (length P) + rfind dot X))
      with (length P + Z.to_nat (rfind dot X)) by lia.
    by rewrite take_app_add, drop_app_add.
  - rewrite !decide_False by lia. done.
Qed.

(** The destinations that the search tries are children of the folder. *)
Lemma dest_at_child (d b : str) (j : nat) :
  slash ∉ b →
  ∃ s, dest_at (d ++ slash :: b) j = d ++ slash :: s ∧ slash ∉ s.
Proof.
  intros Hb. destruct j as [|j]; [by exists b|]. unfold dest_at.
  change (d ++ slash :: b) with (d ++ [slash] ++ b).
  rewrite (app_assoc d [slash] b), (splitext_prefix (d ++ [slash]) b)
    by (done || (right; by exists d)).
  cbn [fst snd].
  exists ((splitext b).1 ++ lit "_" ++ str_of_nat (S j) ++ (splitext b).2).
  split; [by rewrite <- !app_assoc|].
  rewrite !elem_of_app. intros [H|[H|[H|H]]].
  - by apply Hb, splitext_stem_elem.
  - revert H. exact (bool_decide_unpack (slash ∉ lit "_") I).
  - destruct (str_of_nat_digits (S j)) as [_ Hd].
    rewrite Forall_forall in Hd. apply Hd in H. revert H.
    exact (bool_decide_unpack (¬ is_digit slash) I).
  - apply Hb. rewrite <- (splitext_app b). apply elem_of_app. by right.
Qed.

(** A path that has a child of [d] below it is [d] or has [d] below it. *)
Lemma strictly_below_child (x d s r : str) :
  slash ∉ s → x ++ slash :: r = d ++ slash :: s →
  x = d ∨ strictly_below x d.
Proof.
  intros Hs. revert d. induction x as [|c x IH]; intros [|c' d] E;
    simpl in E.
  - by left.
  - injection E as <- E. right. by exists d.
  - injection E as -> E. exfalso. apply Hs. rewrite <- E.
    apply elem_of_app. right. left.
  - injection E as -> E. destruct (IH d E) as [->|[r' ->]]; [by left|].
    right. by exists r'.
Qed.

Lemma children_closed_check (d : str) (m : gmap str node) :
  Forall (λ k, startswith k (d ++ [slash]) = false
               ∨ slash ∉ drop (length (d ++ [slash])) k)
         (elements (dom m)) →
  children_closed d m.
Proof.
  rewrite Forall_forall. intros H name r _ _.
  destruct (m !! _) as [n|] eqn:E; [|done].
  assert (Hk : d ++ slash :: name ++ slash :: r ∈ elements (dom m))
    by (apply elem_of_elements, elem_of_dom; by rewrite E).
  apply H in Hk as [Hk|Hk].
  - assert (startswith (d ++ slash :: name ++ slash :: r) (d ++ [slash])
            = true).
    { apply startswith_true. eexists. by rewrite <- app_assoc. }
    congruence.
  - exfalso. apply Hk.
    change (d ++ slash :: name ++ slash :: r)
      with (d ++ [slash] ++ name ++ slash :: r).
    rewrite app_assoc, drop_app_length. apply elem_of_app. right. left.
Qed.

(** Moving one file that has nothing below it: the destination found is a
    child of the folder that does not exist, and the file goes there. *)
Lemma move_unpaired_file (d f : str) (w : world) (c : content) :
  d ≠ [] → endswith d [slash] = false →
  fs w !! f = Some (File c) →
  (∀ k, strictly_below f k → fs w !! k = None) →
  children_closed d (fs w) →
  ∃ dest s, dest = d ++ slash :: s ∧ slash ∉ s ∧ fs w !! dest = None
    ∧ (move_unpaired d f w).1 = inr ()
    ∧ fs (move_unpaired d f w).2 = <[dest := File c]> (delete f (fs w)).
Proof.
  intros Hd1 Hd2 Hf Hleaf Hclosed. unfold move_unpaired, bind, get_fs.
  assert (Eo : os_path_join d (basename f) = d ++ slash :: basename f).
  { unfold os_path_join.
    rewrite startswith_slash_false by apply basename_no_slash.
    rewrite bool_decide_eq_false_2 by done. by rewrite Hd2. }
  rewrite Eo.
  destruct (free_dest_enough_fuel (d ++ slash :: basename f) w)
    as (Hfree & Hfs & j & Hj).
  destruct (free_dest _ _ _ _ w) as [dest w1]. cbn [fst snd] in *.
  destruct (dest_at_child d (basename f) j (basename_no_slash f))
    as (s & Es & Hs).
  rewrite Es in Hj. exists dest, s. split; [done|]. split; [done|].
  split; [done|]. unfold shutil_move, syscall. rewrite Hfs.
  rewrite (rename_fs_file (Move f dest) f dest (fs w) c); [done..| |done|].
  - done.
  - intros k [r ->]. subst dest. rewrite <- app_assoc. simpl.
    by apply Hclosed.
Qed.

(** The loop of the handler on distinct files that have nothing below
    them. *)
Lemma move_loop_safe (d : str) (files : list str) (r : ProcessResult)
    (w : world) :
  d ≠ [] → endswith d [slash] = false →
  fs w !! d = Some Dir →
  NoDup files →
  Forall (λ f, is_file (fs w) f = true) files →
  (∀ f k, f ∈ files → strictly_below f k → fs w !! k = None) →
  children_closed d (fs w) →
  errors (move_loop d files r w).1 = errors r
  ∧ unpaired_files (move_loop d files r w).1
    = unpaired_files r + length files
  ∧ (∀ k n, fs w !! k = Some n → k ∉ files →
            fs (move_loop d files r w).2 !! k = Some n)
  ∧ ∃ dests,
      length dests = length files ∧ NoDup dests
      ∧ Forall (λ dest, strictly_below d dest
                        ∧ (fs w !! dest = None ∨ dest ∈ files)) dests
      ∧ ∀ i f dest, files !! i = Some f → dests !! i = Some dest →
          fs (move_loop d files r w).2 !! dest = fs w !! f.
Proof.
  intros Hd1 Hd2. revert r w.
  induction files as [|f rest IH]; intros r w Hd Hnd Hfiles Hleaf Hclosed.
  { simpl. split; [done|]. split; [lia|]. split; [done|]. exists [].
    repeat split; try done; constructor. }
  apply NoDup_cons in Hnd as [Hf Hnd].
  apply Forall_cons in Hfiles as [Hfile Hfiles].
  rewrite Forall_forall in Hfiles.
  unfold is_file in Hfile.
  destruct (fs w !! f) as [[c|]|] eqn:Ef; try done.
  destruct (move_unpaired_file d f w c Hd1 Hd2 Ef) as
    (dest & s & Edest & Hs & Hfree & Hres & Hfs);
    [intros k Hk; apply (Hleaf f); [left | done] | done |].
  assert (E : move_loop d (f :: rest) r w
              = move_loop d rest
                  (set_unpaired_files r (unpaired_files r + 1))
                  (move_unpaired d f w).2).
  { cbn [move_loop]. unfold bind.
    destruct (move_unpaired d f w) as [res w1]. cbn [fst snd] in Hres.
    by subst res. }
  rewrite E. clear E.
  destruct (move_unpaired d f w) as [res w1]. cbn [fst snd] in *. subst res.
  assert (Hdd : dest ≠ d).
  { intros E. apply (f_equal length) in E. rewrite Edest, length_app in E.
    simpl in E. lia. }
  assert (Hfd : f ≠ d) by congruence.
  assert (Hfdest : f ≠ dest) by congruence.
  assert (Hlook : ∀ k, k ≠ dest → k ≠ f → fs w1 !! k = fs w !! k).
  { intros k ? ?. by rewrite Hfs, lookup_insert_ne, lookup_delete_ne. }
  assert (Hrest : ∀ f', f' ∈ rest → f' ≠ f ∧ f' ≠ dest).
  { intros f' Hf'. split; [by intros ->|]. intros ->.
    apply Hfiles in Hf'. unfold is_file in Hf'. by rewrite Hfree in Hf'. }
  destruct (IH (set_unpaired_files r (unpaired_files r + 1)) w1)
    as (I1 & I2 & I3 & dests & L1 & L2 & L3 & L4).
  - by rewrite Hlook.
  - done.
  - apply Forall_forall. intros f' Hf'. destruct (Hrest f' Hf').
    unfold is_file. rewrite Hlook by done. by apply Hfiles.
  - intros f' k Hf' Hk. rewrite Hfs.
    destruct (decide (k = dest)) as [->|Hkd].
    + exfalso. destruct Hk as [r' Er]. rewrite Edest in Er. symmetry in Er.
      apply strictly_below_child in Er as [->|Hb]; [| |done].
      * apply Hfiles in Hf'. unfold is_file in Hf'. by rewrite Hd in Hf'.
      * rewrite (Hleaf f' d) in Hd; [done | by right | done].
    + rewrite lookup_insert_ne by done.
      destruct (decide (k = f)) as [->|]; [apply lookup_delete_eq|].
      rewrite lookup_delete_ne by done. apply (Hleaf f'); [by right | done].
  - intros name r' Hname Hnone. rewrite Hfs in Hnone |- *.
    assert (d ++ slash :: name ++ slash :: r' ≠ dest).
    { rewrite Edest. intros E%app_inv_head. injection E as <-.
      apply Hs, elem_of_app. right. left. }
    rewrite lookup_insert_ne by done.
    destruct (decide (d ++ slash :: name = dest)) as [E|Hnd'];
      [by rewrite E, lookup_insert_eq in Hnone|].
    rewrite lookup_insert_ne in Hnone by done.
    destruct (decide (d ++ slash :: name ++ slash :: r' = f)) as [<-|Hne];
      [apply lookup_delete_eq|].
    rewrite lookup_delete_ne by done.
    destruct (decide (d ++ slash :: name = f)) as [E|Hne'].
    + apply (Hleaf f); [left|]. exists r'. rewrite <- E.
      by rewrite <- app_assoc.
    + rewrite lookup_delete_ne in Hnone by done. by apply Hclosed.
  - rewrite I1, I2. cbn [errors unpaired_files set_unpaired_files length].
    split; [done|]. split; [lia|]. split.
    { intros k n Hk [Hkf Hkr]%not_elem_of_cons. apply I3; [|done].
      rewrite Hlook; [done| |done]. intros ->. by rewrite Hfree in Hk. }
    rewrite Forall_forall in L3.
    exists (dest :: dests). split; [simpl; by rewrite L1|]. split.
    { constructor; [|done]. intros Hin. destruct (L3 _ Hin) as [_ [H|H]].
      - by rewrite Hfs, lookup_insert_eq in H.
      - by destruct (Hrest _ H). }
    split.
    { constructor.
      - split; [by exists s | by left].
      - apply Forall_forall. intros dest' Hin.
        destruct (L3 _ Hin) as [Hb [H|H]]; (split; [done|]).
        + rewrite Hfs in H.
          destruct (decide (dest' = dest)) as [->|];
            [by rewrite lookup_insert_eq in H|].
          rewrite lookup_insert_ne in H by done.
          destruct (decide (dest' = f)) as [->|]; [right; left|].
          rewrite lookup_delete_ne in H by done. by left.
        + right. by right. }
    intros [|i] f0 dest0; simpl; intros Hi Hj.
    + injection Hi as <-. injection Hj as <-. rewrite Ef. apply I3.
      * by rewrite Hfs, lookup_insert_eq.
      * intros Hin. by destruct (Hrest _ Hin).
    + rewrite (L4 i f0 dest0 Hi Hj).
      apply list_elem_of_lookup_2 in Hi. destruct (Hrest _ Hi).
      by apply Hlook.
Qed.

(** A check, on the entries of the file system, that nothing lies below the
    paths of [files], and that [d] does not either. *)
Lemma nothing_below_check (files : list str) (d : str) (m : gmap str node) :
  Forall (λ f, Forall (λ k, startswith k (f ++ [slash]) = false)
                      (d :: elements (dom m))) files →
  ∀ f k, f ∈ files → strictly_below f k → m !! k = None ∧ k ≠ d.
Proof.
  rewrite Forall_forall. intros H f k Hf [r ->].
  specialize (H f Hf). rewrite Forall_forall in H.
  assert (Hs : startswith (f ++ slash :: r) (f ++ [slash]) = true).
  { apply startswith_true. exists r. by rewrite <- app_assoc. }
  split.
  - destruct (m !! (f ++ slash :: r)) as [n|] eqn:E; [|done].
    rewrite H in Hs; [done|]. right.
    apply elem_of_elements, elem_of_dom. by rewrite E.
  - intros E. rewrite H in Hs; [done|]. rewrite E. left.
Qed.

(** X18. The unpaired handler loses nothing and replaces nothing.  When the
    files it is given are distinct files with nothing below them, and the
    [unpaired] folder is a directory or does not exist yet, the handler
    succeeds and counts every file; every entry of the file system that is
    not one of the files is still there, unchanged, also what the
    [unpaired] folder already held; and the files are now at distinct paths
    below the [unpaired] folder, each with its content, at a path that did
    not exist before or was the path of a file that was moved. *)
Theorem handle_unpaired_files_keeps_everything
    (folder : str) (files : list str) (w : world) :
  let d := os_path_join folder (lit "unpaired") in
  NoDup files →
  Forall (λ f, is_file (fs w) f = true) files →
  (∀ f k, f ∈ files → strictly_below f k → fs w !! k = None ∧ k ≠ d) →
  is_file (fs w) d = false →
  children_closed d (fs w) →
  let r := (handle_unpaired_files folder files w).1 in
  let m' := fs (handle_unpaired_files folder files w).2 in
  success r = true ∧ errors r = [] ∧ unpaired_files r = length files
  ∧ (∀ k n, fs w !! k = Some n → k ∉ files → m' !! k = Some n)
  ∧ ∃ dests,
      length dests = length files ∧ NoDup dests
      ∧ Forall (λ dest, strictly_below d dest
                        ∧ (fs w !! dest = None ∨ dest ∈ files)) dests
      ∧ ∀ i f dest, files !! i = Some f → dests !! i = Some dest →
          m' !! dest = fs w !! f.
Proof.
  intros d Hnd Hfiles Hleaf Hd Hclosed r m'. subst r m'.
  unfold handle_unpaired_files.
  destruct files as [|f0 rest].
  { cbn. repeat split; try done. exists []. repeat split; try done;
      constructor. }
  change (negb create_unpaired_folder) with false. cbv iota.
  revert Hnd Hfiles Hleaf. generalize (f0 :: rest). clear f0 rest.
  intros files Hnd Hfiles Hleaf.
  destruct (unpaired_folder_shape folder) as (_ & Hd1 & Hd2).
  fold d in Hd1, Hd2 |- *.
  unfold bind, ret, os_makedirs, syscall.
  set (m0 := match fs w !! d with Some Dir => fs w | _ => <[d := Dir]> (fs w) end).
  assert (Hm0 : ∀ k, k ≠ d → m0 !! k = fs w !! k).
  { intros k Hk. unfold m0. destruct (fs w !! d) as [[?|]|]; try done;
      by rewrite lookup_insert_ne. }
  assert (Hm0d : m0 !! d = Some Dir).
  { unfold m0. destruct (fs w !! d) as [[?|]|] eqn:E; try done;
      by rewrite lookup_insert_eq. }
  assert (Hfd : ∀ f, f ∈ files → f ≠ d).
  { rewrite Forall_forall in Hfiles. intros f Hf%Hfiles ->. congruence. }
  assert (Hpre : ∀ r0 w0, fs w0 = m0 →
            errors (move_loop d files r0 w0).1 = errors r0
            ∧ unpaired_files (move_loop d files r0 w0).1
              = unpaired_files r0 + length files
            ∧ (∀ k n, fs w !! k = Some n → k ∉ files →
                      fs (move_loop d files r0 w0).2 !! k = Some n)
            ∧ ∃ dests,
                length dests = length files ∧ NoDup dests
                ∧ Forall (λ dest, strictly_below d dest
                             ∧ (fs w !! dest = None ∨ dest ∈ files)) dests
                ∧ ∀ i f dest, files !! i = Some f → dests !! i = Some dest →
                    fs (move_loop d files r0 w0).2 !! dest = fs w !! f).
  { intros r0 w0 Ew0.
    destruct (move_loop_safe d files r0 w0 Hd1 Hd2)
      as (I1 & I2 & I3 & dests & L1 & L2 & L3 & L4).
    - by rewrite Ew0.
    - done.
    - rewrite Ew0. eapply Forall_impl; [exact Hfiles|].
      intros f Hf. unfold is_file in *. rewrite Hm0; [done|].
      intros ->. by rewrite Hf in Hd.
    - intros f k Hf Hk. rewrite Ew0. destruct (Hleaf f k Hf Hk) as [? ?].
      by rewrite Hm0.
    - rewrite Ew0. intros name r' Hname Hnone.
      assert (∀ x, d ++ slash :: x ≠ d).
      { intros x E. apply (f_equal length) in E. rewrite length_app in E.
        simpl in E. lia. }
      rewrite Hm0 in Hnone |- * by done. by apply Hclosed.
    - split; [done|]. split; [done|]. split.
      { intros k n Hk Hkf. apply I3; [|done]. rewrite Ew0.
        destruct (decide (k = d)) as [->|Hkd]; [|by rewrite Hm0].
        unfold is_file in Hd. rewrite Hk in Hd. destruct n; [done|].
        exact Hm0d. }
      exists dests. split; [done|]. split; [done|]. split.
      + eapply Forall_impl; [exact L3|]. intros dest [Hb H].
        split; [done|]. destruct H as [H|H]; [left | by right].
        rewrite Ew0 in H. rewrite Hm0 in H; [done|]. intros ->.
        by rewrite Hm0d in H.
      + intros i f dest Hi Hj. rewrite (L4 i f dest Hi Hj), Ew0.
        apply Hm0. apply Hfd. by eapply list_elem_of_lookup_2. }
  unfold is_file in Hd.
  destruct (fs w !! d) as [[c|]|] eqn:Ed; [done| |]; cbn [fst snd];
    match goal with
    | |- context [move_loop d files ?r0 ?w0] =>
        destruct (Hpre r0 w0 eq_refl) as (I1 & I2 & I3 & I4);
        destruct (move_loop d files r0 w0) as [r2 w2]
    end; cbn [fst snd] in *;
    (destruct (conclude_keeps r2 (λ r, MsgUnpairedHandled (unpaired_files r))
                 (λ r, MsgUnpairedErrors (length (errors r))))
       as (_ & _ & _ & -> & ->));
    (split; [unfold conclude; by rewrite I1|]);
    (split; [done|]); (split; [by rewrite I2|]); by split.
Qed.

Lemma handle_unpaired_files_keeps_everything_witness :
  success (handle_unpaired_files (lit "d") pair_unpaired (World pair_fs [])).1
  = true
  ∧ fs (handle_unpaired_files (lit "d") pair_unpaired (World pair_fs [])).2
      !! lit "d/a.txt" = Some (File (lit "x_y")).
Proof.
  destruct (handle_unpaired_files_keeps_everything (lit "d") pair_unpaired
              (World pair_fs [])) as (H1 & _ & _ & H2 & _).
  - by_compute.
  - by_compute.
  - apply nothing_below_check. by_compute.
  - reflexivity.
  - apply children_closed_check. by_compute.
  - split; [exact H1|]. apply H2; [reflexivity | by_compute].
Defined.

(** * The renamer on the records of a scan *)

(** ** Names and extensions *)

Lemma lower_elem (c : ascii) (s : str) : c ∈ s → lower_char c ∈ lower s.
Proof. intros H. unfold lower. by apply list_elem_of_fmap_2. Qed.

(** An image extension is a dot and then letters. *)
Lemma image_ext_shape (e : str) :
  lower e ∈ image_extensions →
  ∃ rest, e = dot :: rest ∧ dot ∉ rest ∧ slash ∉ rest ∧ e ≠ lit ".txt".
Proof.
  intros H. destruct e as [|c rest]; [by apply empty_not_image_extension in H|].
  exists rest.
  assert (Htxt : c :: rest ≠ lit ".txt").
  { intros E. rewrite E in H. revert H.
    exact (bool_decide_unpack (lower (lit ".txt") ∉ image_extensions) I). }
  assert (lower_char c = dot
          ∧ lower rest ∈ [lit "jpg"; lit "jpeg"; lit "png"; lit "gif";
                          lit "bmp"; lit "webp"]) as [Hc Hrest].
  { change image_extensions
      with [dot :: lit "jpg"; dot :: lit "jpeg"; dot :: lit "png";
            dot :: lit "gif"; dot :: lit "bmp"; dot :: lit "webp"] in H.
    change (lower (c :: rest)) with (lower_char c :: lower rest) in H.
    repeat (apply elem_of_cons in H as [H|H];
            [injection H as H1 H2; rewrite H2; split; [done|]; by_compute|]).
    by apply elem_of_nil in H. }
  apply lower_char_dot in Hc as ->. split; [done|]. split; [|split; [|done]].
  - intros Hin%lower_elem. revert Hin.
    change (lower_char dot) with dot.
    repeat (apply elem_of_cons in Hrest as [->|Hrest]; [by_compute|]).
    by apply elem_of_nil in Hrest.
  - intros Hin%lower_elem. revert Hin.
    change (lower_char slash) with slash.
    repeat (apply elem_of_cons in Hrest as [->|Hrest]; [by_compute|]).
    by apply elem_of_nil in Hrest.
Qed.

(** [os.path.splitext] of a stem and an extension. *)
Lemma splitext_name (X rest : str) :
  slash ∉ X → slash ∉ rest → dot ∉ rest → has_non_dot X = true →
  splitext (X ++ dot :: rest) = (X, dot :: rest).
Proof.
  intros HX Hr Hd Hnd. unfold splitext.
  rewrite rfind_last by done.
  rewrite rfind_absent.
  2:{ intros [?|[E|?]%elem_of_cons]%elem_of_app; done. }
  rewrite decide_True by lia.
  change (Z.to_nat (-1 + 1)) with 0. rewrite drop_0.
  replace (Z.to_nat (Z.of_nat (length X) - (-1 + 1))) with (length X) by lia.
  rewrite Nat2Z.id, take_app_length, Hnd, drop_app_length. done.
Qed.

Lemma dot_split (a b x y : str) :
  dot ∉ a → dot ∉ b → a ++ dot :: x = b ++ dot :: y → a = b ∧ x = y.
Proof.
  revert b. induction a as [|c a IH]; intros [|c' b] Ha Hb E; simpl in E.
  - by injection E as ->.
  - injection E as <- _. exfalso. apply Hb. left.
  - injection E as -> _. exfalso. apply Ha. left.
  - injection E as -> E. destruct (IH b) as [-> ->]; try done.
    + intros ?. apply Ha. by right.
    + intros ?. apply Hb. by right.
Qed.

Lemma str_of_nat_no (c : ascii) (n : nat) :
  ¬ is_digit c → c ∉ str_of_nat n.
Proof.
  intros Hc Hin. destruct (str_of_nat_digits n) as [_ Hd].
  rewrite Forall_forall in Hd. by apply Hc, Hd.
Qed.

Lemma has_non_dot_str_of_nat (n : nat) : has_non_dot (str_of_nat n) = true.
Proof.
  destruct (str_of_nat_digits n) as [Hne Hd].
  destruct (str_of_nat n) as [|c r]; [done|]. apply Forall_inv in Hd.
  simpl. rewrite decide_True; [done|]. intros ->. revert Hd.
  exact (bool_decide_unpack (¬ is_digit dot) I).
Qed.

(** [os.path.splitext] of a path in the folder. *)
Lemma splitext_join (folder n : str) :
  slash ∉ n →
  splitext (os_path_join folder n)
  = (os_path_join folder (splitext n).1, (splitext n).2).
Proof.
  intros Hn.
  rewrite (os_path_join_name folder n),
    (os_path_join_name folder (splitext n).1);
    [|by intros ?%splitext_stem_elem | done].
  by apply splitext_prefix; [apply os_path_join_prefix|].
Qed.

(** ** Lists made of one piece per position *)

Lemma NoDup_concat_imap {A B} (f : nat → A → list B) (l : list A) :
  (∀ i x, l !! i = Some x → NoDup (f i x)) →
  (∀ i j x y b, l !! i = Some x → l !! j = Some y →
                b ∈ f i x → b ∈ f j y → i = j) →
  NoDup (concat (imap f l)).
Proof.
  revert f. induction l as [|a l IH]; intros f H1 H2; [constructor|].
  simpl. apply NoDup_app. split; [by apply (H1 0)|]. split.
  - intros b Hb (l' & Hl' & (j & y & -> & Hj)%elem_of_lookup_imap)%elem_of_concat.
    by specialize (H2 0 (S j) a y b eq_refl Hj Hb Hl').
  - apply IH.
    + intros i x Hi. by apply (H1 (S i)).
    + intros i j x y b Hi Hj Hb Hb'.
      by specialize (H2 (S i) (S j) x y b Hi Hj Hb Hb') as [= ->].
Qed.

Lemma fmap_concat_imap {A B C D} (π : D → list B) (h : B → C)
    (f : nat → A → D) (l : list A) :
  h <$> concat (π <$> imap f l) = concat (imap (λ i x, h <$> π (f i x)) l).
Proof.
  revert f. induction l as [|a l IH]; intros f; [done|].
  simpl. by rewrite fmap_app, IH.
Qed.

(** ** The plan for the records of a scan *)

Lemma ext_like_txt : ext_like (lit ".txt").
Proof. exists (lit "txt"). split; [done|]. split; by_compute. Qed.

Lemma ext_like_image (img : str) : is_image img → ext_like (splitext img).2.
Proof.
  intros (rest & E & H1 & H2 & _)%image_ext_shape. by exists rest.
Qed.

Lemma ext_like_no_slash (e : str) : ext_like e → slash ∉ e.
Proof.
  intros (rest & -> & _ & Hs) [E|?]%elem_of_cons; [|done]. discriminate E.
Qed.

(** The temporary and the final names have no separator, and differ when
    the position or the extension differs. *)
Lemma numbered_name_no_slash (pre e : str) (n : nat) :
  slash ∉ pre → ext_like e → slash ∉ pre ++ str_of_nat n ++ e.
Proof.
  intros Hp He. rewrite !elem_of_app. intros [?|[H|H]]; [done| |].
  - revert H. apply str_of_nat_no.
    exact (bool_decide_unpack (¬ is_digit slash) I).
  - by apply ext_like_no_slash in H.
Qed.

Lemma numbered_name_inj (folder pre e e' : str) (n n' : nat) :
  slash ∉ pre → ext_like e → ext_like e' →
  os_path_join folder (pre ++ str_of_nat n ++ e)
  = os_path_join folder (pre ++ str_of_nat n' ++ e') →
  n = n' ∧ e = e'.
Proof.
  intros Hp He He' E.
  apply os_path_join_inj in E; [|by apply numbered_name_no_slash..].
  apply app_inv_head in E.
  destruct He as (r & -> & Hr & _), He' as (r' & -> & Hr' & _).
  apply dot_split in E as [E ->];
    [|apply str_of_nat_no; exact (bool_decide_unpack (¬ is_digit dot) I)..].
  by apply str_of_nat_inj in E as ->.
Qed.

Lemma numbered_name_not_temp (folder e e' : str) (n n' : nat) :
  ext_like e → ext_like e' →
  os_path_join folder (str_of_nat n ++ e)
  ≠ os_path_join folder (lit "temp_" ++ str_of_nat n' ++ e').
Proof.
  intros He He' E.
  apply os_path_join_inj in E.
  - destruct (str_of_nat_head n e) as (c & r & Ec & Hc). rewrite Ec in E.
    injection E as -> _. revert Hc.
    exact (bool_decide_unpack (¬ is_digit "t"%char) I).
  - apply (numbered_name_no_slash []); [by intros ?%elem_of_nil | done].
  - apply numbered_name_no_slash; [|done].
    exact (bool_decide_unpack (slash ∉ lit "temp_") I).
Qed.

Lemma truthy_join (folder n : str) :
  n ≠ [] → slash ∉ n →
  truthy (Some (os_path_join folder n)) = Some (os_path_join folder n).
Proof.
  intros Hne Hs. pose proof (os_path_join_nonempty folder n Hne Hs).
  by destruct (os_path_join folder n).
Qed.

(** The renames planned for the record of the image [img], at the number
    [n]: [caps] holds the name of its caption, if it has one. *)
Lemma renames_of_scan_record (folder : str) (files : list str) (img : str)
    (n : nat) :
  (∀ x, x ∈ files → x ≠ [] ∧ slash ∉ x) →
  img ∈ files →
  let fi := match_image folder (sorted (filter is_text files)) img in
  let e := (splitext img).2 in
  let temp E := os_path_join folder (lit "temp_" ++ str_of_nat n ++ E) in
  let final E := os_path_join folder (str_of_nat n ++ E) in
  ∃ caps,
    ((caps = [] ∧ text_path fi = None)
     ∨ ∃ c, caps = [c] ∧ text_path fi = Some (os_path_join folder c)
            ∧ c ∈ files ∧ is_text c)
    ∧ (renames_of folder n fi).1
      = (os_path_join folder img, temp e)
        :: ((λ c, (os_path_join folder c, temp (lit ".txt"))) <$> caps)
    ∧ (renames_of folder n fi).2
      = (temp e, final e)
        :: ((λ c, (temp (lit ".txt"), final (lit ".txt"))) <$> caps).
Proof.
  intros Hnames Himg fi e temp final.
  destruct (Hnames img Himg) as [Hne Hs].
  assert (Hcap : ∀ c, c ∈ sorted (filter is_text files) →
            c ∈ files ∧ is_text c ∧ c ≠ [] ∧ slash ∉ c).
  { intros c [Hc Ht]%elem_of_texts. destruct (Hnames c Hc). done. }
  subst fi. unfold match_image.
  destruct (decide ((splitext img).1 ++ lit ".txt" ∈ _)) as [H1|H1];
    [|destruct (decide (img ++ lit ".txt" ∈ _)) as [H2|H2]].
  - destruct (Hcap _ H1) as (Hf & Ht & Hn & Hsl).
    exists [(splitext img).1 ++ lit ".txt"]. split; [right; eauto 10|].
    unfold renames_of. cbn [image_path text_path].
    rewrite !truthy_join by done. rewrite splitext_join by done. done.
  - destruct (Hcap _ H2) as (Hf & Ht & Hn & Hsl).
    exists [img ++ lit ".txt"]. split; [right; eauto 10|].
    unfold renames_of. cbn [image_path text_path].
    rewrite !truthy_join by done. rewrite splitext_join by done. done.
  - exists []. split; [by left|].
    unfold renames_of. cbn [image_path text_path].
    rewrite !truthy_join by done. rewrite splitext_join by done. done.
Qed.

Lemma rename_plan_elem (folder : str) (start : nat) (infos : list FileInfo)
    (pr : str * str) :
  (pr ∈ (rename_plan folder start infos).1 →
   ∃ i fi, infos !! i = Some fi ∧ pr ∈ (renames_of folder (start + i) fi).1)
  ∧ (pr ∈ (rename_plan folder start infos).2 →
     ∃ i fi, infos !! i = Some fi ∧ pr ∈ (renames_of folder (start + i) fi).2).
Proof.
  unfold rename_plan. cbn [fst snd].
  split; intros (l & Hl & Hin)%elem_of_concat;
    apply list_elem_of_fmap in Hin as (q & -> & Hin);
    apply elem_of_lookup_imap in Hin as (i & fi & -> & Hi); eauto.
Qed.

Section scan_rename.
Context (folder : str) (m : gmap str node).

Let files := listing m folder.
Let images := sorted (filter is_image files).
Let texts := sorted (filter is_text files).
Let infos := (scan_lists folder files).1.1.
Let plan := rename_plan folder rename_start_index infos.
Let J := os_path_join folder.
Let temp (n : nat) (E : str) := J (lit "temp_" ++ str_of_nat n ++ E).
Let final (n : nat) (E : str) := J (str_of_nat n ++ E).

Hypothesis Hstems : stems_distinct (filter is_image files).

Lemma files_names n : n ∈ files → n ≠ [] ∧ slash ∉ n.
Proof. apply listing_names. Qed.

(** The record at a position, and the renames planned for it. *)
Lemma scan_plan_piece i x :
  infos !! i = Some x →
  ∃ img caps,
    images !! i = Some img ∧ x = match_image folder texts img
    ∧ img ∈ files ∧ is_image img
    ∧ ((caps = [] ∧ text_path x = None)
       ∨ ∃ c, caps = [c] ∧ text_path x = Some (J c) ∧ c ∈ files ∧ is_text c)
    ∧ (renames_of folder (rename_start_index + i) x).1
      = (J img, temp (1 + i) (splitext img).2)
        :: ((λ c, (J c, temp (1 + i) (lit ".txt"))) <$> caps)
    ∧ (renames_of folder (rename_start_index + i) x).2
      = (temp (1 + i) (splitext img).2, final (1 + i) (splitext img).2)
        :: ((λ c, (temp (1 + i) (lit ".txt"), final (1 + i) (lit ".txt")))
            <$> caps).
Proof.
  intros Hi. unfold infos in Hi. rewrite scan_infos in Hi.
  apply list_lookup_fmap_Some in Hi as (img & -> & Hi).
  pose proof Hi as Himg%list_elem_of_lookup_2.
  apply elem_of_images in Himg as [Himg Himage].
  destruct (renames_of_scan_record folder files img (rename_start_index + i)
              files_names Himg) as (caps & Hcaps & E1 & E2).
  exists img, caps. by repeat split.
Qed.

Lemma image_not_caption img c :
  img ∈ files → is_image img → c ∈ files → is_text c → J img ≠ J c.
Proof.
  intros Hi Him Hc Ht E.
  apply os_path_join_inj in E as ->; [|by apply files_names..].
  by apply (is_text_not_image c).
Qed.

Lemma images_index i j img :
  images !! i = Some img → images !! j = Some img → i = j.
Proof.
  apply NoDup_lookup. unfold images.
  apply sorted_NoDup, NoDup_filter, NoDup_listing.
Qed.

(** The paths to rename are distinct. *)
Lemma scan_plan_olds_NoDup : NoDup plan.1.*1.
Proof.
  unfold plan, rename_plan. cbn [fst].
  rewrite (fmap_concat_imap fst fst). apply NoDup_concat_imap.
  - intros i x (img & caps & _ & _ & Himg & Himage & Hcaps & -> & _)%scan_plan_piece.
    cbn [fmap list_fmap fst]. rewrite <- list_fmap_compose.
    destruct Hcaps as [[-> _]|(c & -> & _ & Hc & Ht)]; simpl.
    + repeat constructor. by intros ?%elem_of_nil.
    + repeat constructor; [|by intros ?%elem_of_nil].
      intros E%list_elem_of_singleton. by apply (image_not_caption img c).
  - intros i j x y b Hi Hj.
    pose proof Hi as Hx%list_elem_of_lookup_2.
    pose proof Hj as Hy%list_elem_of_lookup_2.
    apply scan_plan_piece in Hi
      as (img & caps & Ii & -> & Himg & Himage & Hcaps & -> & _).
    apply scan_plan_piece in Hj
      as (img' & caps' & Ij & -> & Himg' & Himage' & Hcaps' & -> & _).
    cbn [fmap list_fmap fst]. rewrite <- !list_fmap_compose.
    intros [->|Hb]%elem_of_cons [Hb'|Hb']%elem_of_cons.
    + apply os_path_join_inj in Hb' as ->; [|by apply files_names..].
      by eapply images_index.
    + exfalso. destruct Hcaps' as [[-> _]|(c & -> & _ & Hc & Ht)];
        [by apply elem_of_nil in Hb'|].
      apply list_elem_of_singleton in Hb'. simpl in Hb'.
      by apply (image_not_caption img c).
    + exfalso. subst b. destruct Hcaps as [[-> _]|(c & -> & _ & Hc & Ht)];
        [by apply elem_of_nil in Hb|].
      apply list_elem_of_singleton in Hb. simpl in Hb. symmetry in Hb.
      by apply (image_not_caption img' c).
    + destruct Hcaps as [[-> _]|(c & -> & Et & Hc & Ht)];
        [by apply elem_of_nil in Hb|].
      destruct Hcaps' as [[-> _]|(c' & -> & Et' & Hc' & Ht')];
        [by apply elem_of_nil in Hb'|].
      apply list_elem_of_singleton in Hb, Hb'. simpl in Hb, Hb'. subst b.
      rewrite <- Hb' in Et'.
      assert (E : match_image folder texts img
                  = match_image folder texts img').
      { eapply (scan_caption_once folder files files_names); eauto. }
      apply (f_equal image_path) in E.
      rewrite !image_path_match_image in E. injection E as E.
      apply os_path_join_inj in E as ->; [|by apply files_names..].
      by eapply images_index.
Qed.

Lemma temp_no_slash : slash ∉ lit "temp_".
Proof. by_compute. Qed.

Lemma image_ext_not_txt img : is_image img → (splitext img).2 ≠ lit ".txt".
Proof. by intros (rest & _ & _ & _ & H)%image_ext_shape. Qed.

(** The temporary names are distinct. *)
Lemma scan_plan_temps_NoDup : NoDup plan.1.*2.
Proof.
  unfold plan, rename_plan. cbn [fst].
  rewrite (fmap_concat_imap fst snd). apply NoDup_concat_imap.
  - intros i x (img & caps & _ & _ & Himg & Himage & Hcaps & -> & _)%scan_plan_piece.
    cbn [fmap list_fmap snd]. rewrite <- list_fmap_compose.
    destruct Hcaps as [[-> _]|(c & -> & _ & Hc & Ht)]; simpl.
    + repeat constructor. by intros ?%elem_of_nil.
    + repeat constructor; [|by intros ?%elem_of_nil].
      intros E%list_elem_of_singleton.
      apply numbered_name_inj in E as [_ E];
        [|apply temp_no_slash|by apply ext_like_image|apply ext_like_txt].
      by apply image_ext_not_txt in E.
  - intros i j x y b Hi Hj.
    apply scan_plan_piece in Hi
      as (img & caps & Ii & -> & Himg & Himage & Hcaps & -> & _).
    apply scan_plan_piece in Hj
      as (img' & caps' & Ij & -> & Himg' & Himage' & Hcaps' & -> & _).
    cbn [fmap list_fmap snd]. rewrite <- !list_fmap_compose.
    assert (Hb : ∀ k im cs, is_image im → 
              b ∈ temp (1 + k) (splitext im).2
                  :: (snd ∘ (λ c : str, (J c, temp (1 + k) (lit ".txt")))
                      <$> cs) →
              ∃ E, ext_like E ∧ b = temp (1 + k) E).
    { intros k im cs Him [->|Hin]%elem_of_cons.
      - eexists. split; [by apply ext_like_image | done].
      - apply list_elem_of_fmap in Hin as (c & -> & _). simpl.
        eexists. split; [apply ext_like_txt | done]. }
    intros (E & HE & ->)%Hb (E' & HE' & Eb)%Hb; [|done..].
    apply numbered_name_inj in Eb as [Eb _];
      [lia | apply temp_no_slash | done..].
Qed.

(** The final names are distinct. *)
Lemma scan_plan_finals_NoDup : NoDup plan.2.*2.
Proof.
  unfold plan, rename_plan. cbn [snd].
  rewrite (fmap_concat_imap snd snd). apply NoDup_concat_imap.
  - intros i x (img & caps & _ & _ & Himg & Himage & Hcaps & _ & ->)%scan_plan_piece.
    cbn [fmap list_fmap snd]. rewrite <- list_fmap_compose.
    destruct Hcaps as [[-> _]|(c & -> & _ & Hc & Ht)]; simpl.
    + repeat constructor. by intros ?%elem_of_nil.
    + repeat constructor; [|by intros ?%elem_of_nil].
      intros E%list_elem_of_singleton.
      apply (numbered_name_inj folder []) in E as [_ E];
        [|by intros ?%elem_of_nil|by apply ext_like_image|apply ext_like_txt].
      by apply image_ext_not_txt in E.
  - intros i j x y b Hi Hj.
    apply scan_plan_piece in Hi
      as (img & caps & Ii & -> & Himg & Himage & Hcaps & _ & ->).
    apply scan_plan_piece in Hj
      as (img' & caps' & Ij & -> & Himg' & Himage' & Hcaps' & _ & ->).
    cbn [fmap list_fmap snd]. rewrite <- !list_fmap_compose.
    assert (Hb : ∀ k im cs, is_image im → 
              b ∈ final (1 + k) (splitext im).2
                  :: (snd ∘ (λ c : str, (temp (1 + k) (lit ".txt"),
                                         final (1 + k) (lit ".txt")))
                      <$> cs) →
              ∃ E, ext_like E ∧ b = final (1 + k) E).
    { intros k im cs Him [->|Hin]%elem_of_cons.
      - eexists. split; [by apply ext_like_image | done].
      - apply list_elem_of_fmap in Hin as (c & -> & _). simpl.
        eexists. split; [apply ext_like_txt | done]. }
    intros (E & HE & ->)%Hb (E' & HE' & Eb)%Hb; [|done..].
    apply (numbered_name_inj folder []) in Eb as [Eb _];
      [lia | by intros ?%elem_of_nil | done..].
Qed.

(** What the lists of the plan hold. *)
Lemma scan_plan_olds_inv p :
  p ∈ plan.1.*1 → ∃ n, n ∈ files ∧ (is_image n ∨ is_text n) ∧ p = J n.
Proof.
  intros ([s d] & -> & Hin)%list_elem_of_fmap.
  apply rename_plan_elem in Hin as (i & fi & Hi & Hin).
  apply scan_plan_piece in Hi
    as (img & caps & _ & _ & Himg & Himage & Hcaps & E1 & _).
  rewrite E1 in Hin. apply elem_of_cons in Hin as [[= -> ->]|Hin].
  - exists img. auto.
  - apply list_elem_of_fmap in Hin as (c & [= -> ->] & Hc).
    destruct Hcaps as [[-> _]|(c' & -> & _ & Hc' & Ht)];
      [by apply elem_of_nil in Hc|].
    apply list_elem_of_singleton in Hc as ->. exists c'. auto.
Qed.

Lemma scan_plan_temps_inv p :
  p ∈ plan.1.*2 → ∃ n E, ext_like E ∧ p = temp n E.
Proof.
  intros ([s d] & -> & Hin)%list_elem_of_fmap.
  apply rename_plan_elem in Hin as (i & fi & Hi & Hin).
  apply scan_plan_piece in Hi
    as (img & caps & _ & _ & Himg & Himage & Hcaps & E1 & _).
  rewrite E1 in Hin. apply elem_of_cons in Hin as [[= -> ->]|Hin].
  - eexists _, _. split; [by apply ext_like_image | done].
  - apply list_elem_of_fmap in Hin as (c & [= -> ->] & Hc).
    eexists _, _. split; [apply ext_like_txt | done].
Qed.

Lemma scan_plan_finals_inv p :
  p ∈ plan.2.*2 →
  ∃ n E, p = final n E
    ∧ ((∃ img, is_image img ∧ E = (splitext img).2) ∨ E = lit ".txt").
Proof.
  intros ([s d] & -> & Hin)%list_elem_of_fmap.
  apply rename_plan_elem in Hin as (i & fi & Hi & Hin).
  apply scan_plan_piece in Hi
    as (img & caps & _ & _ & Himg & Himage & Hcaps & _ & E2).
  rewrite E2 in Hin. apply elem_of_cons in Hin as [[= -> ->]|Hin].
  - eexists _, _. split; [done|]. left. by exists img.
  - apply list_elem_of_fmap in Hin as (c & [= -> ->] & Hc).
    eexists _, _. split; [done|]. by right.
Qed.

Lemma scan_plan_olds_image img :
  img ∈ files → is_image img → J img ∈ plan.1.*1.
Proof.
  intros Himg Himage.
  assert (Hin : img ∈ images) by (by apply elem_of_images).
  apply list_elem_of_lookup in Hin as [i Hi].
  assert (Hfi : infos !! i = Some (match_image folder texts img)).
  { unfold infos. rewrite scan_infos, list_lookup_fmap.
    fold files images. by rewrite Hi. }
  pose proof Hfi as (img' & caps & Hi' & _ & _ & _ & _ & E1 & _)%scan_plan_piece.
  assert (img' = img) as -> by congruence.
  apply list_elem_of_fmap. eexists (J img, _). split; [done|].
  apply (rename_plan_lookup folder rename_start_index infos i _ Hfi).
  rewrite E1. left.
Qed.

Lemma scan_plan_olds_caption fi t :
  fi ∈ infos → text_path fi = Some t → t ∈ plan.1.*1.
Proof.
  intros [i Hi]%list_elem_of_lookup Ht.
  pose proof Hi as (img & caps & _ & _ & _ & _ & Hcaps & E1 & _)%scan_plan_piece.
  destruct Hcaps as [[_ Hnone]|(c & -> & Et & _)]; [congruence|].
  apply list_elem_of_fmap. eexists (t, _). split; [done|].
  apply (rename_plan_lookup folder rename_start_index infos i fi Hi).
  rewrite E1. right. rewrite Et in Ht. injection Ht as <-. left.
Qed.

Hypothesis Hunp : (scan_lists folder files).2 = [].
Hypothesis Hfile :
  ∀ n, n ∈ files → is_image n ∨ is_text n → is_file m (J n) = true.
Hypothesis Htemp : ∀ n, n ∈ files → startswith n (lit "temp_") = false.
Hypothesis Hsub :
  ∀ n r, slash ∉ n → is_Some (m !! (J n ++ slash :: r)) →
         is_dir m (J n) = true.

Lemma scan_plan_olds_files : Forall (λ p, is_file m p = true) plan.1.*1.
Proof.
  apply Forall_forall. intros p (n & Hn & Hkind & ->)%scan_plan_olds_inv.
  by apply Hfile.
Qed.

Lemma scan_plan_temps_free : Forall (λ p, m !! p = None) plan.1.*2.
Proof.
  apply Forall_forall. intros p (n & E & HE & ->)%scan_plan_temps_inv.
  destruct (m !! temp n E) as [x|] eqn:Em; [|done]. exfalso.
  assert (Hin : lit "temp_" ++ str_of_nat n ++ E ∈ files).
  { apply elem_of_listing. split; [done|]. split.
    - apply numbered_name_no_slash; [apply temp_no_slash | done].
    - unfold temp, J in Em. by rewrite Em. }
  apply Htemp in Hin. by rewrite (proj2 (startswith_true _ _)) in Hin by eauto.
Qed.

Lemma scan_plan_finals_free :
  Forall (λ p, (m !! p = None ∨ p ∈ plan.1.*1) ∧ p ∉ plan.1.*2) plan.2.*2.
Proof.
  apply Forall_forall. intros p (n & E & -> & HE)%scan_plan_finals_inv.
  assert (Hlike : ext_like E).
  { destruct HE as [(img & Himage & ->)| ->];
      [by apply ext_like_image | apply ext_like_txt]. }
  split.
  - destruct (m !! final n E) as [x|] eqn:Em; [right | by left].
    assert (Hin : str_of_nat n ++ E ∈ files).
    { apply elem_of_listing. split.
      - destruct (str_of_nat_head n E) as (c & r & -> & _). done.
      - split.
        + apply (numbered_name_no_slash []); [by intros ?%elem_of_nil | done].
        + unfold final, J in Em. by rewrite Em. }
    destruct HE as [(img & Himage & ->)| ->].
    + apply scan_plan_olds_image; [done|].
      destruct Hlike as (rest & Erest & Hd & Hs). unfold is_image.
      rewrite Erest, splitext_name; try done.
      * cbn [snd]. rewrite <- Erest. exact Himage.
      * apply str_of_nat_no. exact (bool_decide_unpack (¬ is_digit slash) I).
      * apply has_non_dot_str_of_nat.
    + destruct (decide (Exists (λ fi, text_path fi = Some (final n (lit ".txt")))
                               infos)) as [Hex|Hno].
      * apply Exists_exists in Hex as (fi & Hfi & Ht).
        by apply (scan_plan_olds_caption fi).
      * exfalso.
        assert (Hu : J (str_of_nat n ++ lit ".txt") ∈ (scan_lists folder files).2).
        { apply scan_unpaired_files_complete; [apply files_names|done|..].
          - apply is_text_suffix.
          - intros fi Hfi Ht. apply Hno, Exists_exists. by exists fi. }
        rewrite Hunp in Hu. by apply elem_of_nil in Hu.
  - intros (n' & E' & HE' & Eq)%scan_plan_temps_inv.
    by apply numbered_name_not_temp in Eq.
Qed.

(** Every path of the plan is the folder joined with a name, and it is not
    a directory. *)
Lemma scan_plan_path p :
  p ∈ plan.1.*1 ++ plan.1.*2 ++ plan.2.*2 →
  ∃ X, p = J X ∧ slash ∉ X ∧ is_dir m p = false.
Proof.
  assert (Hold : ∀ q, q ∈ plan.1.*1 →
            ∃ X, q = J X ∧ slash ∉ X ∧ is_dir m q = false).
  { intros q Hq. pose proof Hq as (n & Hn & Hkind & ->)%scan_plan_olds_inv.
    exists n. split; [done|]. split; [by apply files_names|].
    pose proof (Hfile n Hn Hkind) as Hf. unfold is_file, is_dir in *.
    by destruct (m !! J n) as [[?|]|]. }
  rewrite !elem_of_app. intros [Hp|[Hp|Hp]].
  - by apply Hold.
  - pose proof scan_plan_temps_free as Hfree. rewrite Forall_forall in Hfree.
    pose proof (Hfree p Hp) as Hnone.
    apply scan_plan_temps_inv in Hp as (n & E & HE & ->).
    eexists. split; [done|]. split.
    + apply numbered_name_no_slash; [apply temp_no_slash | done].
    + unfold is_dir. by rewrite Hnone.
  - pose proof scan_plan_finals_free as Hfree. rewrite Forall_forall in Hfree.
    destruct (Hfree p Hp) as [[Hnone|Hp'] _].
    + apply scan_plan_finals_inv in Hp as (n & E & -> & HE).
      eexists. split; [done|]. split.
      * apply (numbered_name_no_slash []); [by intros ?%elem_of_nil|].
        destruct HE as [(img & Himage & ->)| ->];
          [by apply ext_like_image | apply ext_like_txt].
      * unfold is_dir. by rewrite Hnone.
    + by apply Hold.
Qed.

Lemma scan_plan_leaves : leaves (plan.1.*1 ++ plan.1.*2 ++ plan.2.*2) m.
Proof.
  intros x k (X & -> & HX & Hdir)%scan_plan_path [r ->]. split.
  - destruct (m !! (J X ++ slash :: r)) as [n|] eqn:E; [|done].
    rewrite (Hsub X r HX) in Hdir; [done|]. by rewrite E.
  - intros (Y & E & HY & _)%scan_plan_path.
    unfold J in E.
    rewrite (os_path_join_name folder X), (os_path_join_name folder Y),
      <- app_assoc in E by done.
    apply app_inv_head in E. apply HY. rewrite <- E.
    apply elem_of_app. right. left.
Qed.
End scan_rename.

(** A check, on the entries of the file system, that the folder has no
    entry below one of its entries. *)
Lemma flat_folder_check (folder : str) (m : gmap str node) :
  Forall (λ k, slash ∉ drop (length (os_path_join folder [])) k
               ∨ startswith k (os_path_join folder []) = false)
         (elements (dom m)) →
  ∀ n r, slash ∉ n →
         is_Some (m !! (os_path_join folder n ++ slash :: r)) →
         is_dir m (os_path_join folder n) = true.
Proof.
  rewrite Forall_forall. intros H n r Hn Hsome. exfalso.
  apply elem_of_dom, elem_of_elements, H in Hsome.
  rewrite (os_path_join_name folder n), <- app_assoc in Hsome by done.
  destruct Hsome as [Hs|Hs].
  - apply Hs. rewrite drop_app_length. apply elem_of_app. right. left.
  - by rewrite (proj2 (startswith_true _ _)) in Hs by eauto.
Qed.

(** X19. Scanning a folder and renaming its records works on a tidy folder:
    when the scan leaves no caption unpaired, no two images have the same
    stem (and no image's stem is the name of an image), the images and the
    captions are files, no name of the folder starts with [temp_], and
    nothing lies below an entry of the folder that is not a directory, then
    [rename_files] succeeds without error; the image of the record at
    position [i] is then at the name [1 + i] with its own extension and its
    caption at [1 + i] with [.txt], each with the content it had; and every
    path that is neither renamed nor a final name is as it was. *)
Theorem scan_then_rename
    (folder : str) (w : world) (infos : list FileInfo) :
  (scan_and_match_files folder w).1 = inr (infos, []) →
  let files := listing (fs w) folder in
  stems_distinct (filter is_image files) →
  (∀ n, n ∈ files → is_image n ∨ is_text n →
        is_file (fs w) (os_path_join folder n) = true) →
  (∀ n, n ∈ files → startswith n (lit "temp_") = false) →
  (∀ n r, slash ∉ n →
          is_Some (fs w !! (os_path_join folder n ++ slash :: r)) →
          is_dir (fs w) (os_path_join folder n) = true) →
  let plan := rename_plan folder rename_start_index infos in
  let r := (rename_files folder infos w).1 in
  let m' := fs (rename_files folder infos w).2 in
  success r = true ∧ errors r = [] ∧ renamed_files r = length plan.1
  ∧ (∀ i fi, infos !! i = Some fi →
       (∀ p, image_path fi = Some p →
          m' !! os_path_join folder (str_of_nat (1 + i) ++ (splitext p).2)
          = fs w !! p)
       ∧ (∀ t, text_path fi = Some t →
            m' !! os_path_join folder (str_of_nat (1 + i) ++ lit ".txt")
            = fs w !! t))
  ∧ (∀ p, p ∉ plan.1.*1 → p ∉ plan.2.*2 → m' !! p = fs w !! p).
Proof.
  intros Hscan files Hst Hfile Htemp Hsub plan r m'. subst r m'.
  pose proof Hscan as [Ei Eu]%scan_result_lists. fold files in Ei, Eu.
  symmetry in Eu.
  destruct (rename_files_fresh folder infos w)
    as (S1 & S2 & S3 & Hmove & _ & Hkeep); fold plan; subst plan.
  - rewrite Ei. by apply scan_plan_olds_NoDup.
  - rewrite Ei. apply scan_plan_temps_NoDup.
  - rewrite Ei. apply scan_plan_finals_NoDup.
  - rewrite Ei. by apply scan_plan_olds_files.
  - rewrite Ei. by apply scan_plan_temps_free.
  - rewrite Ei. by apply scan_plan_finals_free.
  - rewrite Ei. by apply scan_plan_leaves.
  - split; [done|]. split; [done|]. split; [by rewrite S3, length_fmap|].
    split; [|done].
    intros i fi Hi.
    assert (Hne : ∀ p, image_path fi = Some p ∨ text_path fi = Some p →
              truthy (Some p) = Some p).
    { intros p Hp.
      assert (length folder < length p).
      { eapply (scan_paths_longer folder files fi);
          [apply listing_names | | done].
        rewrite <- Ei. by eapply list_elem_of_lookup_2. }
      destruct p; [simpl in *; lia | done]. }
    destruct (rename_plan_record folder infos i fi Hi) as [Himg Htxt].
    split.
    + intros p Hp. pose proof (Hne p (or_introl Hp)) as Ht.
      rewrite <- Hp in Ht at 1.
      destruct (Himg p Ht) as [H1 H2]. exact (Hmove _ _ _ H1 H2).
    + intros t Hp. pose proof (Hne t (or_intror Hp)) as Ht.
      rewrite <- Hp in Ht at 1.
      destruct (Htxt t Ht) as [H1 H2]. exact (Hmove _ _ _ H1 H2).
Qed.

Lemma scan_then_rename_witness :
  success (rename_files (lit "d") clean_infos (World clean_fs [])).1 = true
  ∧ fs (rename_files (lit "d") clean_infos (World clean_fs [])).2
      !! lit "d/2.JPG" = Some (File (lit "B"))
  ∧ fs (rename_files (lit "d") clean_infos (World clean_fs [])).2
      !! lit "d/2.txt" = Some (File (lit "bb"))
  ∧ fs (rename_files (lit "d") clean_infos (World clean_fs [])).2
      !! lit "d/notes.md" = Some (File (lit "N")).
Proof.
  destruct (scan_then_rename (lit "d") (World clean_fs []) clean_infos)
    as (H1 & _ & _ & H2 & H3).
  - vm_compute. reflexivity.
  - unfold stems_distinct. by_compute.
  - intros n Hn _. revert n Hn. apply Forall_forall. by_compute.
  - apply Forall_forall. by_compute.
  - apply flat_folder_check. by_compute.
  - split; [exact H1|].
    destruct (H2 1 (mkFileInfo (Some (lit "d/b.JPG")) (Some (lit "d/b.JPG.txt"))
                      (lit "b") true) eq_refl) as [Hi Ht].
    split; [exact (Hi _ eq_refl)|]. split; [exact (Ht _ eq_refl)|].
    apply H3; by_compute.
Defined.

(** * The count of the downloader and the images of the scanner *)

Lemma lower_suffix (n g e : str) :
  lower n = g ++ e → ∃ X e', n = X ++ e' ∧ lower e' = e.
Proof.
  intros E. exists (take (length g) n), (drop (length g) n).
  split; [by rewrite take_drop|].
  assert (Hlen : length n = length g + length e).
  { rewrite <- (length_fmap lower_char n). fold (lower n).
    by rewrite E, length_app. }
  unfold lower in *. rewrite <- (take_drop (length g) n), fmap_app in E.
  apply app_inj_1 in E as [_ E]; [|rewrite length_fmap, length_take; lia].
  exact E.
Qed.

Lemma image_extensions_same (e : str) :
  e ∈ image_extensions ↔ e ∈ danbooru_downloader.image_extensions.
Proof.
  unfold image_extensions, danbooru_downloader.image_extensions.
  rewrite !elem_of_cons, !elem_of_nil. tauto.
Qed.

(** A name that the scanner takes for an image is counted. *)
Lemma is_image_counted (n : str) :
  is_image n → danbooru_downloader.is_counted n.
Proof.
  unfold is_image, danbooru_downloader.is_counted. intros H.
  apply Exists_exists. exists (lower (splitext n).2).
  split; [by apply image_extensions_same|].
  rewrite <- (splitext_app n) at 1. unfold lower. rewrite fmap_app.
  apply endswith_app.
Qed.

(** A counted name is an image for the scanner unless it has no extension,
    which is the case of a name made of dots before the suffix, as [.png]. *)
Lemma is_counted_image (n : str) :
  danbooru_downloader.is_counted n → (splitext n).2 ≠ [] → is_image n.
Proof.
  unfold danbooru_downloader.is_counted.
  intros (e & He & [g Hg]%endswith_inv)%Exists_exists Hext.
  apply lower_suffix in Hg as (X & e' & -> & Ee).
  apply image_extensions_same in He. rewrite <- Ee in He.
  destruct (image_ext_shape e' He) as (rest & -> & Hd & _).
  unfold is_image.
  destruct (splitext_ext_cases (X ++ dot :: rest)) as [E|E]; [done|].
  rewrite E, rfind_last, Nat2Z.id, drop_app_length by done. done.
Qed.

Lemma count_split (l : list str) :
  length (filter danbooru_downloader.is_counted l)
  = length (filter is_image l)
    + length (filter (λ n, danbooru_downloader.is_counted n
                           ∧ (splitext n).2 = []) l).
Proof.
  induction l as [|n l IH]; [done|]. rewrite !filter_cons.
  destruct (decide (is_image n)) as [Hi|Hi].
  - rewrite decide_True by (by apply is_image_counted).
    rewrite decide_False; [simpl; lia|].
    intros [_ E]. unfold is_image in Hi. rewrite E in Hi.
    by apply empty_not_image_extension in Hi.
  - destruct (decide (danbooru_downloader.is_counted n)) as [Hc|Hc].
    + rewrite decide_True; [simpl; lia|]. split; [done|].
      destruct ((splitext n).2) eqn:E; [done|]. exfalso. apply Hi.
      apply is_counted_image; [done|]. by rewrite E.
    + rewrite decide_False by tauto. done.
Qed.

(** What the count does, by the state of the directory. *)
Lemma count_downloaded_files_run (directory : str) (w : world) :
  danbooru_downloader._count_downloaded_files directory w =
  match fs w !! directory with
  | None => (0, World (fs w) (trace w ++ [PathExists directory]))
  | Some Dir =>
      (length (filter danbooru_downloader.is_counted
                      (listing (fs w) directory)),
       World (fs w) (trace w ++ [PathExists directory; ListDir directory]))
  | Some (File _) =>
      (0, World (fs w) (trace w ++ [PathExists directory; ListDir directory]))
  end.
Proof.
  unfold danbooru_downloader._count_downloaded_files, bind, ret,
    os_path_exists, os_listdir, syscall.
  destruct (fs w !! directory) as [[c|]|] eqn:E; simpl; rewrite ?E; simpl;
    by rewrite <- ?app_assoc.
Qed.

(** X20. The count of the downloader and the scan of the post-processor
    agree up to the names that are only dots before an image suffix (as
    [.png]), which the downloader counts and the scanner does not take for
    images: when the scan of a directory succeeds, the count is the number
    of records plus the number of such names.  The count is 0 for a path
    that is not a directory, and counting leaves the file system as it
    is. *)
Theorem count_downloaded_files_and_scan (directory : str) (w : world) :
  (∀ infos unpaired,
     (scan_and_match_files directory w).1 = inr (infos, unpaired) →
     (danbooru_downloader._count_downloaded_files directory w).1
     = length infos
       + length (filter (λ n, danbooru_downloader.is_counted n
                              ∧ (splitext n).2 = [])
                        (listing (fs w) directory)))
  ∧ (fs w !! directory ≠ Some Dir →
     (danbooru_downloader._count_downloaded_files directory w).1 = 0)
  ∧ fs (danbooru_downloader._count_downloaded_files directory w).2 = fs w.
Proof.
  rewrite count_downloaded_files_run. split; [|split].
  - intros infos unpaired Hscan.
    pose proof Hscan as [-> _]%scan_result_lists.
    rewrite scan_and_match_files_run in Hscan.
    destruct (fs w !! directory) as [[c|]|] eqn:Ed; [done| |done].
    cbn [fst]. rewrite scan_infos, length_fmap. unfold sorted.
    rewrite (Permutation_length (merge_sort_Permutation _ _)).
    apply count_split.
  - intros Hd. by destruct (fs w !! directory) as [[c|]|].
  - by destruct (fs w !! directory) as [[c|]|].
Qed.

Lemma count_downloaded_files_and_scan_witness :
  (danbooru_downloader._count_downloaded_files (lit "d")
     (World (list_to_map [(lit "d", Dir); (lit "d/a.png", File (lit "A"));
                          (lit "d/.png", File (lit "H"))]) [])).1 = 2
  ∧ (danbooru_downloader._count_downloaded_files (lit "missing")
       (World pair_fs [])).1 = 0.
Proof.
  split.
  - destruct (count_downloaded_files_and_scan (lit "d")
                (World (list_to_map [(lit "d", Dir);
                                     (lit "d/a.png", File (lit "A"));
                                     (lit "d/.png", File (lit "H"))]) []))
      as (H & _ & _).
    rewrite (H [mkFileInfo (Some (lit "d/a.png")) None (lit "a") false] []);
      vm_compute; reflexivity.
  - apply (count_downloaded_files_and_scan (lit "missing") (World pair_fs [])).
    discriminate.
Defined.

(** * The order of the records *)

Lemma nat_of_ascii_ne (x y : ascii) : x ≠ y → nat_of_ascii x ≠ nat_of_ascii y.
Proof.
  intros H E. apply H.
  by rewrite <- (ascii_nat_embedding x), <- (ascii_nat_embedding y), E.
Qed.

#[global] Instance str_le_total : Total str_le.
Proof.
  intros a. unfold str_le. induction a as [|x a IH]; intros [|y b]; simpl;
    auto.
  destruct (decide (x = y)) as [->|Hne].
  - rewrite decide_True by done. apply IH.
  - rewrite (decide_False (P := y = x)) by (by intros ->).
    apply nat_of_ascii_ne in Hne.
    destruct (nat_of_ascii x <? nat_of_ascii y) eqn:E; [by left | right].
    apply Nat.ltb_ge in E. apply Nat.ltb_lt. lia.
Qed.

#[global] Instance str_le_trans : Transitive str_le.
Proof.
  intros a. unfold str_le.
  induction a as [|x a IH]; intros [|y b] [|z c]; simpl; try done.
  destruct (decide (x = y)) as [->|Hxy], (decide (y = z)) as [->|Hyz];
    rewrite ?decide_True by done.
  - apply IH.
  - by intros _ ?.
  - rewrite decide_False by done. by intros ? _.
  - intros H1%Nat.ltb_lt H2%Nat.ltb_lt.
    destruct (decide (x = z)) as [->|Hxz]; [lia|]. apply Nat.ltb_lt. lia.
Qed.

Lemma StronglySorted_lookup {A} (R : relation A) (l : list A) (i j : nat)
    (a b : A) :
  StronglySorted R l → i < j → l !! i = Some a → l !! j = Some b → R a b.
Proof.
  intros H. revert i j. induction H as [|x l Hl IH Hx]; intros i j Hij Hi Hj;
    [done|].
  destruct j as [|j]; [lia|]. destruct i as [|i]; simpl in *.
  - injection Hi as <-. rewrite Forall_forall in Hx. apply Hx.
    by eapply list_elem_of_lookup_2.
  - apply (IH i j); [lia | done..].
Qed.

(** X21. The records of a scan are in the ascending order of the image
    names, compared character by character by code point (so [10.png] comes
    before [2.png], and [B.png] before [a.png]): of two records the earlier
    one has the smaller name, and the names are different. *)
Theorem scan_records_in_name_order
    (folder : str) (w : world) (infos : list FileInfo) (unpaired : list str)
    (i j : nat) (fi fj : FileInfo) :
  (scan_and_match_files folder w).1 = inr (infos, unpaired) →
  i < j → infos !! i = Some fi → infos !! j = Some fj →
  ∃ a b, image_path fi = Some (os_path_join folder a)
       ∧ image_path fj = Some (os_path_join folder b)
       ∧ str_le a b ∧ a ≠ b.
Proof.
  intros [-> _]%scan_result_lists Hij Hi Hj.
  rewrite scan_infos in Hi, Hj.
  apply list_lookup_fmap_Some in Hi as (a & -> & Hi).
  apply list_lookup_fmap_Some in Hj as (b & -> & Hj).
  exists a, b. rewrite !image_path_match_image.
  split; [done|]. split; [done|]. split.
  - eapply (StronglySorted_lookup str_le); [|exact Hij|exact Hi|exact Hj].
    unfold sorted. apply StronglySorted_merge_sort; apply _.
  - intros ->.
    assert (i = j); [|lia].
    eapply NoDup_lookup; [|exact Hi|exact Hj].
    apply sorted_NoDup, NoDup_filter, NoDup_listing.
Qed.

Lemma scan_records_in_name_order_witness :
  ∃ a b,
    Some (lit "d/10.png") = Some (os_path_join (lit "d") a)
    ∧ Some (lit "d/2.png") = Some (os_path_join (lit "d") b)
    ∧ str_le a b ∧ a ≠ b.
Proof.
  apply (scan_records_in_name_order (lit "d")
           (World (list_to_map [(lit "d", Dir); (lit "d/2.png", File (lit "B"));
                                (lit "d/10.png", File (lit "A"))]) [])
           [mkFileInfo (Some (lit "d/10.png")) None (lit "10") false;
            mkFileInfo (Some (lit "d/2.png")) None (lit "2") false]
           [] 0 1
           (mkFileInfo (Some (lit "d/10.png")) None (lit "10") false)
           (mkFileInfo (Some (lit "d/2.png")) None (lit "2") false)).
  - vm_compute. reflexivity.
  - lia.
  - reflexivity.
  - reflexivity.
Defined.

(** * The name that the unpaired handler picks *)

(** The search ends at the first destination that does not exist. *)
Lemma free_dest_first (fuel : nat) (original : str) (k : nat) (w : world) :
  let r := free_dest fuel original (dest_at original k) (k + 1) w in
  ∃ j, k ≤ j ∧ r.1 = dest_at original j
    ∧ ∀ j', k ≤ j' < j → is_Some (fs w !! dest_at original j').
Proof.
  revert k w. induction fuel as [|fuel IH]; intros k w; cbn [free_dest].
  - exists k. split; [done|]. split; [done|]. intros j' Hj'. lia.
  - unfold bind. rewrite os_path_exists_run.
    destruct (bool_decide (is_Some (fs w !! dest_at original k))) eqn:E.
    + apply bool_decide_eq_true in E.
      set (w1 := World (fs w) (trace w ++ [PathExists (dest_at original k)])).
      destruct (IH (S k) w1) as (j & Hj & H2 & H3).
      change (fs w1) with (fs w) in H3.
      assert (Ed : dest_at original (S k)
                   = (splitext original).1 ++ lit "_" ++ str_of_nat (k + 1)
                       ++ (splitext original).2)
        by (rewrite Nat.add_1_r; done).
      rewrite Ed in H2.
      replace (S k + 1) with (k + 1 + 1) in H2 by lia.
      destruct (splitext original) as [name ext].
      cbn [fst snd] in *. exists j. split; [lia|]. split; [done|].
      intros j' Hj'. destruct (decide (j' = k)) as [->|]; [done|].
      apply H3. lia.
    + exists k. split; [done|]. split; [done|]. intros j' Hj'. lia.
Qed.

(** X22. The unpaired handler puts a file at the first name that is free in
    the [unpaired] folder, among the name of the file and then that name
    with [_1], [_2], ... before its extension: for one file with nothing
    below it, every candidate before the one taken exists, the one taken
    did not, and after the handler it holds the content of the file, which
    is gone from its old path; everything else is as it was, but for the
    [unpaired] folder, which is now a directory. *)
Theorem handle_unpaired_files_first_free
    (folder f : str) (w : world) (c : content) :
  let d := os_path_join folder (lit "unpaired") in
  let original := d ++ slash :: basename f in
  fs w !! f = Some (File c) →
  (∀ k, strictly_below f k → fs w !! k = None ∧ k ≠ d) →
  is_file (fs w) d = false →
  children_closed d (fs w) →
  let m' := fs (handle_unpaired_files folder [f] w).2 in
  ∃ j, (∀ j', j' < j → is_Some (fs w !! dest_at original j'))
    ∧ fs w !! dest_at original j = None
    ∧ m' !! dest_at original j = Some (File c)
    ∧ m' !! f = None
    ∧ m' !! d = Some Dir
    ∧ ∀ k, k ≠ f → k ≠ dest_at original j → k ≠ d → m' !! k = fs w !! k.
Proof.
  intros d original Hf Hleaf Hd Hclosed m'. subst m'.
  destruct (unpaired_folder_shape folder) as (_ & Hd1 & Hd2).
  fold d in Hd1, Hd2.
  set (m0 := match fs w !! d with Some Dir => fs w | _ => <[d := Dir]> (fs w) end).
  assert (Hfd : f ≠ d).
  { intros ->. unfold is_file in Hd. by rewrite Hf in Hd. }
  assert (Hm0 : ∀ k, k ≠ d → m0 !! k = fs w !! k).
  { intros k Hk. unfold m0. destruct (fs w !! d) as [[?|]|]; try done;
      by rewrite lookup_insert_ne. }
  assert (Hm0d : m0 !! d = Some Dir).
  { unfold m0. destruct (fs w !! d) as [[?|]|] eqn:E; try done;
      by rewrite lookup_insert_eq. }
  assert (Hne : ∀ x, d ++ slash :: x ≠ d).
  { intros x E. apply (f_equal length) in E. rewrite length_app in E.
    simpl in E. lia. }
  assert (Hmain : ∀ w0, fs w0 = m0 →
            ∃ j, (∀ j', j' < j → is_Some (fs w !! dest_at original j'))
              ∧ fs w !! dest_at original j = None
              ∧ (move_unpaired d f w0).1 = inr ()
              ∧ fs (move_unpaired d f w0).2
                = <[dest_at original j := File c]> (delete f m0)).
  { intros w0 Ew0. unfold move_unpaired, bind, get_fs.
    assert (Eo : os_path_join d (basename f) = original).
    { unfold os_path_join.
      rewrite startswith_slash_false by apply basename_no_slash.
      rewrite bool_decide_eq_false_2 by done. by rewrite Hd2. }
    rewrite Eo.
    destruct (free_dest_enough_fuel original w0) as (Hfree & Hfs & _).
    destruct (free_dest_first (S (size (fs w0))) original 0 w0)
      as (j & _ & Hj & Hbefore).
    change (dest_at original 0) with original in Hj.
    change (0 + 1) with 1 in Hj.
    destruct (free_dest (S (size (fs w0))) original original 1 w0)
      as [dest w1]. cbn [fst snd] in *. subst dest.
    destruct (dest_at_child d (basename f) j (basename_no_slash f))
      as (s & Es & Hs). fold original in Es.
    assert (Hdj : ∀ j', dest_at original j' ≠ d).
    { intros j'.
      destruct (dest_at_child d (basename f) j' (basename_no_slash f))
        as (s' & E' & _). unfold original. rewrite E'. apply Hne. }
    exists j. split; [|split].
    - intros j' Hj'. rewrite <- Hm0, <- Ew0 by apply Hdj.
      apply Hbefore. lia.
    - rewrite <- Hm0, <- Ew0 by apply Hdj. done.
    - unfold shutil_move, syscall. rewrite Hfs, Ew0.
      rewrite (rename_fs_file (Move f (dest_at original j)) f
                 (dest_at original j) m0 c); [done| | | |].
      + by rewrite Hm0.
      + by rewrite <- Ew0.
      + intros k Hk. destruct (Hleaf k Hk). by rewrite Hm0.
      + intros k [r ->]. rewrite Es, <- app_assoc. simpl.
        rewrite Hm0 by apply Hne. apply Hclosed; [done|].
        rewrite <- Es. rewrite <- Hm0, <- Ew0 by apply Hdj. done. }
  assert (Eq : fs (handle_unpaired_files folder [f] w).2
               = fs (move_unpaired d f (World m0 (trace w ++ [MakeDirs d]))).2).
  { unfold handle_unpaired_files.
    change (negb create_unpaired_folder) with false. cbv iota. fold d.
    unfold bind, ret, os_makedirs, syscall, m0. unfold is_file in Hd.
    destruct (fs w !! d) as [[c'|]|] eqn:Ed; [done| |];
      cbn [move_loop fst snd]; unfold bind, ret;
      by destruct (move_unpaired d f _) as [[e|[]] w1]. }
  rewrite Eq.
  destruct (Hmain (World m0 (trace w ++ [MakeDirs d])) eq_refl)
    as (j & H1 & H2 & _ & H4).
  rewrite H4. exists j.
  assert (Hfj : f ≠ dest_at original j) by congruence.
  assert (Hdj : dest_at original j ≠ d).
  { destruct (dest_at_child d (basename f) j (basename_no_slash f))
      as (s' & E' & _). unfold original. rewrite E'. apply Hne. }
  split; [done|]. split; [done|].
  split; [by rewrite lookup_insert_eq|].
  split; [rewrite lookup_insert_ne by done; apply lookup_delete_eq|].
  split; [by rewrite lookup_insert_ne, lookup_delete_ne by done|].
  intros k ? ? ?. rewrite lookup_insert_ne, lookup_delete_ne by done.
  by apply Hm0.
Qed.

Lemma handle_unpaired_files_first_free_witness :
  fs (handle_unpaired_files (lit "d") [lit "d/z.txt"]
        (World (<[lit "d/unpaired/z.txt" := File (lit "old")]>
                  (<[lit "d/unpaired" := Dir]> pair_fs)) [])).2
    !! lit "d/unpaired/z_1.txt" = Some (File (lit "Z")).
Proof.
  destruct (handle_unpaired_files_first_free (lit "d") (lit "d/z.txt")
              (World (<[lit "d/unpaired/z.txt" := File (lit "old")]>
                        (<[lit "d/unpaired" := Dir]> pair_fs)) [])
              (lit "Z")) as (j & H1 & H2 & H3 & _).
  - vm_compute. reflexivity.
  - intros k Hk.
    apply (nothing_below_check [lit "d/z.txt"]
             (os_path_join (lit "d") (lit "unpaired"))
             (<[lit "d/unpaired/z.txt" := File (lit "old")]>
                (<[lit "d/unpaired" := Dir]> pair_fs))
             ltac:(by_compute) (lit "d/z.txt") k); [left | done].
  - vm_compute. reflexivity.
  - apply children_closed_check. by_compute.
  - destruct j as [|[|j]].
    + vm_compute in H2. discriminate H2.
    + vm_compute in H3. vm_compute. exact H3.
    + specialize (H1 1 ltac:(lia)). vm_compute in H1.
      by destruct H1 as [? [=]].
Defined.

(** * Repeating a manual edit *)

Lemma filter_Forall_id {A} (P : A → Prop) `{∀ x, Decision (P x)}
    (l : list A) :
  Forall P l → filter P l = l.
Proof.
  induction 1 as [|x l Hx _ IH]; [done|].
  by rewrite filter_cons_True, IH.
Qed.

Lemma strip_nonempty_app (a b : list str) :
  strip_nonempty (a ++ b) = strip_nonempty a ++ strip_nonempty b.
Proof. unfold strip_nonempty. by rewrite filter_app, fmap_app. Qed.

Lemma unique_from_seen (seen : gset str) (l : list str) :
  (∀ t, t ∈ l → t ∈ seen) → unique_from seen l = [].
Proof.
  induction l as [|t l IH]; intros H; [done|]. simpl.
  rewrite decide_True by (apply H; left). apply IH.
  intros u Hu. apply H. by right.
Qed.

(** The tags of a text survive the removal steps when none of them is to
    be removed. *)
Lemma remaining_tags_keep (U : list str) (rm rc : pyset) :
  Forall (λ t, strip t = t ∧ t ≠ [] ∧ comma ∉ t) U →
  Forall (λ t, t ∉ rm ∧ should_remove rc t = false) U →
  remaining_tags (join (lit ", ") U) rm rc = U.
Proof.
  intros Hclean Hkeep. unfold remaining_tags.
  rewrite split_clean_join by done.
  assert (H1 : Forall (λ t, t ∉ rm) U)
    by (eapply Forall_impl; [exact Hkeep|]; by intros ? []).
  assert (H2 : Forall (λ t, should_remove rc t = false) U)
    by (eapply Forall_impl; [exact Hkeep|]; by intros ? []).
  destruct rm as [|r rm]; destruct rc as [|s rc]; try done.
  - by apply filter_Forall_id.
  - by apply filter_Forall_id.
  - rewrite (filter_Forall_id (λ tag, tag ∉ r :: rm) U) by done.
    by apply filter_Forall_id.
Qed.

(** X23. Repeating a manual edit changes nothing more, when no tag to add
    holds a comma and no tag to add is itself removed by the edit (it is
    not in [remove_tags] and contains no member of [remove_containing],
    once trimmed): [clean_and_edit_tags] with the same arguments maps its
    own result to itself. *)
Theorem clean_and_edit_tags_twice
    (text : str) (remove_tags remove_containing add_tags : option pyset) :
  (∀ a, a ∈ or_empty add_tags →
        comma ∉ a ∧ strip a ∉ or_empty remove_tags
        ∧ ∀ s, s ∈ or_empty remove_containing →
               ∀ x y, strip a ≠ x ++ s ++ y) →
  clean_and_edit_tags
    (clean_and_edit_tags text remove_tags remove_containing add_tags)
    remove_tags remove_containing add_tags
  = clean_and_edit_tags text remove_tags remove_containing add_tags.
Proof.
  intros Hadd. unfold clean_and_edit_tags at 2 3.
  destruct (decide (text = [] ∨ strip text = [])) as [|Hguard]; [done|].
  set (rm := or_empty remove_tags) in *.
  set (rc := or_empty remove_containing) in *.
  set (ad := or_empty add_tags) in *.
  set (R := remaining_tags text rm rc).
  rewrite add_new_tags_filter.
  set (T1 := unique (strip_nonempty (R ++ filter (λ t, t ∉ R) ad))).
  assert (Hin : ∀ t, t ∈ T1 ↔
            t ≠ [] ∧ ∃ x, t = strip x ∧ (x ∈ R ∨ x ∈ ad)).
  { intros t. unfold T1. rewrite elem_of_unique, strip_nonempty_elem. split.
    - intros (x & [Hx|[_ Hx]%list_elem_of_filter]%elem_of_app & -> & Hne);
        eauto.
    - intros (Hne & x & -> & Hx). exists x. split; [|done].
      apply elem_of_app. destruct (decide (x ∈ R)) as [|Hn]; [by left|].
      right. apply list_elem_of_filter. destruct Hx; done. }
  assert (HR : ∀ x, x ∈ R →
            strip x = x ∧ comma ∉ x ∧ x ∉ rm ∧ should_remove rc x = false).
  { intros x Hx.
    pose proof (remaining_tags_clean text rm rc) as Hc.
    rewrite Forall_forall in Hc. destruct (Hc x Hx) as [Hs _].
    apply elem_of_remaining_tags in Hx as (Hx & ? & ?).
    pose proof (split_comma_clean text) as Hsc.
    rewrite Forall_forall in Hsc. destruct (Hsc x Hx) as (_ & _ & ?). done. }
  assert (Hclean : Forall (λ t, strip t = t ∧ t ≠ [] ∧ comma ∉ t) T1).
  { apply Forall_forall. intros t Ht. pose proof Ht as (Hne & x & -> & Hx)%Hin.
    split; [apply strip_idemp|]. split; [done|].
    destruct Hx as [Hx|Hx].
    - destruct (HR x Hx) as (-> & ? & _). done.
    - intros Hc%strip_elem. by destruct (Hadd x Hx). }
  assert (Hkeep : Forall (λ t, t ∉ rm ∧ should_remove rc t = false) T1).
  { apply Forall_forall. intros t (Hne & x & -> & [Hx|Hx])%Hin.
    - destruct (HR x Hx) as (-> & _ & ? & ?). done.
    - destruct (Hadd x Hx) as (_ & ? & ?). split; [done|].
      by apply should_remove_spec. }
  assert (Hnd : NoDup T1) by apply unique_from_NoDup.
  destruct T1 as [|t U] eqn:ET; [done|].
  unfold clean_and_edit_tags. fold rm rc ad.
  apply Forall_inv in Hclean as Ht.
  rewrite decide_False.
  2:{ destruct Ht as (Hs & Hne & _).
      pose proof (join_clean_nonblank t U Hs Hne) as Hnb.
      intros [H|H]; [|done]. by rewrite H in Hnb. }
  rewrite remaining_tags_keep by done.
  rewrite add_new_tags_filter, strip_nonempty_app.
  rewrite strip_nonempty_fixed
    by (eapply Forall_impl; [exact Hclean|]; by intros ? (? & ? & _)).
  unfold unique.
  rewrite unique_from_app, (unique_from_seen (list_to_set (t :: U) ∪ ∅)).
  - rewrite app_nil_r. by rewrite unique_from_fixed by (done || set_solver).
  - intros e (a & [Hnot Ha]%list_elem_of_filter & -> & Hne)%strip_nonempty_elem.
    apply elem_of_union. left. apply elem_of_list_to_set, Hin.
    split; [done|]. exists a. split; [done|]. by right.
Qed.

Lemma clean_and_edit_tags_twice_witness :
  clean_and_edit_tags
    (clean_and_edit_tags (lit "a, b_c ,d") (Some [lit "a"]) (Some [lit "_"])
       (Some [lit " new "; lit "d"]))
    (Some [lit "a"]) (Some [lit "_"]) (Some [lit " new "; lit "d"])
  = lit "d, new".
Proof.
  rewrite (clean_and_edit_tags_twice (lit "a, b_c ,d") (Some [lit "a"])
             (Some [lit "_"]) (Some [lit " new "; lit "d"])).
  - vm_compute. reflexivity.
  - intros a [->|[->|Ha%elem_of_nil]%elem_of_cons]%elem_of_cons; [| |done].
    + split; [by_compute|]. split; [by_compute|].
      intros s Hs.
      apply (proj1 (should_remove_spec [lit "_"] (strip (lit " new ")))
               ltac:(vm_compute; reflexivity) s Hs).
    + split; [by_compute|]. split; [by_compute|].
      intros s Hs.
      apply (proj1 (should_remove_spec [lit "_"] (strip (lit "d")))
               ltac:(vm_compute; reflexivity) s Hs).
Defined.

(** * The images in the automatic pipeline *)

(** ** What the unpaired handler leaves in the folder *)

(** The loop of the handler on distinct files that have nothing below them
    and are not in the [unpaired] folder: the files are gone from their
    paths, and outside that folder every other path is as it was. *)
Lemma move_loop_exact (d : str) (files : list str) (r : ProcessResult)
    (w : world) :
  d ≠ [] → endswith d [slash] = false →
  fs w !! d = Some Dir →
  NoDup files →
  Forall (λ f, is_file (fs w) f = true) files →
  (∀ f k, f ∈ files → strictly_below f k → fs w !! k = None) →
  children_closed d (fs w) →
  (∀ f, f ∈ files → at_or_below d f = false) →
  (∀ f, f ∈ files → fs (move_loop d files r w).2 !! f = None)
  ∧ (∀ k, k ∉ files → at_or_below d k = false →
          fs (move_loop d files r w).2 !! k = fs w !! k).
Proof.
  intros Hd1 Hd2. revert r w.
  induction files as [|f rest IH];
    intros r w Hd Hnd Hfiles Hleaf Hclosed Hout.
  { simpl. split; [by intros f ?%elem_of_nil | done]. }
  apply NoDup_cons in Hnd as [Hf Hnd].
  apply Forall_cons in Hfiles as [Hfile Hfiles].
  rewrite Forall_forall in Hfiles.
  unfold is_file in Hfile.
  destruct (fs w !! f) as [[c|]|] eqn:Ef; try done.
  destruct (move_unpaired_file d f w c Hd1 Hd2 Ef) as
    (dest & s & Edest & Hs & Hfree & Hres & Hfs);
    [intros k Hk; apply (Hleaf f); [left | done] | done |].
  assert (E : move_loop d (f :: rest) r w
              = move_loop d rest
                  (set_unpaired_files r (unpaired_files r + 1))
                  (move_unpaired d f w).2).
  { cbn [move_loop]. unfold bind.
    destruct (move_unpaired d f w) as [res w1]. cbn [fst snd] in Hres.
    by subst res. }
  rewrite E. clear E.
  destruct (move_unpaired d f w) as [res w1]. cbn [fst snd] in *. subst res.
  assert (Hdd : dest ≠ d).
  { intros E. apply (f_equal length) in E. rewrite Edest, length_app in E.
    simpl in E. lia. }
  assert (Hbelow : at_or_below d dest = true).
  { apply at_or_below_true. right. by exists s. }
  assert (Hfd : f ≠ d) by congruence.
  assert (Hfdest : f ≠ dest) by congruence.
  assert (Hlook : ∀ k, k ≠ dest → k ≠ f → fs w1 !! k = fs w !! k).
  { intros k ? ?. by rewrite Hfs, lookup_insert_ne, lookup_delete_ne. }
  assert (Hrest : ∀ f', f' ∈ rest → f' ≠ f ∧ f' ≠ dest).
  { intros f' Hf'. split; [by intros ->|]. intros ->.
    apply Hfiles in Hf'. unfold is_file in Hf'. by rewrite Hfree in Hf'. }
  destruct (IH (set_unpaired_files r (unpaired_files r + 1)) w1)
    as (I1 & I2).
  - by rewrite Hlook.
  - done.
  - apply Forall_forall. intros f' Hf'. destruct (Hrest f' Hf').
    unfold is_file. rewrite Hlook by done. by apply Hfiles.
  - intros f' k Hf' Hk. rewrite Hfs.
    destruct (decide (k = dest)) as [->|Hkd].
    + exfalso. destruct Hk as [r' Er]. rewrite Edest in Er. symmetry in Er.
      apply strictly_below_child in Er as [->|Hb]; [| |done].
      * apply Hfiles in Hf'. unfold is_file in Hf'. by rewrite Hd in Hf'.
      * rewrite (Hleaf f' d) in Hd; [done | by right | done].
    + rewrite lookup_insert_ne by done.
      destruct (decide (k = f)) as [->|]; [apply lookup_delete_eq|].
      rewrite lookup_delete_ne by done. apply (Hleaf f'); [by right | done].
  - intros name r' Hname Hnone. rewrite Hfs in Hnone |- *.
    assert (d ++ slash :: name ++ slash :: r' ≠ dest).
    { rewrite Edest. intros E%app_inv_head. injection E as <-.
      apply Hs, elem_of_app. right. left. }
    rewrite lookup_insert_ne by done.
    destruct (decide (d ++ slash :: name = dest)) as [E|Hnd'];
      [by rewrite E, lookup_insert_eq in Hnone|].
    rewrite lookup_insert_ne in Hnone by done.
    destruct (decide (d ++ slash :: name ++ slash :: r' = f)) as [<-|Hne];
      [apply lookup_delete_eq|].
    rewrite lookup_delete_ne by done.
    destruct (decide (d ++ slash :: name = f)) as [E|Hne'].
    + apply (Hleaf f); [left|]. exists r'. rewrite <- E.
      by rewrite <- app_assoc.
    + rewrite lookup_delete_ne in Hnone by done. by apply Hclosed.
  - intros f' Hf'. apply Hout. by right.
  - split.
    + intros f' [->|Hf']%elem_of_cons; [|by apply I1].
      rewrite I2; [|done|apply Hout; left].
      by rewrite Hfs, lookup_insert_ne, lookup_delete_eq.
    + intros k [Hkf Hkr]%not_elem_of_cons Hk.
      rewrite I2 by done. apply Hlook; [|done]. intros ->. congruence.
Qed.

(** The same for the handler: the [unpaired] folder is made when it is not
    there. *)
Lemma handle_unpaired_files_exact (folder : str) (files : list str)
    (w : world) :
  let d := os_path_join folder (lit "unpaired") in
  NoDup files →
  Forall (λ f, is_file (fs w) f = true) files →
  (∀ f k, f ∈ files → strictly_below f k → fs w !! k = None ∧ k ≠ d) →
  is_file (fs w) d = false →
  children_closed d (fs w) →
  (∀ f, f ∈ files → at_or_below d f = false) →
  let m' := fs (handle_unpaired_files folder files w).2 in
  (∀ f, f ∈ files → m' !! f = None)
  ∧ (∀ k, k ∉ files → at_or_below d k = false → m' !! k = fs w !! k).
Proof.
  intros d Hnd Hfiles Hleaf Hd Hclosed Hout m'. subst m'.
  unfold handle_unpaired_files.
  destruct files as [|f0 rest].
  { cbn. split; [by intros f ?%elem_of_nil | done]. }
  change (negb create_unpaired_folder) with false. cbv iota.
  revert Hnd Hfiles Hleaf Hout. generalize (f0 :: rest). clear f0 rest.
  intros files Hnd Hfiles Hleaf Hout.
  destruct (unpaired_folder_shape folder) as (_ & Hd1 & Hd2).
  fold d in Hd1, Hd2 |- *.
  unfold bind, ret, os_makedirs, syscall.
  set (m0 := match fs w !! d with Some Dir => fs w | _ => <[d := Dir]> (fs w) end).
  assert (Hm0 : ∀ k, k ≠ d → m0 !! k = fs w !! k).
  { intros k Hk. unfold m0. destruct (fs w !! d) as [[?|]|]; try done;
      by rewrite lookup_insert_ne. }
  assert (Hm0d : m0 !! d = Some Dir).
  { unfold m0. destruct (fs w !! d) as [[?|]|] eqn:E; try done;
      by rewrite lookup_insert_eq. }
  assert (Hfd : ∀ f, f ∈ files → f ≠ d).
  { rewrite Forall_forall in Hfiles. intros f Hf%Hfiles ->. congruence. }
  assert (Hkd : ∀ k, at_or_below d k = false → k ≠ d).
  { intros k Hk ->. unfold at_or_below in Hk.
    by rewrite bool_decide_eq_true_2 in Hk. }
  assert (Hpre : ∀ r0 w0, fs w0 = m0 →
            (∀ f, f ∈ files → fs (move_loop d files r0 w0).2 !! f = None)
            ∧ (∀ k, k ∉ files → at_or_below d k = false →
                    fs (move_loop d files r0 w0).2 !! k = fs w !! k)).
  { intros r0 w0 Ew0.
    destruct (move_loop_exact d files r0 w0 Hd1 Hd2) as (I1 & I2).
    - by rewrite Ew0.
    - done.
    - rewrite Ew0. eapply Forall_impl; [exact Hfiles|].
      intros f Hf. unfold is_file in *. rewrite Hm0; [done|].
      intros ->. by rewrite Hf in Hd.
    - intros f k Hf Hk. rewrite Ew0. destruct (Hleaf f k Hf Hk) as [? ?].
      by rewrite Hm0.
    - rewrite Ew0. intros name r' Hname Hnone.
      assert (∀ x, d ++ slash :: x ≠ d).
      { intros x E. apply (f_equal length) in E. rewrite length_app in E.
        simpl in E. lia. }
      rewrite Hm0 in Hnone |- * by done. by apply Hclosed.
    - done.
    - split; [done|]. intros k Hk Hb. rewrite I2 by done.
      rewrite Ew0. by apply Hm0, Hkd. }
  unfold is_file in Hd.
  destruct (fs w !! d) as [[c|]|] eqn:Ed; [done| |]; cbn [fst snd];
    match goal with
    | |- context [move_loop d files ?r0 ?w0] =>
        destruct (Hpre r0 w0 eq_refl) as (I1 & I2);
        destruct (move_loop d files r0 w0) as [r2 w2]
    end; cbn [fst snd] in *; by split.
Qed.

(** ** The plan of the renamer after the unpaired handler *)

Lemma first_slash (a b r r' : str) :
  slash ∉ a → slash ∉ b → a ++ slash :: r = b ++ slash :: r' → a = b.
Proof.
  revert b. induction a as [|c a IH]; intros [|c' b] Ha Hb E; simpl in E.
  - done.
  - injection E as <- _. exfalso. apply Hb. left.
  - injection E as -> _. exfalso. apply Ha. left.
  - injection E as -> E. f_equal. apply IH; [..|done].
    + intros ?. apply Ha. by right.
    + intros ?. apply Hb. by right.
Qed.

(** An entry of the folder other than [unpaired], and what is below it, is
    not at or below the [unpaired] folder. *)
Lemma outside_unpaired (folder X : str) :
  slash ∉ X → X ≠ lit "unpaired" →
  let d := os_path_join folder (lit "unpaired") in
  at_or_below d (os_path_join folder X) = false
  ∧ ∀ r, at_or_below d (os_path_join folder X ++ slash :: r) = false.
Proof.
  intros HX Hne d.
  assert (Hu : slash ∉ lit "unpaired") by by_compute.
  unfold d.
  rewrite (os_path_join_name folder X),
    (os_path_join_name folder (lit "unpaired")) by done.
  split; [|intros r]; apply not_true_iff_false;
    intros [E|[r' E]]%at_or_below_true.
  - by apply app_inv_head in E.
  - rewrite <- app_assoc in E. apply app_inv_head in E. apply HX.
    rewrite E. apply elem_of_app. right. left.
  - rewrite <- app_assoc in E. apply app_inv_head in E. apply Hu.
    rewrite <- E. apply elem_of_app. right. left.
  - rewrite <- !app_assoc in E. apply app_inv_head in E.
    by apply first_slash in E.
Qed.

(** A numeric name with the extension of an image is the name of an
    image. *)
Lemma numbered_name_is_image (n : nat) (img : str) :
  is_image img → is_image (str_of_nat n ++ (splitext img).2).
Proof.
  intros Himage.
  destruct (ext_like_image img Himage) as (rest & Erest & Hd & Hs).
  unfold is_image. rewrite Erest, splitext_name; try done.
  - cbn [snd]. rewrite <- Erest. exact Himage.
  - apply str_of_nat_no. exact (bool_decide_unpack (¬ is_digit slash) I).
  - apply has_non_dot_str_of_nat.
Qed.

Section pipeline_rename.
Context (folder : str) (m m2 : gmap str node).

Let files := listing m folder.
Let infos := (scan_lists folder files).1.1.
Let unpaired := (scan_lists folder files).2.
Let plan := rename_plan folder rename_start_index infos.
Let J := os_path_join folder.
Let d := J (lit "unpaired").

Hypothesis Htidy : tidy folder m.
Hypothesis Hgone : ∀ p, p ∈ unpaired → m2 !! p = None.
Hypothesis Hkeep :
  ∀ k, k ∉ unpaired → at_or_below d k = false → m2 !! k = m !! k.

Lemma unpaired_inv p :
  p ∈ unpaired →
  ∃ t, p = J t ∧ t ∈ files ∧ is_text t
       ∧ ∀ fi, fi ∈ infos → text_path fi ≠ Some p.
Proof. apply scan_unpaired_files. intros n. apply listing_names. Qed.

(** A path to rename is an image or a caption of a record: it is a file,
    and the handler does not get it. *)
Lemma tidy_plan_olds p :
  p ∈ plan.1.*1 →
  ∃ X, slash ∉ X ∧ X ≠ lit "unpaired" ∧ p = J X
       ∧ p ∉ unpaired ∧ is_file m p = true.
Proof.
  intros ([s t] & -> & Hin)%list_elem_of_fmap. cbn [fst].
  apply rename_plan_elem in Hin as (i & fi & Hi & Hin).
  pose proof Hi as Hfi%list_elem_of_lookup_2.
  apply scan_plan_piece in Hi
    as (img & caps & _ & _ & Himg & Himage & Hcaps & E1 & _).
  rewrite E1 in Hin. apply elem_of_cons in Hin as [[= -> ->]|Hin].
  - exists img. destruct (listing_names _ _ _ Himg) as [_ Hs].
    split; [done|]. split.
    { intros ->. revert Himage.
      exact (bool_decide_unpack (¬ is_image (lit "unpaired")) I). }
    split; [done|]. split; [|apply Htidy; auto].
    intros (t' & E & Ht & Htxt & _)%unpaired_inv.
    apply os_path_join_inj in E as ->; [|done|by apply (listing_names m folder)].
    by apply (is_text_not_image t').
  - apply list_elem_of_fmap in Hin as (c & [= -> ->] & Hc).
    destruct Hcaps as [[-> _]|(c' & -> & Et & Hc' & Ht)];
      [by apply elem_of_nil in Hc|].
    apply list_elem_of_singleton in Hc as ->.
    destruct (listing_names _ _ _ Hc') as [_ Hs].
    exists c'. split; [done|]. split.
    { intros ->. revert Ht.
      exact (bool_decide_unpack (¬ is_text (lit "unpaired")) I). }
    split; [done|]. split; [|apply Htidy; auto].
    intros (t' & _ & _ & _ & Hfree)%unpaired_inv. by apply (Hfree fi).
Qed.

(** A temporary name is not in use, and the handler does not get it. *)
Lemma tidy_plan_temps p :
  p ∈ plan.1.*2 →
  ∃ X, slash ∉ X ∧ X ≠ lit "unpaired" ∧ p = J X
       ∧ p ∉ unpaired ∧ m !! p = None.
Proof.
  intros Hp.
  pose proof (scan_plan_temps_free folder m (tidy_temp _ _ Htidy)) as Hfree.
  rewrite Forall_forall in Hfree. pose proof (Hfree p Hp) as Hnone.
  apply scan_plan_temps_inv in Hp as (n & E & HE & ->).
  assert (Hs : slash ∉ lit "temp_" ++ str_of_nat n ++ E)
    by (apply numbered_name_no_slash; [apply temp_no_slash | done]).
  eexists. split; [exact Hs|]. split; [by intros [=]|].
  split; [done|]. split; [|done].
  intros (t' & Et & Ht & _)%unpaired_inv.
  apply os_path_join_inj in Et as <-;
    [|done|by apply (listing_names m folder)].
  apply (tidy_temp _ _ Htidy) in Ht.
  by rewrite (proj2 (startswith_true _ _)) in Ht by eauto.
Qed.

(** A final name is not in use, or it is the name of a file that is renamed
    or moved away. *)
Lemma tidy_plan_finals p :
  p ∈ plan.2.*2 →
  ∃ X, slash ∉ X ∧ X ≠ lit "unpaired" ∧ p = J X
       ∧ (m !! p = None ∨ p ∈ plan.1.*1 ∨ p ∈ unpaired)
       ∧ p ∉ plan.1.*2 ∧ is_dir m p = false.
Proof.
  intros (n & E & -> & HE)%scan_plan_finals_inv.
  assert (Hlike : ext_like E).
  { destruct HE as [(img & Himage & ->)| ->];
      [by apply ext_like_image | apply ext_like_txt]. }
  assert (Hs : slash ∉ str_of_nat n ++ E).
  { apply (numbered_name_no_slash []); [by intros ?%elem_of_nil | done]. }
  eexists. split; [exact Hs|]. split.
  { destruct (str_of_nat_head n E) as (c & r & -> & Hc). intros [= -> _].
    revert Hc. exact (bool_decide_unpack (¬ is_digit "u"%char) I). }
  split; [done|].
  assert (Hcases : m !! os_path_join folder (str_of_nat n ++ E) = None
            ∨ (str_of_nat n ++ E ∈ files
               ∧ (is_image (str_of_nat n ++ E) ∨ is_text (str_of_nat n ++ E))
               ∧ (os_path_join folder (str_of_nat n ++ E) ∈ plan.1.*1
                  ∨ os_path_join folder (str_of_nat n ++ E) ∈ unpaired))).
  { destruct (m !! os_path_join folder (str_of_nat n ++ E)) as [x|] eqn:Em;
      [right | by left].
    assert (Hin : str_of_nat n ++ E ∈ files).
    { apply elem_of_listing. split.
      - destruct (str_of_nat_head n E) as (c & r & -> & _). done.
      - split; [done|]. by rewrite Em. }
    split; [done|].
    destruct HE as [(img & Himage & ->)| ->].
    - pose proof (numbered_name_is_image n img Himage) as Hi.
      split; [by left|]. left. by apply scan_plan_olds_image.
    - split; [right; apply is_text_suffix|].
      destruct (decide (Exists (λ fi, text_path fi
                                      = Some (os_path_join folder
                                                (str_of_nat n ++ lit ".txt")))
                               infos)) as [Hex|Hno].
      + apply Exists_exists in Hex as (fi & Hfi & Ht). left.
        by apply (scan_plan_olds_caption folder m fi).
      + right. apply scan_unpaired_files_complete;
          [intros y; apply listing_names | done | apply is_text_suffix |].
        intros fi Hfi Ht. apply Hno, Exists_exists. by exists fi. }
  split; [destruct Hcases as [?|(_ & _ & [?|?])]; auto|].
  split.
  - intros (n' & E' & HE' & Eq)%scan_plan_temps_inv.
    by apply numbered_name_not_temp in Eq.
  - destruct Hcases as [Hnone|(Hin & Hkind & _)].
    + unfold is_dir. by rewrite Hnone.
    + pose proof (tidy_files _ _ Htidy _ Hin Hkind) as Hf.
      unfold is_file, is_dir in *.
      by destruct (m !! os_path_join folder (str_of_nat n ++ E)) as [[?|]|].
Qed.

(** Every path of the plan is an entry of the folder other than [unpaired],
    and no directory. *)
Lemma tidy_plan_path p :
  p ∈ plan.1.*1 ++ plan.1.*2 ++ plan.2.*2 →
  ∃ X, slash ∉ X ∧ X ≠ lit "unpaired" ∧ p = J X ∧ is_dir m p = false.
Proof.
  rewrite !elem_of_app. intros [Hp|[Hp|Hp]].
  - apply tidy_plan_olds in Hp as (X & ? & ? & ? & _ & Hf).
    exists X. repeat split; try done. unfold is_file, is_dir in *.
    by destruct (m !! p) as [[?|]|].
  - apply tidy_plan_temps in Hp as (X & ? & ? & ? & _ & Hnone).
    exists X. repeat split; try done. unfold is_dir. by rewrite Hnone.
  - apply tidy_plan_finals in Hp as (X & ? & ? & ? & _ & _ & ?).
    by exists X.
Qed.

(** After the handler the plan of the renamer is clear. *)
Lemma tidy_plan_clear : clear_plan plan m2.
Proof.
  unfold clear_plan. split_and!.
  - apply scan_plan_olds_NoDup, Htidy.
  - apply scan_plan_temps_NoDup.
  - apply scan_plan_finals_NoDup.
  - apply Forall_forall. intros p (X & HX & Hne & -> & Hnu & Hf)%tidy_plan_olds.
    destruct (outside_unpaired folder X HX Hne) as [Ho _].
    unfold is_file in *. by rewrite Hkeep.
  - apply Forall_forall.
    intros p (X & HX & Hne & -> & Hnu & Hnone)%tidy_plan_temps.
    destruct (outside_unpaired folder X HX Hne) as [Ho _].
    by rewrite Hkeep.
  - apply Forall_forall.
    intros p (X & HX & Hne & -> & Hc & Hnt & _)%tidy_plan_finals.
    split; [|done].
    destruct (outside_unpaired folder X HX Hne) as [Ho _].
    destruct (decide (J X ∈ unpaired)) as [Hu|Hu]; [left; by apply Hgone|].
    destruct Hc as [Hnone|[Hold|?]]; [left | by right | done].
    by rewrite Hkeep.
  - intros x k (X & HX & Hne & -> & Hdir)%tidy_plan_path [r ->].
    destruct (outside_unpaired folder X HX Hne) as [_ Ho].
    unfold J in Hdir |- *. split.
    + rewrite Hkeep; [|
        |apply Ho].
      * destruct (m !! (os_path_join folder X ++ slash :: r)) as [y|] eqn:E;
          [|done].
        rewrite (tidy_sub _ _ Htidy X r HX) in Hdir; [done|].
        by rewrite E.
      * intros (t & E & Ht & _)%unpaired_inv.
        destruct (listing_names _ _ _ Ht) as [_ Hst].
        unfold J in E.
        rewrite (os_path_join_name folder X), (os_path_join_name folder t),
          <- app_assoc in E by done.
        apply app_inv_head in E. apply Hst. rewrite <- E.
        apply elem_of_app. right. left.
    + intros (Y & HY & _ & E & _)%tidy_plan_path.
      unfold J in E.
      rewrite (os_path_join_name folder X), (os_path_join_name folder Y),
        <- app_assoc in E by done.
      apply app_inv_head in E. apply HY. rewrite <- E.
      apply elem_of_app. right. left.
Qed.
End pipeline_rename.

(** ** From the first scan to the end of the pipeline *)

(** After the renamer the pipeline writes to captions only. *)
Lemma auto_post_process_keeps folder w infos unpaired p :
  (scan_and_match_files folder w).1 = inr (infos, unpaired) →
  (∀ name, slash ∉ name → is_text name → p ≠ os_path_join folder name) →
  fs (auto_post_process folder w).2 !! p
  = fs (rename_files folder infos
          (handle_unpaired_files folder unpaired
             (scan_and_match_files folder w).2).2).2 !! p.
Proof.
  intros Hscan Hp. unfold auto_post_process, bind, ret.
  destruct (scan_and_match_files folder w) as [res w1]. cbn [fst snd] in *.
  subst res.
  destruct (handle_unpaired_files folder unpaired w1) as [r2 w2].
  cbn [fst snd].
  destruct (rename_files folder infos w2) as [r3 w3]. cbn [fst snd].
  pose proof (scan_and_match_files_fs folder w3) as Efs.
  destruct (scan_and_match_files folder w3) as [[e|[infos' unp']] w4] eqn:Es;
    cbn [fst snd] in *.
  { by rewrite Efs. }
  unfold standardize_tags, bind, ret.
  pose proof (standardize_loop_fs infos' new_result w4 p) as H.
  destruct (standardize_loop infos' new_result w4) as [r5 w5].
  cbn [fst snd] in *. rewrite H, Efs. rewrite decide_False; [done|].
  intros (fi & Hfi & Ht)%list_elem_of_omap.
  apply scan_and_match_files_ok in Es as (_ & -> & _ & _).
  destruct (text_path fi) as [[|c t]|] eqn:Et; simpl in Ht; try done.
  injection Ht as <-.
  destruct (scan_text_path folder _ fi _ (listing_names _ _) Hfi Et)
    as (n & E & Hs).
  apply (Hp (n ++ lit ".txt")); [done | apply is_text_suffix | done].
Qed.

(** In a tidy folder the handler takes the unpaired captions away and
    leaves the plan of the renamer clear. *)
Lemma tidy_after_handler folder w infos unpaired :
  (scan_and_match_files folder w).1 = inr (infos, unpaired) →
  tidy folder (fs w) →
  clear_plan (rename_plan folder rename_start_index infos)
    (fs (handle_unpaired_files folder unpaired
           (scan_and_match_files folder w).2).2).
Proof.
  intros Hscan Htidy. pose proof Hscan as [-> ->]%scan_result_lists.
  pose proof (scan_and_match_files_fs folder w) as Efs.
  destruct (scan_and_match_files folder w) as [res w1]. cbn [fst snd] in *.
  set (files := listing (fs w) folder) in *.
  assert (Hnames : ∀ n, n ∈ files → n ≠ [] ∧ slash ∉ n)
    by (intros n; apply listing_names).
  assert (Hunp : ∀ p, p ∈ (scan_lists folder files).2 →
            ∃ t, p = os_path_join folder t ∧ t ∈ files ∧ is_text t
                 ∧ slash ∉ t ∧ t ≠ lit "unpaired"
                 ∧ is_file (fs w) p = true).
  { intros p (t & -> & Ht & Htxt & _)%scan_unpaired_files; [|done].
    exists t. destruct (Hnames t Ht) as [_ Hs]. repeat split; try done.
    - intros ->. revert Htxt.
      exact (bool_decide_unpack (¬ is_text (lit "unpaired")) I).
    - apply Htidy; auto. }
  destruct (handle_unpaired_files_exact folder (scan_lists folder files).2 w1)
    as [Hgone Hkeep].
  - apply scan_unpaired_files_NoDup; [done | apply NoDup_listing].
  - apply Forall_forall. intros p (t & _ & _ & _ & _ & _ & Hf)%Hunp.
    by rewrite Efs.
  - intros f k (t & -> & Ht & _ & Hs & _ & Hf)%Hunp [r ->]. rewrite Efs.
    split.
    + destruct (fs w !! (os_path_join folder t ++ slash :: r)) as [x|] eqn:E;
        [|done].
      pose proof (tidy_sub _ _ Htidy t r Hs) as Hd. rewrite E in Hd.
      unfold is_file, is_dir in *.
      destruct (fs w !! os_path_join folder t) as [[?|]|]; try done;
        by specialize (Hd ltac:(done)).
    + rewrite (os_path_join_name folder t),
        (os_path_join_name folder (lit "unpaired")), <- app_assoc
        by (done || by_compute).
      intros E%app_inv_head.
      assert (Hu : slash ∉ lit "unpaired") by by_compute.
      apply Hu. rewrite <- E. apply elem_of_app. right. left.
  - rewrite Efs. apply Htidy.
  - rewrite Efs. apply Htidy.
  - intros f (t & -> & _ & _ & Hs & Hne & _)%Hunp.
    by destruct (outside_unpaired folder t Hs Hne).
  - apply (tidy_plan_clear folder (fs w)); [done|done|].
    intros k Hk Hb. rewrite Hkeep by done. by rewrite Efs.
Qed.



